(** * Code Archaeologist: the analysis pipeline, embedded and verified

    A shallow embedding of the backend services of the repository
    (app/services/llm_service.py, relationship_detector.py, ast_parser.py,
    analysis_service.py) together with the properties the specification
    states about them.

    Conventions of the embedding.
    - A Python [str] is a [string]; a character is a code point below 256.
    - A Python [set] is a [gset], a [dict] used as a map is a [gmap]; a
      [dict] whose iteration order matters is an association list.
    - A function that can raise returns a [Result]; the exceptions of the
      model are the instances of Python's [Exception] class, the ones an
      [except Exception] clause names.
    - The database session, the ingester, the text-generation client,
      the vector store and the regular-expression engine are collaborators
      of the code: they are operations of type classes, and every theorem
      holds for all their implementations.

    The first part of the file holds the definitions, in the order of the
    source files; the second part holds the theorems. *)

From Stdlib Require Import ZArith Ascii String List Bool Lia PrimFloat.
From stdpp Require Import base option list gmap strings pretty.

#[local] Set Warnings "-clear-no-such-hyp".

Local Open Scope string_scope.
Local Open Scope list_scope.

(** ** Python's [str] methods used by the services *)

Module PyStr.

Definition nl : string := String (ascii_of_nat 10) EmptyString.

Definition code (c : ascii) : nat := nat_of_ascii c.

(** [str.isspace] on one character (code points below 256). *)
Definition isspace (c : ascii) : bool :=
  let n := code c in
  (((9 <=? n) && (n <=? 13)) || ((28 <=? n) && (n <=? 32))
   || (n =? 133) || (n =? 160))%nat.

(** A decimal digit, the class [\d] of the [re] module. *)
Definition isdecimal (c : ascii) : bool :=
  let n := code c in ((48 <=? n) && (n <=? 57))%nat.

Definition lower_char (c : ascii) : ascii :=
  let n := code c in
  if (((65 <=? n) && (n <=? 90))
      || ((192 <=? n) && (n <=? 222) && negb (n =? 215)))%nat
  then ascii_of_nat (n + 32) else c.

(** [s.lower()] *)
Fixpoint lower (s : string) : string :=
  match s with
  | EmptyString => EmptyString
  | String c r => String (lower_char c) (lower r)
  end.

Fixpoint mem_char (c : ascii) (s : string) : bool :=
  match s with
  | EmptyString => false
  | String a r => Ascii.eqb a c || mem_char c r
  end.

Fixpoint lstrip_by (p : ascii -> bool) (s : string) : string :=
  match s with
  | EmptyString => EmptyString
  | String c r => if p c then lstrip_by p r else s
  end.

Definition rstrip_by (p : ascii -> bool) (s : string) : string :=
  String.rev (lstrip_by p (String.rev s)).

Definition strip_by (p : ascii -> bool) (s : string) : string :=
  rstrip_by p (lstrip_by p s).

(** [s.strip()] *)
Definition strip (s : string) : string := strip_by isspace s.

(** [s.strip(chars)] *)
Definition strip_chars (chars s : string) : string :=
  strip_by (fun c => mem_char c chars) s.

(** The scan of [s.replace(old, new)] for a non-empty [old]: [skip] counts
    the characters of a match that are still to be consumed. *)
Fixpoint replace_from (old new : string) (skip : nat) (s : string) : string :=
  match s with
  | EmptyString => EmptyString
  | String c r =>
      match skip with
      | S k => replace_from old new k r
      | O =>
          if String.prefix old s
          then new +:+ replace_from old new (String.length old - 1) r
          else String c (replace_from old new 0 r)
      end
  end.

Fixpoint intersperse_str (new s : string) : string :=
  match s with
  | EmptyString => EmptyString
  | String c r => String c (new +:+ intersperse_str new r)
  end.

(** [s.replace(old, new)]: every occurrence, leftmost first, without
    overlap; an empty [old] matches before every character and at the end. *)
Definition replace (old new s : string) : string :=
  match old with
  | EmptyString => new +:+ intersperse_str new s
  | String _ _ => replace_from old new 0 s
  end.

(** The scan of [s.split(sep)] for a non-empty [sep]; [cur] is the piece
    read so far, reversed. *)
Fixpoint split_from (sep : string) (skip : nat) (cur s : string) : list string :=
  match s with
  | EmptyString => [String.rev cur]
  | String c r =>
      match skip with
      | S k => split_from sep k cur r
      | O =>
          if String.prefix sep s
          then String.rev cur :: split_from sep (String.length sep - 1) EmptyString r
          else split_from sep 0 (String c cur) r
      end
  end.

(** [s.split(sep)], [sep] not empty (Python raises ValueError on an empty
    separator; the services only split on line breaks). *)
Definition split (sep s : string) : list string :=
  split_from sep 0 EmptyString s.

(** [sep.join(l)] *)
Definition join (sep : string) (l : list string) : string :=
  String.concat sep l.

(** The text before the last occurrence of [c], if [c] occurs. *)
Fixpoint before_last (c : ascii) (s : string) : option string :=
  match s with
  | EmptyString => None
  | String a r =>
      match before_last c r with
      | Some h => Some (String a h)
      | None => if Ascii.eqb a c then Some EmptyString else None
      end
  end.

(** [s.rsplit(c, 1)[0]] for a one-character separator. *)
Definition rsplit1_head (c : ascii) (s : string) : string :=
  match before_last c s with
  | Some h => h
  | None => s
  end.

(** [s.startswith(p)] *)
Definition startswith (s p : string) : bool := String.prefix p s.

(** [s.endswith(p)] *)
Definition endswith (s p : string) : bool :=
  String.prefix (String.rev p) (String.rev s).

(** [s[:n]] for [n >= 0] *)
Definition take (n : nat) (s : string) : string := String.substring 0 n s.

(** [str(n)] for a non-negative integer. *)
Definition of_nat (n : nat) : string := pretty n.

End PyStr.

(** ** relationship_detector.py: matching an import against a file path *)

Module ImportMatch.

(** [import_path.replace('.', '/').strip('./ ')] *)
Definition import_normalized (import_path : string) : string :=
  PyStr.strip_chars "./ " (PyStr.replace "." "/" import_path).

(** [file_path.replace('\\', '/').lower()] *)
Definition file_normalized (file_path : string) : string :=
  PyStr.lower (PyStr.replace "\" "/" file_path).

(** The file path without its extension, and without [/__init__] when it
    ends in it. *)
Definition file_base (file_path : string) : string :=
  let file_base := PyStr.rsplit1_head "." (file_normalized file_path) in
  if PyStr.endswith file_base "/__init__"
  then PyStr.replace "/__init__" "" file_base
  else file_base.

Definition _is_import_match (import_path file_path : string) : bool :=
  let import_normalized := import_normalized import_path in
  let file_base := file_base file_path in
  if String.eqb file_base import_normalized then true
  else if PyStr.startswith file_base (import_normalized +:+ "/") then true
  else false.

(** The rule in the words of the specification: the file path is the
    import path, or lies exactly one level below it. *)
Definition one_level_below (dir path : string) : bool :=
  PyStr.startswith path (dir +:+ "/")
  && negb (PyStr.mem_char "/"
             (String.substring (String.length dir + 1) (String.length path) path)).

Definition spec_is_import_match (import_path file_path : string) : bool :=
  String.eqb (file_base file_path) (import_normalized import_path)
  || one_level_below (import_normalized import_path) (file_base file_path).

End ImportMatch.

(** ** Exceptions, results and the slices of Python lists *)

Module Py.

(** An instance of (a subclass of) Python's [Exception]: its class name
    and [str(e)]. *)
Record Exception := mkException { exc_class : string; exc_str : string }.

Definition ValueError (msg : string) : Exception := mkException "ValueError" msg.
Definition PlainException (msg : string) : Exception := mkException "Exception" msg.
Definition AttributeError (msg : string) : Exception := mkException "AttributeError" msg.

(** The outcome of a call: a value, or a raised exception. *)
Inductive Result (A : Type) : Type :=
| Ok (a : A)
| Raise (e : Exception).
Arguments Ok {A} a.
Arguments Raise {A} e.

Definition rbind {A B} (r : Result A) (k : A -> Result B) : Result B :=
  match r with
  | Ok a => k a
  | Raise e => Raise e
  end.

(** A slice bound, clipped as Python clips it: a negative bound counts
    from the end. *)
Definition clip_index (len : nat) (i : Z) : nat :=
  if (i <? 0)%Z then Z.to_nat (Z.max 0 (i + Z.of_nat len))
  else Nat.min (Z.to_nat i) len.

(** [l[lo:hi]] *)
Definition slice {A} (l : list A) (lo hi : Z) : list A :=
  let a := clip_index (length l) lo in
  let b := clip_index (length l) hi in
  firstn (b - a) (skipn a l).

(** [l[:hi]] *)
Definition slice_to {A} (l : list A) (hi : Z) : list A := slice l 0 hi.

Fixpoint range_from (fuel : nat) (i stop step : Z) : list Z :=
  match fuel with
  | O => []
  | S f => if (i <? stop)%Z then i :: range_from f (i + step)%Z stop step else []
  end.

(** [range(0, stop, step)] for [stop = len(...)]; a zero step raises. *)
Definition range0 (stop : nat) (step : Z) : Result (list Z) :=
  if (step =? 0)%Z then Raise (ValueError "range() arg 3 must not be zero")
  else if (step <? 0)%Z then Ok []
  else Ok (range_from stop 0 (Z.of_nat stop) step).

(** [enumerate(l)] *)
Definition enumerate {A} (l : list A) : list (Z * A) :=
  imap (fun i x => (Z.of_nat i, x)) l.

(** The truth value of a list and of a string. *)
Definition truthy {A} (l : list A) : bool :=
  match l with [] => false | _ :: _ => true end.

Definition truthy_str (s : string) : bool :=
  match s with EmptyString => false | String _ _ => true end.

End Py.

Export Py.

(** ** app/config.py *)

Record Settings := {
  LLM_BATCH_SIZE : Z;
  LLM_MAX_CONCURRENT : Z;
  ENABLE_RELATIONSHIP_DETECTION : bool;
  BATCH_SIZE : Z
}.

Definition default_settings : Settings :=
  {| LLM_BATCH_SIZE := 5; LLM_MAX_CONCURRENT := 2;
     ENABLE_RELATIONSHIP_DETECTION := true; BATCH_SIZE := 10 |}.

(** ** llm_service.py *)

Module LLM.

(** The text-generation service behind [self.client]. The explanation
    groups are sent by concurrent tasks; [create k system user] is what
    the service answers to the request of task [k]: the content of the
    first choice, or an exception. *)
Class Client := {
  create : nat -> string -> string -> Result string
}.

(** *** The numbered-list decoder *)

Fixpoint span_by (p : ascii -> bool) (s : string) : string * string :=
  match s with
  | EmptyString => (EmptyString, EmptyString)
  | String c r =>
      if p c then let '(a, b) := span_by p r in (String c a, b)
      else (EmptyString, s)
  end.

Definition digit_value (c : ascii) : N := N.of_nat (PyStr.code c - 48).

Fixpoint int_acc (acc : N) (ds : string) : N :=
  match ds with
  | EmptyString => acc
  | String c r => int_acc (10 * acc + digit_value c)%N r
  end.

(** [int(ds)] for a string of decimal digits. *)
Definition int (ds : string) : N := int_acc 0 ds.

Definition is_dot_or_paren (c : ascii) : bool :=
  Ascii.eqb c "." || Ascii.eqb c ")".

(** [re.match(r'^\s*(?:\[(\d+)\]|(\d+)[.)]\s)', line)]: the digits of
    group 1 or of group 2 when the line matches. Blanks, an opening
    bracket and digits are disjoint classes, so no backtracking over
    [\s*] or [\d+] can succeed where the greedy reading fails. *)
Definition match_numbered (line : string) : option string :=
  match PyStr.lstrip_by PyStr.isspace line with
  | String "[" r =>
      match span_by PyStr.isdecimal r with
      | (String d ds, String "]" _) => Some (String d ds)
      | _ => None
      end
  | l =>
      match span_by PyStr.isdecimal l with
      | (String d ds, String c (String w _)) =>
          if is_dot_or_paren c && PyStr.isspace w then Some (String d ds) else None
      | _ => None
      end
  end.

(** [re.sub(pattern, '', line)] for the second pattern of the loop, which
    is the first one without its groups and with any run of blanks, also
    an empty one, after the dot or the parenthesis. The pattern is
    anchored, so at most the prefix of the line is removed. *)
Definition sub_numbered (line : string) : string :=
  match PyStr.lstrip_by PyStr.isspace line with
  | String "[" r =>
      match span_by PyStr.isdecimal r with
      | (String _ _, String "]" rest) => rest
      | _ => line
      end
  | l =>
      match span_by PyStr.isdecimal l with
      | (String _ _, String c rest) =>
          if is_dot_or_paren c then PyStr.lstrip_by PyStr.isspace rest else line
      | _ => line
      end
  end.

(** The local variables of the parsing loop. *)
Record ParseState := {
  items : list string;
  current_item : list string;
  current_num : N
}.

Definition parse_init : ParseState :=
  {| items := []; current_item := []; current_num := 0 |}.

(** [' '.join(current_item).strip()] *)
Definition flush_item (current_item : list string) : string :=
  PyStr.strip (PyStr.join " " current_item).

(** One iteration of [for line in lines]. *)
Definition parse_line (st : ParseState) (line : string) : ParseState :=
  match match_numbered line with
  | Some ds =>
      let num := int ds in
      let items' :=
        if truthy (current_item st)
        then items st ++ [flush_item (current_item st)]
        else items st in
      {| items := items';
         current_item := [PyStr.strip (sub_numbered line)];
         current_num := num |}
  | None =>
      if truthy (current_item st)
      then {| items := items st;
              current_item := current_item st ++ [PyStr.strip line];
              current_num := current_num st |}
      else st
  end.

(** The items read from the numbered lines of the response. *)
Definition numbered_items (response : string) : list string :=
  let lines := PyStr.split PyStr.nl (PyStr.strip response) in
  let st := fold_left parse_line lines parse_init in
  if truthy (current_item st)
  then items st ++ [flush_item (current_item st)]
  else items st.

(** [[p.strip() for p in response.split('\n\n') if p.strip()]] *)
Definition paragraphs (response : string) : list string :=
  map PyStr.strip
    (List.filter (fun p => truthy_str (PyStr.strip p))
       (PyStr.split (PyStr.nl +:+ PyStr.nl) response)).

Definition summary_placeholder : string := "Summary not available".

(** [while len(items) < expected_count: items.append(placeholder)] *)
Definition pad_items (items : list string) (expected_count : Z) : list string :=
  items ++ repeat summary_placeholder
                  (Z.to_nat (expected_count - Z.of_nat (length items))).

Definition _parse_numbered_list (response : string) (expected_count : Z)
  : list string :=
  let items := numbered_items response in
  let len_items := Z.of_nat (length items) in
  if (len_items =? expected_count)%Z then items
  else if (expected_count <? len_items)%Z then slice_to items expected_count
  else
    let paragraphs := paragraphs response in
    if (len_items <? expected_count)%Z
       && (expected_count <=? Z.of_nat (length paragraphs))%Z
    then slice_to paragraphs expected_count
    else pad_items items expected_count.

(** *** Calling the service *)

(** [_call_llm]: any exception of the client is logged and raised again
    as a plain [Exception] with a prefixed message. *)
Definition _call_llm `{Client} (task : nat) (system_prompt user_prompt : string)
  : Result string :=
  match create task system_prompt user_prompt with
  | Ok content => Ok content
  | Raise e => Raise (PlainException ("LLM API error: " +:+ exc_str e))
  end.

(** One input of the explanation batch: the keys [name], [code],
    [language] of the dictionary. *)
Record FunctionInput := {
  fn_name : string;
  fn_code : string;
  fn_language : string
}.

Definition explain_system_prompt : string :=
  "You are a code analyst. For each numbered function below, explain what it does in 1-2 sentences."
  +:+ PyStr.nl +:+
  "Focus on inputs, outputs, and purpose. Format as a numbered list matching the input numbers.".

Definition func_section (i : nat) (f : FunctionInput) : string :=
  let truncated := PyStr.take 1500 (fn_code f) in
  "[" +:+ PyStr.of_nat i +:+ "] " +:+ fn_name f +:+ " (" +:+ fn_language f +:+ "):"
  +:+ PyStr.nl +:+ "```" +:+ PyStr.nl +:+ truncated +:+ PyStr.nl +:+ "```".

Definition explain_user_prompt (functions : list FunctionInput) : string :=
  "Explain each function:" +:+ PyStr.nl +:+ PyStr.nl
  +:+ PyStr.join PyStr.nl (imap (fun i f => func_section (S i) f) functions)
  +:+ PyStr.nl +:+ PyStr.nl +:+ "Provide numbered explanations:".

(** [_explain_functions_batch]: one call of the service for one group. *)
Definition _explain_functions_batch `{Client} (task : nat)
    (functions : list FunctionInput) : Result (list string) :=
  rbind (_call_llm task explain_system_prompt (explain_user_prompt functions))
    (fun response =>
       Ok (_parse_numbered_list response (Z.of_nat (length functions)))).

Definition explanation_placeholder : string := "Explanation generation failed".

(** The groups handed to [asyncio.gather]: one task per start index. *)
Definition batches {A} (batch_size : Z) (l : list A) : Result (list (list A)) :=
  rbind (range0 (length l) batch_size)
    (fun starts => Ok (map (fun i => slice l i (i + batch_size)%Z) starts)).

(** One step of the loop over [enumerate(batch_results)], which is the
    same in the two batch methods up to the placeholder. *)
Definition collect_batch {A} (placeholder : string) (batch_size : Z)
    (inputs : list A) (all_outputs : list string)
    (ir : Z * Result (list string)) : list string :=
  let '(i, result) := ir in
  let batch := slice inputs (i * batch_size)%Z ((i + 1) * batch_size)%Z in
  match result with
  | Raise _ => all_outputs ++ repeat placeholder (length batch)
  | Ok outputs => all_outputs ++ outputs
  end.

(** [explain_functions_batch]. [gather(..., return_exceptions=True)]
    yields, in the order of the tasks, the list or the exception of each
    task; the semaphore only bounds how many tasks call the service at
    the same time. *)
Definition explain_functions_batch `{Client} (settings : Settings)
    (functions : list FunctionInput) : Result (list string) :=
  let batch_size := LLM_BATCH_SIZE settings in
  rbind (batches batch_size functions)
    (fun tasks =>
       let batch_results := imap (fun k batch => _explain_functions_batch k batch) tasks in
       Ok (fold_left (collect_batch explanation_placeholder batch_size functions)
             (enumerate batch_results) [])).

(** One input of the summary batch: the keys [path], [code], [language]. *)
Record FileInput := {
  fi_path : string;
  fi_code : string;
  fi_language : string
}.

Definition summary_system_prompt : string :=
  "You are a code analyst. For each numbered file below, provide a 2-3 sentence technical summary."
  +:+ PyStr.nl +:+
  "Format your response as a numbered list matching the input numbers. Each summary should focus on what the file does.".

Definition file_section (i : nat) (f : FileInput) : string :=
  let truncated := PyStr.take 3000 (fi_code f) in
  "[" +:+ PyStr.of_nat i +:+ "] File: " +:+ fi_path f
  +:+ " (Language: " +:+ fi_language f +:+ ")"
  +:+ PyStr.nl +:+ "```" +:+ PyStr.nl +:+ truncated +:+ PyStr.nl +:+ "```".

Definition summary_user_prompt (files : list FileInput) : string :=
  "Summarize each file:" +:+ PyStr.nl +:+ PyStr.nl
  +:+ PyStr.join PyStr.nl (imap (fun i f => file_section (S i) f) files)
  +:+ PyStr.nl +:+ PyStr.nl +:+ "Provide numbered summaries:".

Definition _summarize_files_batch `{Client} (task : nat)
    (files : list FileInput) : Result (list string) :=
  rbind (_call_llm task summary_system_prompt (summary_user_prompt files))
    (fun response =>
       Ok (_parse_numbered_list response (Z.of_nat (length files)))).

Definition summary_failure_placeholder : string := "Summary generation failed".

(** [generate_file_summaries_batch]: groups of three files. *)
Definition generate_file_summaries_batch `{Client} (files : list FileInput)
  : Result (list string) :=
  let batch_size := 3%Z in
  rbind (batches batch_size files)
    (fun tasks =>
       let batch_results := imap (fun k batch => _summarize_files_batch k batch) tasks in
       Ok (fold_left (collect_batch summary_failure_placeholder batch_size files)
             (enumerate batch_results) [])).

End LLM.

(** ** The [re] module, as the services use it *)

Module Re.

(** Every pattern of ast_parser.py and relationship_detector.py has one
    capturing group, which takes part in every match, and the code reads
    nothing but [group(1)]. The engine gives that text:
    [re_match p s] for a match of [p] at the start of [s],
    [re_search p s] for the leftmost match of [p] in [s],
    [re_finditer p multiline s] for all matches, from left to right. *)
Class Engine := {
  re_match : string -> string -> option string;
  re_search : string -> string -> option string;
  re_finditer : string -> bool -> string -> list string
}.

(** The double quote and the single quote, which occur in two patterns. *)
Definition dq : string := String (ascii_of_nat 34) EmptyString.
Definition sq : string := String (ascii_of_nat 39) EmptyString.

End Re.

(** ** ast_parser.py *)

Module Parser.
Import Re.

(** The dictionary built for one declaration. *)
Record CandidateEntity := {
  ce_name : string;
  ce_type : string;
  ce_start_line : Z;
  ce_end_line : Z;
  ce_code : string
}.

(** A child of the root node of a syntax tree: its type, the byte range
    of its [name] field when it has one, its rows and its byte range. *)
Record Node := {
  node_type : string;
  name_node : option (Z * Z);
  start_row : Z;
  end_row : Z;
  start_byte : Z;
  end_byte : Z
}.

(** The grammar-based parser. [tree_sitter_ok] and [parsers] are the
    fields set by [__init__]; [parse language content] is
    [self.parsers[language].parse(bytes(content, "utf8"))] followed by
    [tree.root_node.children], or the exception it raises. *)
Class TreeSitter := {
  tree_sitter_ok : bool;
  parsers : gset string;
  parse : string -> string -> Result (list Node)
}.

(** [content[lo:hi]] *)
Definition str_slice (content : string) (lo hi : Z) : string :=
  string_of_list_ascii (slice (list_ascii_of_string content) lo hi).

Definition entity_of_node (kind : string) (content : string) (child : Node)
  : list CandidateEntity :=
  match name_node child with
  | Some (a, b) =>
      [ {| ce_name := str_slice content a b;
           ce_type := kind;
           ce_start_line := start_row child + 1;
           ce_end_line := end_row child + 1;
           ce_code := str_slice content (start_byte child) (end_byte child) |} ]
  | None => []
  end.

Definition _extract_python_entities (children : list Node) (content : string)
  : list CandidateEntity :=
  flat_map
    (fun child =>
       if String.eqb (node_type child) "function_definition"
       then entity_of_node "function" content child
       else if String.eqb (node_type child) "class_definition"
       then entity_of_node "class" content child
       else [])
    children.

Definition _extract_js_entities (children : list Node) (content : string)
  : list CandidateEntity :=
  flat_map
    (fun child =>
       if String.eqb (node_type child) "function_declaration"
          || String.eqb (node_type child) "method_definition"
       then entity_of_node "function" content child
       else if String.eqb (node_type child) "class_declaration"
       then entity_of_node "class" content child
       else [])
    children.

Definition line_entity (name kind : string) (i : Z) (line : string)
  : CandidateEntity :=
  {| ce_name := name; ce_type := kind; ce_start_line := i; ce_end_line := i;
     ce_code := PyStr.strip line |}.

Definition def_pattern : string := "^\s*def\s+(\w+)".
Definition class_pattern : string := "^\s*class\s+(\w+)".
Definition js_function_pattern : string := "(?:async\s+)?function\s+(\w+)".
Definition js_arrow_pattern : string :=
  "(?:const|let|var)\s+(\w+)\s*=\s*(?:async\s+)?\(".

(** The first pattern of the list that is found in the line. *)
Fixpoint first_search `{Engine} (patterns : list string) (line : string)
  : option string :=
  match patterns with
  | [] => None
  | p :: ps =>
      match re_search p line with
      | Some name => Some name
      | None => first_search ps line
      end
  end.

Definition fallback_python_line `{Engine} (il : Z * string) : list CandidateEntity :=
  let '(i, line) := il in
  match re_match def_pattern line with
  | Some name => [line_entity name "function" i line]
  | None =>
      match re_match class_pattern line with
      | Some name => [line_entity name "class" i line]
      | None => []
      end
  end.

Definition fallback_js_line `{Engine} (il : Z * string) : list CandidateEntity :=
  let '(i, line) := il in
  match first_search [js_function_pattern; js_arrow_pattern] line with
  | Some name => [line_entity name "function" i line]
  | None => []
  end
  ++
  match re_match class_pattern line with
  | Some name => [line_entity name "class" i line]
  | None => []
  end.

(** [enumerate(lines, 1)] *)
Definition enumerate1 {A} (l : list A) : list (Z * A) :=
  imap (fun i x => (Z.of_nat (S i), x)) l.

Definition _fallback_extract `{Engine} (content language : string)
  : list CandidateEntity :=
  let lines := PyStr.split PyStr.nl content in
  if String.eqb language "python"
  then flat_map fallback_python_line (enumerate1 lines)
  else flat_map fallback_js_line (enumerate1 lines).

Definition supported_languages : list string :=
  ["python"; "javascript"; "typescript"].

Definition parse_file `{Engine} `{TreeSitter} (content language : string)
  : list CandidateEntity :=
  if negb (bool_decide (language ∈ supported_languages)) then []
  else
    let fallback := _fallback_extract content language in
    if tree_sitter_ok && bool_decide (language ∈ parsers)
    then
      match parse language content with
      | Ok children =>
          if String.eqb language "python"
          then _extract_python_entities children content
          else _extract_js_entities children content
      | Raise _ => fallback
      end
    else fallback.

End Parser.

(** ** app/models.py: the rows of the database *)

Module Models.

Inductive AnalysisStatus := PENDING | IN_PROGRESS | COMPLETED | FAILED.

Inductive EntityType := FUNCTION | CLASS | METHOD | VARIABLE | IMPORT | MODULE.

Inductive RelationshipType := CALLS | INHERITS | IMPORTS | CONTAINS | REFERENCES.

#[global] Instance AnalysisStatus_eq_dec : EqDecision AnalysisStatus.
Proof. solve_decision. Defined.
#[global] Instance EntityType_eq_dec : EqDecision EntityType.
Proof. solve_decision. Defined.
#[global] Instance RelationshipType_eq_dec : EqDecision RelationshipType.
Proof. solve_decision. Defined.

(** [EntityType.value] *)
Definition entity_type_value (t : EntityType) : string :=
  match t with
  | FUNCTION => "function" | CLASS => "class" | METHOD => "method"
  | VARIABLE => "variable" | IMPORT => "import" | MODULE => "module"
  end.

Record Repository := {
  repo_name : string;
  repo_url : string;
  status : AnalysisStatus;
  status_message : option string;
  file_count : Z;
  language_breakdown : gmap string Z
}.

Record File := {
  file_id : Z;
  file_repo_id : Z;
  file_path : string;
  file_extension : option string;
  size_bytes : option Z;
  file_language : option string;
  line_count : option Z;
  file_summary : option string
}.

Record Entity := {
  entity_id : Z;
  entity_repo_id : Z;
  entity_file_id : Z;
  entity_name : string;
  entity_type : EntityType;
  start_line : Z;
  end_line : Z;
  code_snippet : option string;
  logic_summary : option string
}.

(** [rel_metadata] is a JSON object; the code stores strings in it. *)
Record Relationship := {
  source_entity_id : option Z;
  target_entity_id : option Z;
  relationship_type : RelationshipType;
  rel_metadata : gmap string string
}.

(** The tables a session reads and writes. *)
Record Database := {
  repositories : gmap Z Repository;
  files : list File;
  entities : list Entity;
  relationships : list Relationship
}.

End Models.

Export Models.

(** ** A [dict] in insertion order *)

Module Dict.

Fixpoint get {V} (k : string) (d : list (string * V)) : option V :=
  match d with
  | [] => None
  | (k', v) :: d' => if String.eqb k' k then Some v else get k d'
  end.

(** [d[k] = v]: the value is replaced in place, a new key goes last. *)
Fixpoint set {V} (k : string) (v : V) (d : list (string * V)) : list (string * V) :=
  match d with
  | [] => [(k, v)]
  | (k', v') :: d' =>
      if String.eqb k' k then (k', v) :: d' else (k', v') :: set k v d'
  end.

Definition keys {V} (d : list (string * V)) : list string := map fst d.

End Dict.

(** ** relationship_detector.py *)

Module Detector.
Import Re ImportMatch.

(** *** The extraction heuristics *)

Definition keywords : gset string :=
  list_to_set
    ["if"; "for"; "while"; "def"; "class"; "return"; "with"; "try"; "except";
     "elif"; "else"; "switch"; "case"; "do"; "catch"; "finally"; "function";
     "const"; "let"; "var"; "new"; "typeof"; "instanceof"; "delete"; "throw"].

Definition add_all (names : list string) (s : gset string) : gset string :=
  fold_left (fun acc name => {[name]} ∪ acc) names s.

Definition add_non_keywords (names : list string) (calls : gset string)
  : gset string :=
  fold_left
    (fun acc func_name =>
       if bool_decide (func_name ∉ keywords) then {[func_name]} ∪ acc else acc)
    names calls.

Definition _extract_function_calls `{Engine} (code : string) : gset string :=
  let python_pattern := "\b([a-zA-Z_][a-zA-Z0-9_]*)\s*\(" in
  let calls := add_non_keywords (re_finditer python_pattern false code) ∅ in
  let js_pattern := "([a-zA-Z_$][a-zA-Z0-9_$]*)\s*\(" in
  add_non_keywords (re_finditer js_pattern false code) calls.

Definition _extract_class_methods `{Engine} (code : string) : gset string :=
  let python_pattern := "^\s{2,}def\s+([a-zA-Z_][a-zA-Z0-9_]*)" in
  let methods := add_all (re_finditer python_pattern true code) ∅ in
  let js_pattern := "(?:^\s+)([a-zA-Z_$][a-zA-Z0-9_$]*)\s*\(" in
  add_all (re_finditer js_pattern true code) methods.

(** [str.isidentifier] is a method of the interpreter; it is a parameter
    of the class below. *)
Class Identifiers := { isidentifier : string -> bool }.

(** [parent.strip().split('[')[0].strip()] *)
Definition parent_name_of (parent : string) : string :=
  PyStr.strip (hd EmptyString (PyStr.split "[" (PyStr.strip parent))).

Definition add_parents `{Identifiers} (parent_list : string) (parents : gset string)
  : gset string :=
  fold_left
    (fun acc parent =>
       let parent_name := parent_name_of parent in
       if truthy_str parent_name && isidentifier parent_name
       then {[parent_name]} ∪ acc else acc)
    (PyStr.split "," parent_list) parents.

Definition _extract_parent_classes `{Engine} `{Identifiers} (code : string)
  : gset string :=
  let python_pattern := "class\s+\w+\s*\(\s*([^)]+)\s*\)" in
  let parents := fold_left (fun acc parent_list => add_parents parent_list acc)
                   (re_finditer python_pattern false code) ∅ in
  let js_pattern := "class\s+\w+\s+extends\s+([a-zA-Z_$][a-zA-Z0-9_$]*)" in
  add_all (re_finditer js_pattern false code) parents.

Definition _extract_imports `{Engine} (code : string) : gset string :=
  let python_patterns :=
    ["from\s+([a-zA-Z0-9._]+)\s+import"; "import\s+([a-zA-Z0-9._]+)"] in
  let quote := "[" +:+ sq +:+ "\" +:+ dq +:+ "]" in
  let not_quote := "([^" +:+ sq +:+ "\" +:+ dq +:+ "]+)" in
  let js_patterns :=
    ["import\s+.*from\s+" +:+ quote +:+ not_quote +:+ quote;
     "require\s*\(\s*" +:+ quote +:+ not_quote +:+ quote] in
  fold_left (fun acc pattern => add_all (re_finditer pattern false code) acc)
    (python_patterns ++ js_patterns) ∅.

(** *** Relationships between the entities of a repository *)

(** [{entity.name: entity for entity in entities}]: a later entity of the
    same name replaces an earlier one. *)
Definition build_entity_map (entities : list Entity) : gmap string Entity :=
  fold_left (fun m entity => <[entity_name entity := entity]> m) entities ∅.

Definition new_relationship (source : Entity) (target : Entity)
    (kind : RelationshipType) : Relationship :=
  {| source_entity_id := Some (entity_id source);
     target_entity_id := Some (entity_id target);
     relationship_type := kind;
     rel_metadata := ∅ |}.

(** The edges to the names that the map knows; [keep] is the extra test
    of the loop over the called names. *)
Definition edges_to (entity_map : gmap string Entity) (entity : Entity)
    (kind : RelationshipType) (keep : string -> bool) (names : gset string)
  : list Relationship :=
  flat_map
    (fun name =>
       match entity_map !! name with
       | Some target =>
           if keep name then [new_relationship entity target kind] else []
       | None => []
       end)
    (elements names).

(** The body of the loop over the entities. *)
Definition entity_relationships `{Engine} `{Identifiers}
    (entity_map : gmap string Entity) (entity : Entity) : list Relationship :=
  match code_snippet entity with
  | None => []
  | Some code =>
      if negb (truthy_str code) then []
      else
        edges_to entity_map entity CALLS
          (fun called_name => negb (String.eqb called_name (entity_name entity)))
          (_extract_function_calls code)
        ++ (if bool_decide (entity_type entity = CLASS)
            then edges_to entity_map entity CONTAINS (fun _ => true)
                   (_extract_class_methods code)
            else [])
        ++ (if bool_decide (entity_type entity = CLASS)
            then edges_to entity_map entity INHERITS (fun _ => true)
                   (_extract_parent_classes code)
            else [])
  end.

(** The keys of [{file.path: file for file in files}], in the order of
    the dictionary. *)
Definition file_map_keys (files : list File) : list string :=
  Dict.keys (fold_left (fun m file => Dict.set (file_path file) file m) files []).

Definition import_relationship (entity : Entity) (file : File)
    (potential_file_path imported_path : string) : Relationship :=
  {| source_entity_id := Some (entity_id entity);
     target_entity_id := None;
     relationship_type := IMPORTS;
     rel_metadata :=
       <["source_file" := file_path file]>
         (<["target_file" := potential_file_path]>
            (<["import_name" := imported_path]> ∅)) |}.

(** The first file of the map that matches, if any: the loop stops at
    the first match. *)
Definition first_match (imported_path : string) (paths : list string)
  : option string :=
  List.find (fun potential_file_path =>
               _is_import_match imported_path potential_file_path) paths.

Definition entity_imports `{Engine} (paths : list string) (file : File)
    (entity : Entity) : list Relationship :=
  match code_snippet entity with
  | None => []
  | Some code =>
      if negb (truthy_str code) then []
      else
        flat_map
          (fun imported_path =>
             match first_match imported_path paths with
             | Some potential_file_path =>
                 [import_relationship entity file potential_file_path imported_path]
             | None => []
             end)
          (elements (_extract_imports code))
  end.

(** The relationships added by [_detect_imports]; its result is their
    number. *)
Definition _detect_imports `{Engine} (db : Database) (repo_id : Z)
  : list Relationship :=
  let files := List.filter (fun f => bool_decide (file_repo_id f = repo_id)) (files db) in
  let paths := file_map_keys files in
  flat_map
    (fun file =>
       let entities :=
         List.filter (fun e => bool_decide (entity_file_id e = file_id file))
           (entities db) in
       flat_map (entity_imports paths file) entities)
    files.

(** The entities of one repository. *)
Definition repo_entities (db : Database) (repo_id : Z) : list Entity :=
  List.filter (fun e => bool_decide (entity_repo_id e = repo_id)) (entities db).

(** The relationships counted by [relationships_created]. *)
Definition entity_level_relationships `{Engine} `{Identifiers}
    (db : Database) (repo_id : Z) : list Relationship :=
  let entities := repo_entities db repo_id in
  let entity_map := build_entity_map entities in
  flat_map (entity_relationships entity_map) entities.

(** [detect_all_relationships]: the session after the commit, and the
    number returned. *)
Definition detect_all_relationships `{Engine} `{Identifiers}
    (db : Database) (repo_id : Z) : Database * Z :=
  let created := entity_level_relationships db repo_id in
  let imports := _detect_imports db repo_id in
  ({| repositories := repositories db;
      files := files db;
      entities := entities db;
      relationships := relationships db ++ created ++ imports |},
   Z.of_nat (length created)).

(** *** The call graph *)

Record GraphNode := {
  node_id : Z;
  node_name : string;
  node_kind : string;
  in_degree : nat;
  out_degree : nat
}.

Record GraphEdge := {
  edge_source : option Z;
  edge_target : option Z;
  edge_type : string
}.

Record CallGraph := { nodes : list GraphNode; edges : list GraphEdge }.

Definition count_where {A} (p : A -> bool) (l : list A) : nat :=
  length (List.filter p l).

Definition get_call_graph (db : Database) (repo_id : Z) : CallGraph :=
  let relationships :=
    List.filter (fun r => bool_decide (relationship_type r = CALLS))
      (relationships db) in
  let entity_ids : gset (option Z) :=
    fold_left (fun ids rel =>
                 {[target_entity_id rel]} ∪ ({[source_entity_id rel]} ∪ ids))
      relationships ∅ in
  let entities :=
    List.filter (fun e => bool_decide (Some (entity_id e) ∈ entity_ids))
      (entities db) in
  {| nodes :=
       map (fun entity =>
              {| node_id := entity_id entity;
                 node_name := entity_name entity;
                 node_kind := entity_type_value (entity_type entity);
                 in_degree :=
                   count_where
                     (fun r => bool_decide (target_entity_id r = Some (entity_id entity)))
                     relationships;
                 out_degree :=
                   count_where
                     (fun r => bool_decide (source_entity_id r = Some (entity_id entity)))
                     relationships |})
         entities;
     edges :=
       map (fun rel =>
              {| edge_source := source_entity_id rel;
                 edge_target := target_entity_id rel;
                 edge_type := "calls" |})
         relationships |}.

(** *** The dependency matrix *)

Definition zero_row (files : list File) : list (string * nat) :=
  fold_left (fun row other_file => Dict.set (file_path other_file) 0 row) files [].

Definition count_import (matrix : list (string * list (string * nat)))
    (import_rel : Relationship) : list (string * list (string * nat)) :=
  let metadata := rel_metadata import_rel in
  match metadata !! "source_file", metadata !! "target_file" with
  | Some source_file, Some target_file =>
      match Dict.get source_file matrix with
      | Some row =>
          match Dict.get target_file row with
          | Some count =>
              Dict.set source_file (Dict.set target_file (count + 1) row) matrix
          | None => matrix
          end
      | None => matrix
      end
  | _, _ => matrix
  end.

Definition get_dependency_matrix (db : Database) (repo_id : Z)
  : list (string * list (string * nat)) :=
  let files := List.filter (fun f => bool_decide (file_repo_id f = repo_id)) (files db) in
  let matrix :=
    fold_left (fun m file => Dict.set (file_path file) (zero_row files) m) files [] in
  let imports :=
    List.filter (fun r => bool_decide (relationship_type r = IMPORTS))
      (relationships db) in
  fold_left count_import imports matrix.

(** *** Cycles of the dependency matrix *)

(** The variables shared by the calls of [dfs]: the two sets, the path of
    the current root, and the cycles found so far. *)
Record DfsState := {
  visited : gset string;
  rec_stack : gset string;
  path : list string;
  cycles : list (list string)
}.

Definition KeyError (k : string) : Exception := mkException "KeyError" k.
Definition RecursionError : Exception :=
  mkException "RecursionError" "maximum recursion depth exceeded".

(** A loop whose body can raise. *)
Fixpoint for_each {A S} (body : S -> A -> Result S) (l : list A) (s : S)
  : Result S :=
  match l with
  | [] => Ok s
  | a :: l' =>
      match body s a with
      | Ok s' => for_each body l' s'
      | Raise e => Raise e
      end
  end.

(** [path.index(x)] *)
Fixpoint index_of (x : string) (l : list string) : option nat :=
  match l with
  | [] => None
  | y :: l' => if String.eqb y x then Some 0 else option_map S (index_of x l')
  end.

(** The body of [for neighbor, count in dependency_matrix[node].items()];
    [dfs] is the recursive call. *)
Definition visit_neighbor (dfs : string -> DfsState -> Result DfsState)
    (st : DfsState) (item : string * nat) : Result DfsState :=
  let '(neighbor, count) := item in
  if (0 <? count)%nat then
    if bool_decide (neighbor ∉ visited st) then dfs neighbor st
    else if bool_decide (neighbor ∈ rec_stack st) then
      match index_of neighbor (path st) with
      | Some cycle_start =>
          let cycle := skipn cycle_start (path st) ++ [neighbor] in
          if bool_decide (cycle ∉ cycles st)
          then Ok {| visited := visited st; rec_stack := rec_stack st;
                     path := path st; cycles := cycles st ++ [cycle] |}
          else Ok st
      | None => Raise (mkException "ValueError" "x not in list")
      end
    else Ok st
  else Ok st.

(** [dfs(node, path)]. The recursion of the source is bounded here by
    [depth]; running out of it is reported as a RecursionError. *)
Fixpoint dfs (depth : nat) (dependency_matrix : list (string * list (string * nat)))
    (node : string) (st : DfsState) : Result DfsState :=
  match depth with
  | O => Raise RecursionError
  | S depth' =>
      let st1 := {| visited := {[node]} ∪ visited st;
                    rec_stack := {[node]} ∪ rec_stack st;
                    path := path st ++ [node];
                    cycles := cycles st |} in
      match Dict.get node dependency_matrix with
      | None => Raise (KeyError node)
      | Some row =>
          match for_each (visit_neighbor (dfs depth' dependency_matrix)) row st1 with
          | Raise e => Raise e
          | Ok st2 =>
              match path st2 with
              | [] => Raise (mkException "IndexError" "pop from empty list")
              | _ :: _ =>
                  if bool_decide (node ∈ rec_stack st2)
                  then Ok {| visited := visited st2;
                             rec_stack := rec_stack st2 ∖ {[node]};
                             path := removelast (path st2);
                             cycles := cycles st2 |}
                  else Raise (KeyError node)
              end
          end
      end
  end.

Definition dfs_init : DfsState :=
  {| visited := ∅; rec_stack := ∅; path := []; cycles := [] |}.

(** The loop over the keys of the matrix: every node not visited yet is
    the root of a search, with a new empty path. A search never nests
    deeper than the number of nodes. *)
Definition find_cycles (dependency_matrix : list (string * list (string * nat)))
  : Result (list (list string)) :=
  match
    for_each
      (fun st file_path =>
         if bool_decide (file_path ∉ visited st)
         then dfs (S (length dependency_matrix)) dependency_matrix file_path
                {| visited := visited st; rec_stack := rec_stack st;
                   path := []; cycles := cycles st |}
         else Ok st)
      (Dict.keys dependency_matrix) dfs_init
  with
  | Ok st => Ok (cycles st)
  | Raise e => Raise e
  end.

Definition detect_circular_dependencies (db : Database) (repo_id : Z)
  : Result (list (list string)) :=
  find_cycles (get_dependency_matrix db repo_id).

End Detector.

(** ** The vocabulary of the proofs about the cycle search *)

Module CycleSpec.
Import Detector.

Section WithMatrix.
Variable matrix : list (string * list (string * nat)).

(** [matrix[a][b]] *)
Definition entry (a b : string) : option nat :=
  match Dict.get a matrix with
  | Some row => Dict.get b row
  | None => None
  end.

(** The file [x] imports the file [y]: the search follows this edge. *)
Definition edge (x y : string) : Prop :=
  exists row count, Dict.get x matrix = Some row /\ In (y, count) row /\ 0 < count.

(** Every column of every row is a row of the matrix: no lookup of a
    neighbour can fail. *)
Definition closed : Prop :=
  forall k row k' count,
    Dict.get k matrix = Some row -> In (k', count) row ->
    is_Some (Dict.get k' matrix).

Definition key_set : gset string := list_to_set (Dict.keys matrix).

(** The recursion stack holds visited nodes, all of them on the path. *)
Record Inv (st : DfsState) : Prop := {
  inv_stack_visited : rec_stack st ⊆ visited st;
  inv_stack_path : forall x, x ∈ rec_stack st -> In x (path st)
}.

(** A node visited between [st] and [st'] with an edge to a node that was
    on the stack all along has closed a recorded cycle. *)
Definition back_edges (st st' : DfsState) : Prop :=
  forall x y, x ∈ visited st' -> x ∉ visited st -> edge x y -> y ∈ rec_stack st ->
    exists cyc, In cyc (cycles st') /\ In x cyc /\ In y cyc.

(** Two nodes that import each other and were both unvisited in [st]:
    as soon as one is visited, a cycle through both is recorded. *)
Definition mutual (st st' : DfsState) : Prop :=
  forall x y, x <> y -> edge x y -> edge y x ->
    x ∉ visited st -> y ∉ visited st -> x ∈ visited st' ->
    exists cyc, In cyc (cycles st') /\ In x cyc /\ In y cyc.

(** What a call of [dfs], or a part of its loop, does to the state. *)
Record Step (st st' : DfsState) : Prop := {
  step_visited : visited st ⊆ visited st';
  step_stack : rec_stack st' = rec_stack st;
  step_path : path st' = path st;
  step_cycles : forall c, In c (cycles st) -> In c (cycles st');
  step_back : back_edges st st';
  step_mutual : mutual st st'
}.

(** The property of [dfs] at a given depth: from a node not visited yet
    it returns, provided the depth exceeds the number of nodes still to
    visit. *)
Definition dfs_spec (depth : nat) : Prop :=
  forall node st,
    is_Some (Dict.get node matrix) -> node ∉ visited st -> Inv st ->
    size (key_set ∖ visited st) < depth ->
    exists st', dfs depth matrix node st = Ok st'
                /\ Step st st' /\ node ∈ visited st'.

(** Every row has the keys of the matrix. *)
Definition square : Prop :=
  forall k row, In (k, row) matrix -> Dict.keys row = Dict.keys matrix.

End WithMatrix.

End CycleSpec.

(** ** analysis_service.py: the orchestrator *)

Module Analysis.
Import LLM Re Parser Detector.

(** What an observer of one run can see, in order: a commit, with the
    repositories table as it is stored from then on; the log line that
    opens a phase, or says that it is skipped; a call to a collaborator;
    the cleanup of the ingester. *)
Inductive Event :=
| Committed (repos : gmap Z Repository)
| PhaseStarted (n : nat)
| PhaseSkipped (n : nat)
| Called (operation : string)
| CleanedUp.

(** The session of the run (the rows as the run reads and writes them),
    the stored database (what any other reader sees), and the events. *)
Record World := {
  session : Database;
  stored : Database;
  trace : list Event
}.

(** A coroutine of the service: it changes the world and returns or
    raises. *)
Definition M (A : Type) : Type := World -> Result A * World.

Definition ret {A} (a : A) : M A := fun w => (Ok a, w).

Definition raise {A} (e : Exception) : M A := fun w => (Raise e, w).

Definition bind {A B} (m : M A) (k : A -> M B) : M B :=
  fun w =>
    match m w with
    | (Ok a, w') => k a w'
    | (Raise e, w') => (Raise e, w')
    end.

Declare Scope M_scope.
Delimit Scope M_scope with M.
Notation "'let*' x := m 'in' k" := (bind m (fun x => k))
  (at level 10, x name, m at level 100, k at level 200) : M_scope.
Notation "m >> k" := (bind m (fun _ => k))
  (at level 90, right associativity) : M_scope.
Notation "m >>= k" := (bind m k)
  (at level 90, right associativity) : M_scope.
Local Open Scope M_scope.

(** [try: body except Exception as e: handler(e)] *)
Definition try_except {A} (body : M A) (handler : Exception -> M A) : M A :=
  fun w =>
    match body w with
    | (Ok a, w') => (Ok a, w')
    | (Raise e, w') => handler e w'
    end.

(** [try: body finally: final] *)
Definition try_finally {A} (body : M A) (final : M unit) : M A :=
  fun w =>
    match body w with
    | (r, w') =>
        match final w' with
        | (Ok _, w'') => (r, w'')
        | (Raise e, w'') => (Raise e, w'')
        end
    end.

Definition emit (ev : Event) : M unit :=
  fun w => (Ok tt, {| session := session w; stored := stored w;
                      trace := trace w ++ [ev] |}).

Definition read_session : M Database := fun w => (Ok (session w), w).

Definition modify_session (f : Database -> Database) : M unit :=
  fun w => (Ok tt, {| session := f (session w); stored := stored w;
                      trace := trace w |}).

(** [await self.db.commit()]: the session becomes the stored database.
    A commit is taken to succeed. *)
Definition commit : M unit :=
  fun w => (Ok tt, {| session := session w; stored := session w;
                      trace := trace w ++ [Committed (repositories (session w))] |}).

(** A call to a collaborator, whose answer may depend on all that
    happened before. *)
Definition call {A} (operation : string) (oracle : list Event -> Result A) : M A :=
  fun w => (oracle (trace w),
            {| session := session w; stored := stored w;
               trace := trace w ++ [Called operation] |}).

Definition lift {A} (r : Result A) : M A := fun w => (r, w).

Fixpoint mfor {A} (l : list A) (body : A -> M unit) : M unit :=
  match l with
  | [] => ret tt
  | a :: l' => body a >> mfor l' body
  end.

Fixpoint mfold {A S} (l : list A) (body : S -> A -> M S) (s : S) : M S :=
  match l with
  | [] => ret s
  | a :: l' => let* s' := body s a in mfold l' body s'
  end.

(** *** The collaborators *)

(** A dictionary returned by [scan_files]. *)
Record ScannedFile := {
  sf_path : string;
  sf_extension : string;
  sf_size_bytes : Z;
  sf_language : option string
}.

(** A document handed to the vector store. *)
Record Document := {
  snippet_id : string;
  doc_code : string;
  doc_file_path : string;
  doc_entity_name : string;
  doc_entity_type : string;
  doc_repo_id : Z;
  doc_line_range : Z * Z
}.

(** The ingester, the storage engine and the vector store. Each answer
    may depend on the events so far. [read_file_content] catches its own
    errors and returns a text in every case; [execute_fault] tells
    whether a query of the session fails. *)
Class Collaborators := {
  clone_repository : list Event -> string -> Result string;
  scan_files : list Event -> string -> Result (list ScannedFile);
  read_file_content : list Event -> string -> string;
  execute_fault : list Event -> option Exception;
  add_documents_batch : list Event -> Z -> list Document -> Result unit
}.

(** [get_language_breakdown] *)
Definition get_language_breakdown (files : list ScannedFile) : gmap string Z :=
  fold_left
    (fun breakdown file =>
       let lang := match sf_language file with
                   | Some l => if truthy_str l then l else "other"
                   | None => "other"
                   end in
       <[lang := (default 0 (breakdown !! lang) + 1)%Z]> breakdown)
    files ∅.

Section WithCollaborators.
Context `{Collaborators} `{Client} `{Engine} `{TreeSitter} `{Identifiers}.
Variable settings : Settings.

(** [await self.db.execute(select(...))]: the rows, read from the
    session, unless the storage fails. *)
Definition execute {A} (rows : Database -> A) : M A :=
  fun w =>
    let w' := {| session := session w; stored := stored w;
                 trace := trace w ++ [Called "execute"] |} in
    match execute_fault (trace w) with
    | Some e => (Raise e, w')
    | None => (Ok (rows (session w)), w')
    end.

(** *** The repository row *)

Definition set_status (s : AnalysisStatus) (r : Repository) : Repository :=
  {| repo_name := repo_name r; repo_url := repo_url r; status := s;
     status_message := status_message r; file_count := file_count r;
     language_breakdown := language_breakdown r |}.

Definition set_status_message (msg : string) (r : Repository) : Repository :=
  {| repo_name := repo_name r; repo_url := repo_url r; status := status r;
     status_message := Some msg; file_count := file_count r;
     language_breakdown := language_breakdown r |}.

Definition set_file_count (n : Z) (r : Repository) : Repository :=
  {| repo_name := repo_name r; repo_url := repo_url r; status := status r;
     status_message := status_message r; file_count := n;
     language_breakdown := language_breakdown r |}.

Definition set_language_breakdown (b : gmap string Z) (r : Repository) : Repository :=
  {| repo_name := repo_name r; repo_url := repo_url r; status := status r;
     status_message := status_message r; file_count := file_count r;
     language_breakdown := b |}.

Definition with_repositories (f : gmap Z Repository -> gmap Z Repository)
    (db : Database) : Database :=
  {| repositories := f (repositories db); files := files db;
     entities := entities db; relationships := relationships db |}.

(** [await self.db.get(Repository, repo_id)] *)
Definition db_get (repo_id : Z) : M (option Repository) :=
  fun w => (Ok (repositories (session w) !! repo_id), w).

(** An assignment to a field of the repository object. *)
Definition update_repo (repo_id : Z) (f : Repository -> Repository) : M unit :=
  modify_session (with_repositories (alter f repo_id)).

(** [repo = await self.db.get(...)] followed by [repo.status_message = msg]:
    on a missing row the assignment raises. *)
Definition get_repo_and_say (repo_id : Z) (msg : string) : M Repository :=
  let* repo := db_get repo_id in
  match repo with
  | None => raise (AttributeError "'NoneType' object has no attribute 'status_message'")
  | Some r => update_repo repo_id (set_status_message msg) >> ret r
  end.

(** *** Phase 1 *)

Definition next_id (ids : list Z) : Z := (1 + fold_right Z.max 0 ids)%Z.

Definition add_file (repo_id : Z) (info : ScannedFile) : M unit :=
  modify_session
    (fun db =>
       {| repositories := repositories db;
          files := files db ++
            [ {| file_id := next_id (map file_id (files db));
                 file_repo_id := repo_id;
                 file_path := sf_path info;
                 file_extension := Some (sf_extension info);
                 size_bytes := Some (sf_size_bytes info);
                 file_language := sf_language info;
                 line_count := None;
                 file_summary := None |} ];
          entities := entities db;
          relationships := relationships db |}).

Definition _clone_and_scan (repo_id : Z) : M string :=
  let* repo := get_repo_and_say repo_id "Cloning repository..." in
  commit >>
  let* repo_path := call "clone_repository"
                      (fun t => clone_repository t (repo_url repo)) in
  update_repo repo_id (set_status_message "Scanning files...") >>
  commit >>
  let* files := call "scan_files" (fun t => scan_files t repo_path) in
  mfor files (add_file repo_id) >>
  update_repo repo_id (set_file_count (Z.of_nat (length files))) >>
  update_repo repo_id (set_language_breakdown (get_language_breakdown files)) >>
  commit >>
  ret repo_path.

(** *** Phase 2 *)

(** An element of [files_for_summary]; the file record is named by its
    identifier. *)
Record FileForSummary := {
  fs_file_id : Z;
  fs_path : string;
  fs_code : string;
  fs_language : string;
  fs_entities : list CandidateEntity
}.

(** An element of [all_entities_for_explanation]. *)
Record EntityForExplanation := {
  ee_entity_data : CandidateEntity;
  ee_language : string;
  ee_file_id : Z
}.

Definition update_file (id : Z) (f : File -> File) : M unit :=
  modify_session
    (fun db =>
       {| repositories := repositories db;
          files := map (fun file => if bool_decide (file_id file = id)
                                    then f file else file) (files db);
          entities := entities db;
          relationships := relationships db |}).

Definition set_line_count (n : Z) (f : File) : File :=
  {| file_id := file_id f; file_repo_id := file_repo_id f;
     file_path := file_path f; file_extension := file_extension f;
     size_bytes := size_bytes f; file_language := file_language f;
     line_count := Some n; file_summary := file_summary f |}.

Definition set_summary (summary : string) (f : File) : File :=
  {| file_id := file_id f; file_repo_id := file_repo_id f;
     file_path := file_path f; file_extension := file_extension f;
     size_bytes := size_bytes f; file_language := file_language f;
     line_count := line_count f; file_summary := Some summary |}.

(** Phase 2a, one file. *)
Definition collect_file (repo_path : string)
    (acc : list FileForSummary * list EntityForExplanation) (file_record : File)
  : M (list FileForSummary * list EntityForExplanation) :=
  let '(files_for_summary, all_entities) := acc in
  match file_language file_record with
  | None => ret acc
  | Some language =>
      if negb (truthy_str language) then ret acc
      else
        let abs_path := repo_path +:+ "/" +:+ file_path file_record in
        let* content := call "read_file_content"
                          (fun t => Ok (read_file_content t abs_path)) in
        let entities := parse_file content language in
        let* files_for_summary' :=
          if truthy entities
          then
            update_file (file_id file_record)
              (set_line_count (Z.of_nat (length (PyStr.split PyStr.nl content)))) >>
            ret (files_for_summary ++
                   [ {| fs_file_id := file_id file_record;
                        fs_path := file_path file_record;
                        fs_code := content;
                        fs_language := language;
                        fs_entities := entities |} ])
          else ret files_for_summary in
        ret (files_for_summary',
             all_entities ++
               map (fun entity_data =>
                      {| ee_entity_data := entity_data;
                         ee_language := language;
                         ee_file_id := file_id file_record |})
                 entities)
  end.

(** [EntityType(value)] *)
Definition entity_type_of_value (v : string) : Result EntityType :=
  if String.eqb v "function" then Ok FUNCTION
  else if String.eqb v "class" then Ok CLASS
  else if String.eqb v "method" then Ok METHOD
  else if String.eqb v "variable" then Ok VARIABLE
  else if String.eqb v "import" then Ok IMPORT
  else if String.eqb v "module" then Ok MODULE
  else Raise (ValueError (v +:+ " is not a valid EntityType")).

Definition add_entity (repo_id : Z)
    (ie : EntityForExplanation * string) : M unit :=
  let '(e_info, explanation) := ie in
  let entity_data := ee_entity_data e_info in
  let* kind := lift (entity_type_of_value (ce_type entity_data)) in
  modify_session
    (fun db =>
       {| repositories := repositories db;
          files := files db;
          entities := entities db ++
            [ {| entity_id := next_id (map entity_id (entities db));
                 entity_repo_id := repo_id;
                 entity_file_id := ee_file_id e_info;
                 entity_name := ce_name entity_data;
                 entity_type := kind;
                 start_line := ce_start_line entity_data;
                 end_line := ce_end_line entity_data;
                 code_snippet := Some (PyStr.take 2000 (ce_code entity_data));
                 logic_summary := Some explanation |} ];
          relationships := relationships db |}).

Definition _parse_entities (repo_id : Z) (repo_path : string) : M unit :=
  let* repo := get_repo_and_say repo_id "Parsing code structure..." in
  commit >>
  let* files := execute (fun db =>
                  List.filter (fun f => bool_decide (file_repo_id f = repo_id))
                    (Models.files db)) in
  let* collected := mfold files (collect_file repo_path) ([], []) in
  let '(files_for_summary, all_entities) := collected in
  (if truthy files_for_summary
   then
     update_repo repo_id
       (set_status_message
          ("Generating summaries for "
           +:+ PyStr.of_nat (length files_for_summary) +:+ " files...")) >>
     commit >>
     let summary_inputs :=
       map (fun f => {| fi_path := fs_path f; fi_code := fs_code f;
                        fi_language := fs_language f |})
         files_for_summary in
     let* summaries := call "generate_file_summaries_batch"
                         (fun _ => generate_file_summaries_batch summary_inputs) in
     mfor (combine files_for_summary summaries)
       (fun fsum => update_file (fs_file_id (fst fsum)) (set_summary (snd fsum)))
   else ret tt) >>
  (if truthy all_entities
   then
     update_repo repo_id
       (set_status_message
          ("Explaining " +:+ PyStr.of_nat (length all_entities)
           +:+ " code entities...")) >>
     commit >>
     let explanation_inputs :=
       map (fun e => {| fn_name := ce_name (ee_entity_data e);
                        fn_code := PyStr.take 2000 (ce_code (ee_entity_data e));
                        fn_language := ee_language e |})
         all_entities in
     let* explanations := call "explain_functions_batch"
                            (fun _ => explain_functions_batch settings
                                        explanation_inputs) in
     mfor (combine all_entities explanations) (add_entity repo_id)
   else ret tt) >>
  commit.

(** *** Phase 3 *)

(** The detector runs on the rows of the session: its queries may fail
    as any query does; it adds the relationships, commits, and returns
    their number. *)
Definition detect (repo_id : Z) : M Z :=
  execute (fun _ => tt) >>
  (fun w =>
     let detected := detect_all_relationships (session w) repo_id in
     (Ok (snd detected),
      {| session := fst detected; stored := stored w; trace := trace w |})) >>= 
  (fun rel_count => commit >> ret rel_count).

Definition _detect_relationships (repo_id : Z) : M unit :=
  let* repo := get_repo_and_say repo_id "Detecting code relationships..." in
  commit >>
  let* rel_count := detect repo_id in
  update_repo repo_id
    (set_status_message
       ("Detected " +:+ pretty rel_count +:+ " relationships")) >>
  commit.

(** *** Phase 4 *)

Definition document_of (db : Database) (repo_id : Z) (entity : Entity) : Document :=
  let code :=
    match code_snippet entity with
    | Some c => if truthy_str c then c
                else match logic_summary entity with
                     | Some s => s
                     | None => EmptyString
                     end
    | None => match logic_summary entity with
              | Some s => s
              | None => EmptyString
              end
    end in
  {| snippet_id := "entity_" +:+ pretty (entity_id entity);
     doc_code := code;
     doc_file_path :=
       match List.find (fun f => bool_decide (file_id f = entity_file_id entity))
               (files db) with
       | Some f => file_path f
       | None => "unknown"
       end;
     doc_entity_name := entity_name entity;
     doc_entity_type := entity_type_value (entity_type entity);
     doc_repo_id := repo_id;
     doc_line_range := (start_line entity, end_line entity) |}.

Definition _generate_embeddings (repo_id : Z) : M unit :=
  let* repo := get_repo_and_say repo_id "Generating embeddings..." in
  commit >>
  let* documents := execute (fun db =>
                      map (document_of db repo_id) (repo_entities db repo_id)) in
  let batch_size := BATCH_SIZE settings in
  let* starts := lift (range0 (length documents) batch_size) in
  mfor starts
    (fun i => call "add_documents_batch"
                (fun t => add_documents_batch t repo_id
                            (slice documents i (i + batch_size)%Z))) >>
  update_repo repo_id (set_status_message "Embeddings generated") >>
  commit.

(** *** The pipeline *)

(** Phases 1 to 4, each opened by its log line. *)
Definition pipeline (repo_id : Z) : M unit :=
  emit (PhaseStarted 1) >>
  let* repo_path := _clone_and_scan repo_id in
  emit (PhaseStarted 2) >>
  _parse_entities repo_id repo_path >>
  (if ENABLE_RELATIONSHIP_DETECTION settings
   then emit (PhaseStarted 3) >> _detect_relationships repo_id
   else emit (PhaseSkipped 3)) >>
  emit (PhaseStarted 4) >>
  _generate_embeddings repo_id.

(** Phase 5: the status COMPLETED is set and committed. *)
Definition complete (repo_id : Z) : M unit :=
  update_repo repo_id (set_status COMPLETED) >>
  update_repo repo_id (set_status_message "Analysis complete") >>
  commit.

(** The body of the [try] statement. *)
Definition run_phases (repo_id : Z) : M unit :=
  pipeline repo_id >> complete repo_id.

(** The [except Exception as e] clause. *)
Definition on_failure (repo_id : Z) (e : Exception) : M unit :=
  update_repo repo_id (set_status FAILED) >>
  update_repo repo_id (set_status_message ("Analysis failed: " +:+ exc_str e)) >>
  commit >>
  raise e.

(** The [finally] clause: [self.ingester.cleanup()]. *)
Definition cleanup : M unit := emit CleanedUp.

(** The statements before the [try]: the status IN_PROGRESS is set and
    committed. *)
Definition mark_in_progress (repo_id : Z) : M unit :=
  update_repo repo_id (set_status IN_PROGRESS) >>
  update_repo repo_id (set_status_message "Starting analysis...") >>
  commit.

Definition analyze_repository (repo_id : Z) : M unit :=
  let* repo := db_get repo_id in
  match repo with
  | None => raise (ValueError ("Repository " +:+ pretty repo_id +:+ " not found"))
  | Some _ =>
      mark_in_progress repo_id >>
      try_finally
        (try_except (run_phases repo_id) (on_failure repo_id))
        cleanup
  end.

End WithCollaborators.

(** *** What a reader of the stored status sees *)

(** The status of a repository in each commit of a list of events. *)
Fixpoint committed_statuses (repo_id : Z) (events : list Event)
  : list (option AnalysisStatus) :=
  match events with
  | [] => []
  | Committed repos :: rest =>
      (status <$> repos !! repo_id) :: committed_statuses repo_id rest
  | _ :: rest => committed_statuses repo_id rest
  end.

(** A sequence of values without its immediate repetitions. *)
Fixpoint changes {A} `{EqDecision A} (l : list A) : list A :=
  match l with
  | [] => []
  | x :: rest =>
      match rest with
      | [] => [x]
      | y :: _ => if decide (x = y) then changes rest else x :: changes rest
      end
  end.

(** The statuses of all repositories in a database. *)
Definition statuses (db : Database) : gmap Z AnalysisStatus :=
  status <$> repositories db.

(** An event that leaves the stored statuses as they are. *)
Definition quiet (sts : gmap Z AnalysisStatus) (ev : Event) : Prop :=
  match ev with
  | Committed repos => status <$> repos = sts
  | CleanedUp => False
  | _ => True
  end.

(** A coroutine that never assigns a status: the statuses of the session
    are the same when it returns or raises, and every commit it makes
    stores these statuses. *)
Definition preserves_status {A} (m : M A) : Prop :=
  forall w r w',
    m w = (r, w') ->
    statuses (session w') = statuses (session w)
    /\ exists events,
         trace w' = trace w ++ events
         /\ Forall (quiet (statuses (session w))) events.

End Analysis.

(** ** Reading the result of the batch methods *)

Module BatchSpec.

(** What one group contributes to the list a batch method returns: the
    list its task returned, or one placeholder for each of its inputs
    when its task raised. *)
Definition group_output {A} (placeholder : string)
    (result : Result (list string)) (batch : list A) : list string :=
  match result with
  | Ok outputs => outputs
  | Raise _ => repeat placeholder (length batch)
  end.

(** A group of a given size that is not empty and not too long. *)
Definition well_sized {A} (batch_size : Z) (batch : list A) : Prop :=
  (0 < length batch)%nat /\ (Z.of_nat (length batch) <= batch_size)%Z.

End BatchSpec.

(** ** Reading the numbered-list decoder *)

Module DecoderSpec.

(** The line opens an item: it starts with a number in brackets, or with
    a number followed by a dot or a parenthesis and a blank. *)
Definition numbered (line : string) : bool :=
  match LLM.match_numbered line with
  | Some _ => true
  | None => false
  end.

(** The items closed so far, and the one that is open. *)
Definition item_count (st : LLM.ParseState) : nat :=
  length (LLM.items st) + (if truthy (LLM.current_item st) then 1 else 0).

End DecoderSpec.

(** ** Reading the dependency matrix and the cycles *)

Module GraphSpec.
Import Detector CycleSpec.

(** The paths of the files of a repository, in the order of the query. *)
Definition repo_paths (db : Database) (repo_id : Z) : list string :=
  map file_path
    (List.filter (fun f => bool_decide (file_repo_id f = repo_id)) (files db)).

(** The metadata of the relationship names [a] as source file and [b] as
    target file. *)
Definition names_files (a b : string) (r : Relationship) : bool :=
  bool_decide (rel_metadata r !! "source_file" = Some a)
  && bool_decide (rel_metadata r !! "target_file" = Some b).

(** An import relationship from the file [a] to the file [b]. *)
Definition imports_between (a b : string) (r : Relationship) : bool :=
  bool_decide (relationship_type r = IMPORTS) && names_files a b r.

(** Each element of the list is linked to the next one. *)
Fixpoint chain (link : string -> string -> Prop) (l : list string) : Prop :=
  match l with
  | x :: l' =>
      match l' with
      | y :: _ => link x y /\ chain link l'
      | [] => True
      end
  | [] => True
  end.

(** A cycle as the search reports it: a walk along positive entries of
    the matrix that comes back to its first node and visits no node
    twice on the way. *)
Definition simple_cycle (matrix : list (string * list (string * nat)))
    (cycle : list string) : Prop :=
  exists x mid,
    cycle = x :: mid ++ [x]
    /\ NoDup (x :: mid)
    /\ chain (edge matrix) cycle.

(** The state of the search between two steps: the recursion stack and
    the path hold the same nodes, all visited; the path is a walk without
    repetition; the cycles recorded are simple cycles, each recorded
    once. *)
Record Sound (matrix : list (string * list (string * nat))) (st : DfsState)
  : Prop := {
  sound_visited : rec_stack st ⊆ visited st;
  sound_stack : forall x, x ∈ rec_stack st <-> In x (path st);
  sound_nodup : NoDup (path st);
  sound_walk : chain (edge matrix) (path st);
  sound_cycles : Forall (simple_cycle matrix) (cycles st);
  sound_once : NoDup (cycles st)
}.

(** The node can be pushed on the path: the path is empty, or its last
    node has an edge to it. *)
Definition linked (matrix : list (string * list (string * nat)))
    (p : list string) (node : string) : Prop :=
  match last p with
  | Some z => edge matrix z node
  | None => True
  end.

(** What a call of [dfs] that returns has done. *)
Definition dfs_sound (matrix : list (string * list (string * nat)))
    (depth : nat) : Prop :=
  forall node st st',
    dfs depth matrix node st = Ok st' ->
    Sound matrix st -> node ∉ visited st -> linked matrix (path st) node ->
    Sound matrix st' /\ path st' = path st /\ rec_stack st' = rec_stack st
    /\ visited st ⊆ visited st'.

(** The file [a] of the repository imports the file [b] of the
    repository: a stored import relationship names the two. *)
Definition imported_by (db : Database) (repo_id : Z) (a b : string) : Prop :=
  a ∈ repo_paths db repo_id /\ b ∈ repo_paths db repo_id
  /\ exists r, In r (relationships db) /\ imports_between a b r = true.

(** A closed walk along a relation that visits no node twice on the
    way. *)
Definition closed_walk (link : string -> string -> Prop) (cycle : list string)
  : Prop :=
  exists x mid,
    cycle = x :: mid ++ [x] /\ NoDup (x :: mid) /\ chain link cycle.

End GraphSpec.

(** ** Reading the result of the extraction *)

Module ParserSpec.
Import Parser.

(** The two kinds of declaration that the extraction knows. *)
Definition declared_kind (e : CandidateEntity) : Prop :=
  ce_type e = "function" \/ ce_type e = "class".

(** An entity read off one numbered line by the line patterns. *)
Definition of_line (il : Z * string) (e : CandidateEntity) : Prop :=
  ce_start_line e = fst il /\ ce_end_line e = fst il
  /\ ce_code e = PyStr.strip (snd il)
  /\ declared_kind e.

End ParserSpec.

(** ** analysis_service.py: the status report *)

Module Report.
Import Analysis.
Local Open Scope M_scope.

(** [AnalysisStatus.value] *)
Definition status_value (s : AnalysisStatus) : string :=
  match s with
  | PENDING => "pending"
  | IN_PROGRESS => "in_progress"
  | COMPLETED => "completed"
  | FAILED => "failed"
  end.

(** [_calculate_progress]: the percentage, a float of the source. Every
    status is a key of [status_map], so the default of [get] is never
    used. *)
Definition _calculate_progress (repo : Repository) : float :=
  match status repo with
  | PENDING => 0%float
  | IN_PROGRESS => 50%float
  | COMPLETED => 100%float
  | FAILED => 0%float
  end.

(** The dictionary returned by [get_analysis_status]. *)
Record StatusReport := {
  report_id : Z;
  report_status : string;
  report_status_message : option string;
  progress_percent : float
}.

Definition get_analysis_status (repo_id : Z) : M StatusReport :=
  let* repo := db_get repo_id in
  match repo with
  | None => raise (ValueError ("Repository " +:+ pretty repo_id +:+ " not found"))
  | Some r =>
      ret {| report_id := repo_id;
             report_status := status_value (status r);
             report_status_message := status_message r;
             progress_percent := _calculate_progress r |}
  end.

End Report.

(** ** What a run does to the rows *)

Module RunSpec.
Import Analysis.

(** A coroutine whose every change of the session follows [R]. *)
Definition keeps (R : Database -> Database -> Prop) {A} (m : M A) : Prop :=
  forall w r w', m w = (r, w') -> R (session w) (session w').

(** The row of the repository [other] is the same. *)
Definition same_row (other : Z) (db db' : Database) : Prop :=
  repositories db' !! other = repositories db !! other.

(** What identifies a file row: its identifier, its repository and its
    path. *)
Definition file_key (f : File) : Z * Z * string :=
  (file_id f, file_repo_id f, file_path f).

(** Rows are only added: the files are the old ones, in their order and
    with their keys, followed by new ones; the entities and the
    relationships are the old ones followed by new ones. *)
Definition grows (db db' : Database) : Prop :=
  (exists fs, map file_key (files db') = map file_key (files db) ++ fs)
  /\ (exists es, entities db' = entities db ++ es)
  /\ (exists rs, relationships db' = relationships db ++ rs).

Definition same_relationships (db db' : Database) : Prop :=
  relationships db' = relationships db.

(** [file.get('language') or 'other'] *)
Definition language_or_other (file : ScannedFile) : string :=
  match sf_language file with
  | Some l => if truthy_str l then l else "other"
  | None => "other"
  end.

(** A coroutine that returns from every world that satisfies [P], in a
    world that satisfies [Q] with its result. *)
Definition returns {A} (P : World -> Prop) (m : M A) (Q : A -> World -> Prop)
  : Prop :=
  forall w, P w -> exists a w', m w = (Ok a, w') /\ Q a w'.

(** An entity as the second phase stores it. *)
Definition stored_by_parser (repo_id : Z) (e : Entity) : Prop :=
  entity_repo_id e = repo_id
  /\ (entity_type e = FUNCTION \/ entity_type e = CLASS)
  /\ is_Some (code_snippet e)
  /\ is_Some (logic_summary e).

(** The session has the row of the repository, and its entities are
    those of [before] followed by entities of the second phase. *)
Definition parsing (repo_id : Z) (before : list Entity) (w : World) : Prop :=
  is_Some (repositories (session w) !! repo_id)
  /\ exists new, entities (session w) = before ++ new
                 /\ Forall (stored_by_parser repo_id) new.

(** The entities collected by the first loop of the second phase are
    functions and classes. *)
Definition collected (acc : list FileForSummary * list EntityForExplanation)
  : Prop :=
  Forall (fun e => ParserSpec.declared_kind (ee_entity_data e)) (snd acc).

End RunSpec.

(** ** Concrete inputs used by the examples *)

Module Fixtures.

(** A response with three numbered lines, and one with two. *)
Definition three_items : string :=
  "[1] a" +:+ PyStr.nl +:+ "[2] b" +:+ PyStr.nl +:+ "[3] c".

Definition two_items : string :=
  "[1] a" +:+ PyStr.nl +:+ "[2] b".

(** A service that fails on the request of the first task and answers
    every other one with two numbered lines. *)
Definition first_task_fails : LLM.Client :=
  {| LLM.create := fun k _ _ =>
       if Nat.eqb k 0 then Raise (mkException "APIConnectionError" "connection refused")
       else Ok two_items |}.

Definition python_function (name : string) : LLM.FunctionInput :=
  {| LLM.fn_name := name;
     LLM.fn_code := "def " +:+ name +:+ "(): pass";
     LLM.fn_language := "python" |}.

Definition seven_functions : list LLM.FunctionInput :=
  map python_function ["f1"; "f2"; "f3"; "f4"; "f5"; "f6"; "f7"].

(** Two repositories in one database: [helper] and [main] belong to
    repository 1, [render] and [paint] to repository 2; each repository
    has one call. *)
Definition function_entity (id repo file : Z) (name code : string) : Entity :=
  {| entity_id := id; entity_repo_id := repo; entity_file_id := file;
     entity_name := name; entity_type := FUNCTION;
     start_line := 1; end_line := 1;
     code_snippet := Some code; logic_summary := None |}.

Definition call (source target : Z) : Relationship :=
  {| source_entity_id := Some source; target_entity_id := Some target;
     relationship_type := CALLS; rel_metadata := ∅ |}.

Definition two_repositories : Database :=
  {| repositories := ∅;
     files := [];
     entities :=
       [function_entity 1 1 1 "helper" "def helper(): pass";
        function_entity 2 1 1 "main" "def main(): helper()";
        function_entity 3 2 2 "render" "def render(): paint()";
        function_entity 4 2 2 "paint" "def paint(): pass"];
     relationships := [call 2 1; call 3 4] |}.

(** An engine that knows the one call of [main] and finds nothing
    elsewhere, for running the detector on [two_repositories]. *)
Definition main_calls_helper : Re.Engine :=
  {| Re.re_match := fun _ _ => None;
     Re.re_search := fun _ _ => None;
     Re.re_finditer := fun _ _ code =>
       if String.eqb code "def main(): helper()" then ["main"; "helper"] else [] |}.

(** An interpreter without any grammar-based parser. *)
Definition no_grammar : Parser.TreeSitter :=
  {| Parser.tree_sitter_ok := false;
     Parser.parsers := ∅;
     Parser.parse := fun _ _ => Raise (mkException "RuntimeError" "no parser") |}.

Definition ascii_identifiers : Detector.Identifiers :=
  {| Detector.isidentifier := fun s => truthy_str s |}.

(** Two files that import each other, and a file on its own. *)
Definition mutual_imports : list (string * list (string * nat)) :=
  [("a.py", [("a.py", 0); ("b.py", 2); ("c.py", 0)]);
   ("b.py", [("a.py", 1); ("b.py", 0); ("c.py", 0)]);
   ("c.py", [("a.py", 0); ("b.py", 0); ("c.py", 0)])].

(** The same situation as rows of the database: three files of
    repository 1, and the import relationships recorded for them. *)
Definition source_file (id : Z) (path : string) : File :=
  {| file_id := id; file_repo_id := 1; file_path := path;
     file_extension := Some ".py"; size_bytes := Some 120%Z;
     file_language := Some "python"; line_count := None; file_summary := None |}.

Definition import_edge (source : Z) (source_path target_path name : string)
  : Relationship :=
  {| source_entity_id := Some source; target_entity_id := None;
     relationship_type := IMPORTS;
     rel_metadata :=
       <["source_file" := source_path]>
         (<["target_file" := target_path]> (<["import_name" := name]> ∅)) |}.

Definition mutual_import_db : Database :=
  {| repositories := ∅;
     files := [source_file 1 "c.py"; source_file 2 "a.py"; source_file 3 "b.py"];
     entities := [];
     relationships :=
       [import_edge 10 "a.py" "b.py" "b"; import_edge 11 "b.py" "a.py" "a";
        import_edge 10 "a.py" "b.py" "b.helpers"] |}.

Definition no_imports : list (string * list (string * nat)) :=
  [("a.py", [("a.py", 0); ("b.py", 0)]);
   ("b.py", [("a.py", 0); ("b.py", 0)])].

(** One repository waiting for its analysis, in a session that has just
    been opened. *)
Definition pending_repo : Repository :=
  {| repo_name := "demo"; repo_url := "https://github.com/acme/demo";
     status := PENDING; status_message := Some "Queued for analysis";
     file_count := 0; language_breakdown := ∅ |}.

Definition one_pending : Database :=
  {| repositories := {[ 1%Z := pending_repo ]};
     files := []; entities := []; relationships := [] |}.

Definition fresh_session : Analysis.World :=
  {| Analysis.session := one_pending; Analysis.stored := one_pending;
     Analysis.trace := [] |}.

Definition network_down : Exception :=
  mkException "Exception" "Failed to clone repository: network down".

(** An ingester that cannot clone. *)
Definition clone_fails : Analysis.Collaborators :=
  {| Analysis.clone_repository := fun _ _ => Raise network_down;
     Analysis.scan_files := fun _ _ => Ok [];
     Analysis.read_file_content := fun _ _ => EmptyString;
     Analysis.execute_fault := fun _ => None;
     Analysis.add_documents_batch := fun _ _ _ => Ok tt |}.

(** An ingester that clones a repository without source files. *)
Definition empty_checkout : Analysis.Collaborators :=
  {| Analysis.clone_repository := fun _ _ => Ok "/tmp/codearch_demo";
     Analysis.scan_files := fun _ _ => Ok [];
     Analysis.read_file_content := fun _ _ => EmptyString;
     Analysis.execute_fault := fun _ => None;
     Analysis.add_documents_batch := fun _ _ _ => Ok tt |}.

(** Settings with a group size of zero. *)
Definition zero_batch_settings : Settings :=
  {| LLM_BATCH_SIZE := 0; LLM_MAX_CONCURRENT := 2;
     ENABLE_RELATIONSHIP_DETECTION := true; BATCH_SIZE := 10 |}.

(** A repository of two files: [main.py] holds a function that imports
    the module of the other file. *)
Definition importing_db : Database :=
  {| repositories := ∅;
     files := [source_file 1 "pkg/util.py"; source_file 2 "main.py"];
     entities :=
       [function_entity 7 1 2 "main" "import pkg.util"];
     relationships := [] |}.

(** An engine that finds the one import of that function and nothing
    else. *)
Definition finds_import : Re.Engine :=
  {| Re.re_match := fun _ _ => None;
     Re.re_search := fun _ _ => None;
     Re.re_finditer := fun _ _ code =>
       if String.eqb code "import pkg.util" then ["pkg.util"] else [] |}.

(** A session with two repositories waiting for their analysis. *)
Definition two_pending : Analysis.World :=
  {| Analysis.session :=
       {| repositories := {[ 1%Z := pending_repo; 2%Z := pending_repo ]};
          files := []; entities := []; relationships := [] |};
     Analysis.stored :=
       {| repositories := {[ 1%Z := pending_repo; 2%Z := pending_repo ]};
          files := []; entities := []; relationships := [] |};
     Analysis.trace := [] |}.

(** The default settings without the detection of relationships. *)
Definition no_detection : Settings :=
  {| LLM_BATCH_SIZE := 5; LLM_MAX_CONCURRENT := 2;
     ENABLE_RELATIONSHIP_DETECTION := false; BATCH_SIZE := 10 |}.

(** An ingester that clones a repository of two files, one of them
    without a known language. *)
Definition two_file_checkout : Analysis.Collaborators :=
  {| Analysis.clone_repository := fun _ _ => Ok "/tmp/codearch_demo";
     Analysis.scan_files := fun _ _ =>
       Ok [ {| Analysis.sf_path := "app.py"; Analysis.sf_extension := ".py";
               Analysis.sf_size_bytes := 120%Z;
               Analysis.sf_language := Some "python" |};
            {| Analysis.sf_path := "LICENSE"; Analysis.sf_extension := EmptyString;
               Analysis.sf_size_bytes := 1070%Z;
               Analysis.sf_language := None |} ];
     Analysis.read_file_content := fun _ _ => EmptyString;
     Analysis.execute_fault := fun _ => None;
     Analysis.add_documents_batch := fun _ _ _ => Ok tt |}.

(** A session in which the first two phases have run: the repository
    row, and the entities of [two_repositories]. *)
Definition parsed_session : Analysis.World :=
  let db := {| repositories := {[ 1%Z := pending_repo ]};
               files := [source_file 1 "app.py"];
               entities := entities two_repositories;
               relationships := [] |} in
  {| Analysis.session := db; Analysis.stored := db; Analysis.trace := [] |}.

(** An ingester whose files all hold one function. *)
Definition reads_helper : Analysis.Collaborators :=
  {| Analysis.clone_repository := fun _ _ => Ok "/tmp/codearch_demo";
     Analysis.scan_files := fun _ _ => Ok [];
     Analysis.read_file_content := fun _ _ => "def helper(): pass";
     Analysis.execute_fault := fun _ => None;
     Analysis.add_documents_batch := fun _ _ _ => Ok tt |}.

(** An engine that finds the declaration of that function. *)
Definition finds_def : Re.Engine :=
  {| Re.re_match := fun pattern line =>
       if String.eqb pattern Parser.def_pattern
          && String.eqb line "def helper(): pass"
       then Some "helper" else None;
     Re.re_search := fun _ _ => None;
     Re.re_finditer := fun _ _ _ => [] |}.

End Fixtures.

(** * Theorems *)

(** ** Import matching *)

Section ImportMatchFacts.
Import ImportMatch.

Lemma append_String (x : ascii) (a b : string) :
  String x a +:+ b = String x (a +:+ b).
Proof. reflexivity. Qed.

Lemma append_assoc (a b c : string) : a +:+ b +:+ c = (a +:+ b) +:+ c.
Proof.
  induction a as [|x a IH]; [reflexivity |].
  rewrite !append_String. now f_equal.
Qed.

Lemma prefix_iff_app (p s : string) :
  String.prefix p s = true <-> exists rest, s = p +:+ rest.
Proof.
  revert p; induction s as [|c s IH]; intros [|a p]; simpl.
  - split; [exists EmptyString; reflexivity | reflexivity].
  - split; [discriminate | intros [r Hr]; rewrite append_String in Hr; discriminate].
  - split; [exists (String c s); reflexivity | reflexivity].
  - destruct (ascii_dec a c) as [->|Hne].
    + rewrite IH. split; intros [r Hr]; exists r.
      * rewrite append_String. now rewrite Hr.
      * rewrite append_String in Hr. now inversion Hr.
    + split; [discriminate |].
      intros [r Hr]. rewrite append_String in Hr. injection Hr as Hc _.
      congruence.
Qed.

(** The examples of the docstring and of the test suite. *)
Example import_match_module_file :
  _is_import_match "utils.helpers" "utils/helpers.py" = true.
Proof. reflexivity. Qed.

Example import_match_not_a_prefix :
  _is_import_match "utils" "helpers/utils.py" = false.
Proof. reflexivity. Qed.

Example import_match_package_init :
  _is_import_match "models" "models/__init__.py" = true.
Proof. reflexivity. Qed.

Example import_match_index_file :
  _is_import_match "./models" "models/index.js" = true.
Proof. reflexivity. Qed.

Example import_match_child_file :
  _is_import_match "utils" "utils/helpers.js" = true.
Proof. reflexivity. Qed.

(** An index file is not collapsed by the normalisation: it matches
    through the directory prefix. *)
Example file_base_keeps_index : file_base "models/index.js" = "models/index".
Proof. reflexivity. Qed.



End ImportMatchFacts.

(** ** The numbered-list decoder *)

Section NumberedListFacts.
Import LLM Fixtures.

Lemma slice_to_firstn {A} (l : list A) (hi : Z) :
  (0 <= hi)%Z -> slice_to l hi = firstn (Z.to_nat hi) l.
Proof.
  intros Hhi. unfold slice_to, slice, clip_index.
  destruct (Z.ltb_spec hi 0) as [Hneg|_]; [lia |].
  simpl. rewrite Nat.sub_0_r, drop_0.
  destruct (Nat.min_spec (Z.to_nat hi) (length l)) as [[Hlt ->]|[Hge ->]].
  - reflexivity.
  - rewrite firstn_all. symmetry. apply firstn_all2. lia.
Qed.

Lemma slice_to_length {A} (l : list A) (hi : Z) :
  (0 <= hi <= Z.of_nat (length l))%Z -> length (slice_to l hi) = Z.to_nat hi.
Proof.
  intros [H0 Hle]. rewrite slice_to_firstn by assumption.
  rewrite length_firstn. lia.
Qed.

Lemma pad_items_length (l : list string) (n : Z) :
  (Z.of_nat (length l) <= n)%Z -> length (pad_items l n) = Z.to_nat n.
Proof.
  intros Hle. unfold pad_items. rewrite length_app, repeat_length. lia.
Qed.

Lemma parse_numbered_list_length (response : string) (n : Z) :
  (0 <= n)%Z -> Z.of_nat (length (_parse_numbered_list response n)) = n.
Proof.
  intros Hn. unfold _parse_numbered_list.
  destruct (Z.eqb_spec (Z.of_nat (length (numbered_items response))) n)
    as [Heq|Hne]; [exact Heq |].
  destruct (Z.ltb_spec n (Z.of_nat (length (numbered_items response))))
    as [Hlt|Hge].
  - rewrite slice_to_length; lia.
  - destruct (Z.ltb_spec (Z.of_nat (length (numbered_items response))) n)
      as [Hlt|Hge']; [| lia].
    destruct (Z.leb_spec n (Z.of_nat (length (paragraphs response))))
      as [Hle|Hgt]; simpl.
    + rewrite slice_to_length; lia.
    + rewrite pad_items_length; lia.
Qed.

(** The three forms of the docstring are read, and lines without a number
    continue the current item. *)
Example parse_mixed_prefixes :
  _parse_numbered_list
    ("1. first" +:+ PyStr.nl +:+ "   goes on" +:+ PyStr.nl +:+ "2) second"
     +:+ PyStr.nl +:+ "[3] third") 3
  = ["first goes on"; "second"; "third"].
Proof. reflexivity. Qed.

(** More items than expected: the first ones are kept. *)
Example parse_truncates : _parse_numbered_list three_items 2 = ["a"; "b"].
Proof. reflexivity. Qed.

(** Too few numbered items, but enough paragraphs: the paragraphs win. *)
Example parse_paragraph_fallback :
  _parse_numbered_list
    ("[1] a" +:+ PyStr.nl +:+ PyStr.nl +:+ "second part") 2
  = ["[1] a"; "second part"].
Proof. reflexivity. Qed.



(** A negative count is not a length: the slice then drops items from
    the end, as Python's [items[:-1]] does. *)
Example parse_negative_count :
  _parse_numbered_list three_items (-1) = ["a"; "b"].
Proof. reflexivity. Qed.

End NumberedListFacts.

(** ** Batched explanations *)

Section BatchFacts.
Import LLM.
Context `{Client}.

Lemma explain_batch_raise (k : nat) (batch : list FunctionInput) (e : Exception) :
  create k explain_system_prompt (explain_user_prompt batch) = Raise e ->
  exists e', _explain_functions_batch k batch = Raise e'.
Proof.
  intros Hc. unfold _explain_functions_batch, _call_llm. rewrite Hc.
  eexists. reflexivity.
Qed.

Lemma explain_batch_ok (k : nat) (batch : list FunctionInput) (response : string) :
  create k explain_system_prompt (explain_user_prompt batch) = Ok response ->
  _explain_functions_batch k batch
  = Ok (_parse_numbered_list response (Z.of_nat (length batch))).
Proof.
  intros Hc. unfold _explain_functions_batch, _call_llm. rewrite Hc.
  reflexivity.
Qed.

(** Seven inputs in groups of five: the tasks and the slices of the
    collecting loop. *)
Lemma batches_5_of_7 (f1 f2 f3 f4 f5 f6 f7 : FunctionInput) :
  batches 5 [f1; f2; f3; f4; f5; f6; f7]
  = Ok [[f1; f2; f3; f4; f5]; [f6; f7]].
Proof. reflexivity. Qed.


End BatchFacts.


(** ** Structural extraction *)

Section ParserFacts.
Import Re Parser.
Context `{Engine} `{TreeSitter}.

(** C9: for every text and every language outside the allow-list, the
    extraction returns the empty list; it returns a list in every case,
    an error of the grammar-based parser being caught inside. *)
Theorem parse_file_unsupported_language (content language : string) :
  language ∉ ["python"; "javascript"; "typescript"] ->
  parse_file content language = [].
Proof.
  intros Hout. unfold parse_file, supported_languages.
  rewrite bool_decide_eq_false_2 by exact Hout. reflexivity.
Qed.

(** A failure of the grammar-based parser on a supported language falls
    back on the line patterns. *)
Lemma parse_file_falls_back (content language : string) (e : Exception) :
  language ∈ supported_languages ->
  parse language content = Raise e ->
  parse_file content language = _fallback_extract content language.
Proof.
  intros Hin He. unfold parse_file.
  rewrite bool_decide_eq_true_2 by assumption. simpl.
  rewrite He. destruct (tree_sitter_ok && bool_decide (language ∈ parsers));
    reflexivity.
Qed.

End ParserFacts.

Lemma parse_file_unsupported_language_witness :
  @Parser.parse_file Fixtures.main_calls_helper Fixtures.no_grammar
    "fn main() { helper(); }" "rust" = [].
Proof.
  apply (@parse_file_unsupported_language Fixtures.main_calls_helper
           Fixtures.no_grammar).
  vm_compute. intros Hin. inversion Hin as [| ? ? ? Hin2]; subst.
  inversion Hin2 as [| ? ? ? Hin3]; subst.
  inversion Hin3 as [| ? ? ? Hin4]; subst.
  inversion Hin4.
Defined.

(** ** Relationship detection *)

Section DetectorFacts.
Import Re Detector.
Context `{Engine} `{Identifiers}.

(** Every value of the name map is one of the entities it was built from. *)
Lemma build_entity_map_from (entities : list Entity) (name : string) (e : Entity) :
  build_entity_map entities !! name = Some e -> In e entities.
Proof.
  unfold build_entity_map.
  assert (forall (l : list Entity) (m : gmap string Entity),
             fold_left (fun m entity => <[entity_name entity := entity]> m) l m
               !! name = Some e ->
             m !! name = Some e \/ In e l) as Hgen.
  { induction l as [|x l IH]; intros m Hm; simpl in *.
    - left; exact Hm.
    - destruct (IH _ Hm) as [Hins | Hin]; [| right; right; exact Hin].
      destruct (decide (entity_name x = name)) as [Heq | Hne].
      + rewrite <- Heq, lookup_insert_eq in Hins.
        right; left. congruence.
      + rewrite lookup_insert_ne in Hins by exact Hne. left; exact Hins. }
  intros Hm. destruct (Hgen _ _ Hm) as [Hempty | Hin]; [| exact Hin].
  rewrite lookup_empty in Hempty. discriminate.
Qed.

Lemma edges_to_inv (entity_map : gmap string Entity) (entity : Entity)
    (kind : RelationshipType) (keep : string -> bool) (names : gset string)
    (rel : Relationship) :
  In rel (edges_to entity_map entity kind keep names) ->
  exists name target,
    entity_map !! name = Some target
    /\ rel = new_relationship entity target kind.
Proof.
  unfold edges_to. rewrite in_flat_map. intros (name & _ & Hrel).
  destruct (entity_map !! name) as [target|] eqn:Hm; [| destruct Hrel].
  destruct (keep name); [| destruct Hrel].
  destruct Hrel as [<- | []]. exists name, target. split; [exact Hm | reflexivity].
Qed.

(** What one entity contributes: edges that start at it and end at a
    value of the name map. *)
Lemma entity_relationships_inv (entity_map : gmap string Entity) (entity : Entity)
    (rel : Relationship) :
  In rel (entity_relationships entity_map entity) ->
  exists name target kind,
    entity_map !! name = Some target
    /\ rel = new_relationship entity target kind
    /\ (kind = CALLS \/ kind = CONTAINS \/ kind = INHERITS).
Proof.
  unfold entity_relationships.
  destruct (code_snippet entity) as [code|]; [| intros []].
  destruct (negb (truthy_str code)); [intros [] |].
  rewrite !in_app_iff. intros [Hc | [Hc | Hc]].
  - apply edges_to_inv in Hc as (name & target & Hm & ->).
    exists name, target, CALLS. auto.
  - destruct (bool_decide (entity_type entity = CLASS)); [| destruct Hc].
    apply edges_to_inv in Hc as (name & target & Hm & ->).
    exists name, target, CONTAINS. auto.
  - destruct (bool_decide (entity_type entity = CLASS)); [| destruct Hc].
    apply edges_to_inv in Hc as (name & target & Hm & ->).
    exists name, target, INHERITS. auto.
Qed.

Lemma repo_entities_inv (db : Database) (repo_id : Z) (e : Entity) :
  In e (repo_entities db repo_id) <->
  In e (entities db) /\ entity_repo_id e = repo_id.
Proof.
  unfold repo_entities. rewrite filter_In, bool_decide_eq_true. reflexivity.
Qed.

(** The relationships of the import step carry no target entity. *)
Lemma detect_imports_no_target (db : Database) (repo_id : Z) (rel : Relationship) :
  In rel (_detect_imports db repo_id) ->
  target_entity_id rel = None /\ relationship_type rel = IMPORTS.
Proof.
  unfold _detect_imports. rewrite in_flat_map. intros (file & _ & Hrel).
  rewrite in_flat_map in Hrel. destruct Hrel as (entity & _ & Hrel).
  unfold entity_imports in Hrel.
  destruct (code_snippet entity) as [code|]; [| destruct Hrel].
  destruct (negb (truthy_str code)); [destruct Hrel |].
  rewrite in_flat_map in Hrel. destruct Hrel as (imported & _ & Hrel).
  destruct (first_match imported _); [| destruct Hrel].
  destruct Hrel as [<- | []]. split; reflexivity.
Qed.

(** The session after the detection holds the old relationships, then
    the created ones. *)
Lemma detect_all_relationships_appends (db : Database) (repo_id : Z) :
  relationships (fst (detect_all_relationships db repo_id))
  = relationships db ++ entity_level_relationships db repo_id
      ++ _detect_imports db repo_id.
Proof. reflexivity. Qed.

(** C7: every relationship that the detection creates and that has a
    target entity is a calls, contains or inherits edge whose source and
    target are both entities of the analysed repository. *)
Theorem relationship_target_in_repository
    (db : Database) (repo_id : Z) (rel : Relationship) (target_id : Z) :
  In rel (entity_level_relationships db repo_id ++ _detect_imports db repo_id) ->
  target_entity_id rel = Some target_id ->
  exists source target,
    In source (entities db) /\ In target (entities db)
    /\ entity_repo_id source = repo_id /\ entity_repo_id target = repo_id
    /\ source_entity_id rel = Some (entity_id source)
    /\ entity_id target = target_id
    /\ (relationship_type rel = CALLS \/ relationship_type rel = CONTAINS
        \/ relationship_type rel = INHERITS).
Proof.
  intros Hin Htarget. apply in_app_iff in Hin as [Hin | Hin].
  - unfold entity_level_relationships in Hin.
    apply in_flat_map in Hin as (source & Hsource & Hrel).
    apply entity_relationships_inv in Hrel as (name & target & kind & Hm & -> & Hkind).
    apply build_entity_map_from in Hm.
    apply repo_entities_inv in Hsource as [Hs1 Hs2].
    apply repo_entities_inv in Hm as [Ht1 Ht2].
    exists source, target. simpl in Htarget.
    split; [exact Hs1 |]. split; [exact Ht1 |]. split; [exact Hs2 |].
    split; [exact Ht2 |]. split; [reflexivity |].
    split; [congruence | exact Hkind].
  - apply detect_imports_no_target in Hin as [Hnone _]. congruence.
Qed.

End DetectorFacts.

Lemma relationship_target_in_repository_witness :
  exists source target,
    In source (entities Fixtures.two_repositories)
    /\ In target (entities Fixtures.two_repositories)
    /\ entity_repo_id source = 1%Z /\ entity_repo_id target = 1%Z
    /\ entity_id source = 2%Z /\ entity_id target = 1%Z.
Proof.
  destruct (@relationship_target_in_repository
              Fixtures.main_calls_helper Fixtures.ascii_identifiers
              Fixtures.two_repositories 1%Z (Fixtures.call 2 1) 1%Z)
    as (source & target & Hs & Ht & Hrs & Hrt & Hsrc & Htid & _).
  - vm_compute. left. reflexivity.
  - reflexivity.
  - exists source, target. simpl in Hsrc. repeat split; try assumption.
    congruence.
Defined.

(** ** The call graph *)

Section CallGraphFacts.
Import Detector.

Lemma calls_of (db : Database) (rel : Relationship) :
  In rel (List.filter (fun r => bool_decide (relationship_type r = CALLS))
            (relationships db))
  <-> In rel (relationships db) /\ relationship_type rel = CALLS.
Proof. rewrite filter_In, bool_decide_eq_true. reflexivity. Qed.

(** The identifiers collected from a list of relationships. *)
Lemma entity_ids_spec (rels : list Relationship) (ids0 : gset (option Z))
    (x : option Z) :
  x ∈ fold_left (fun ids rel =>
                   {[target_entity_id rel]} ∪ ({[source_entity_id rel]} ∪ ids))
        rels ids0
  <-> x ∈ ids0
      \/ exists rel, In rel rels
                     /\ (source_entity_id rel = x \/ target_entity_id rel = x).
Proof.
  revert ids0. induction rels as [|r rels IH]; intros ids0; simpl.
  - split; [auto | intros [Hx | (rel & [] & _)]; exact Hx].
  - rewrite IH, !elem_of_union, !elem_of_singleton. split.
    + intros [[Ht | [Hs | Hx]] | (rel & Hrel & Hx)].
      * right. exists r. auto.
      * right. exists r. auto.
      * left. exact Hx.
      * right. exists rel. auto.
    + intros [Hx | (rel & [<- | Hrel] & [Hs | Ht])]; eauto 6.
Qed.

(** C8: the call graph does not depend on the repository asked for; it
    has one edge for every stored calls relationship, whatever its
    repository, and one node for every stored entity at either end of
    such a relationship. *)
Theorem get_call_graph_ignores_repository (db : Database) :
  (forall repo_id other_id : Z,
      get_call_graph db repo_id = get_call_graph db other_id)
  /\ (forall (repo_id : Z) (rel : Relationship),
        In rel (relationships db) ->
        relationship_type rel = CALLS ->
        In {| edge_source := source_entity_id rel;
              edge_target := target_entity_id rel;
              edge_type := "calls" |}
           (edges (get_call_graph db repo_id)))
  /\ (forall (repo_id : Z) (rel : Relationship) (e : Entity),
        In rel (relationships db) ->
        relationship_type rel = CALLS ->
        In e (entities db) ->
        source_entity_id rel = Some (entity_id e)
        \/ target_entity_id rel = Some (entity_id e) ->
        exists n, In n (nodes (get_call_graph db repo_id))
                  /\ node_id n = entity_id e /\ node_name n = entity_name e).
Proof.
  split; [reflexivity | split].
  - intros repo_id rel Hin Hcalls. unfold get_call_graph; simpl.
    apply in_map_iff. exists rel. split; [reflexivity |].
    apply calls_of. auto.
  - intros repo_id rel e Hin Hcalls He Hend. unfold get_call_graph; simpl.
    eexists. split.
    + apply in_map_iff. exists e. split; [reflexivity |].
      apply filter_In. split; [exact He |].
      apply bool_decide_eq_true, entity_ids_spec. right. exists rel.
      split; [apply calls_of; auto | exact Hend].
    + split; reflexivity.
Qed.

End CallGraphFacts.

(** Asked for repository 1, the graph of [two_repositories] also holds
    the call and the two entities of repository 2. *)
Lemma get_call_graph_ignores_repository_witness :
  In {| Detector.edge_source := Some 3%Z; Detector.edge_target := Some 4%Z;
        Detector.edge_type := "calls" |}
     (Detector.edges (Detector.get_call_graph Fixtures.two_repositories 1))
  /\ exists n, In n (Detector.nodes (Detector.get_call_graph Fixtures.two_repositories 1))
               /\ Detector.node_id n = 4%Z /\ Detector.node_name n = "paint".
Proof.
  destruct (get_call_graph_ignores_repository Fixtures.two_repositories)
    as (_ & Hedges & Hnodes).
  split.
  - apply (Hedges 1%Z (Fixtures.call 3 4)); [vm_compute; auto | reflexivity].
  - apply (Hnodes 1%Z (Fixtures.call 3 4)
             (Fixtures.function_entity 4 2 2 "paint" "def paint(): pass"));
      [vm_compute; auto | reflexivity | vm_compute; auto 6 | right; reflexivity].
Defined.

(** ** Cycle detection *)

Section DictFacts.
Context {V : Type}.
Implicit Types (d : list (string * V)) (k : string) (v : V).

Lemma dict_get_Some_In d k v : Dict.get k d = Some v -> In (k, v) d.
Proof.
  induction d as [|[k' v'] d IH]; simpl; [discriminate |].
  destruct (String.eqb_spec k' k) as [->|Hne].
  - intros [= ->]. left; reflexivity.
  - intros Hg. right. apply IH, Hg.
Qed.

Lemma dict_get_is_Some d k : In k (Dict.keys d) <-> is_Some (Dict.get k d).
Proof.
  induction d as [|[k' v'] d IH]; simpl.
  - split; [intros [] | intros [v Hv]; discriminate].
  - destruct (String.eqb_spec k' k) as [->|Hne].
    + split; [intros _; eexists; reflexivity | intros _; left; reflexivity].
    + rewrite <- IH. split; [intros [Heq | Hin]; [contradiction | exact Hin] | auto].
Qed.

Lemma dict_In_keys d k v : In (k, v) d -> In k (Dict.keys d).
Proof. intros Hin. apply in_map_iff. exists (k, v). auto. Qed.

End DictFacts.

Section NoImports.
Import Detector.
Implicit Types (matrix : list (string * list (string * nat))) (st : DfsState).

(** A row without a positive count leaves the state of the search as it is. *)
Lemma for_each_zero_row (f : string -> DfsState -> Result DfsState)
    (row : list (string * nat)) st :
  (forall k c, In (k, c) row -> c = 0) ->
  for_each (visit_neighbor f) row st = Ok st.
Proof.
  induction row as [|[k c] row IH]; intros Hz; simpl; [reflexivity |].
  rewrite (Hz k c) by (left; reflexivity). simpl.
  apply IH. intros k' c' Hin. apply (Hz k' c'). right; exact Hin.
Qed.

Lemma dfs_zero_row (depth : nat) matrix (node : string) (row : list (string * nat)) st :
  Dict.get node matrix = Some row ->
  (forall k c, In (k, c) row -> c = 0) ->
  exists st', dfs (S depth) matrix node st = Ok st' /\ cycles st' = cycles st.
Proof.
  intros Hget Hz. simpl. rewrite Hget, for_each_zero_row by exact Hz. simpl.
  destruct (path st ++ [node]) as [|p ps] eqn:Hp.
  - destruct (path st); discriminate Hp.
  - rewrite bool_decide_eq_true_2 by set_solver.
    eexists. split; reflexivity.
Qed.

(** C10: on a dependency matrix whose entries are all zero, the cycle
    detection returns the empty list. *)
Theorem find_cycles_zero_matrix matrix :
  (forall file row other count,
      In (file, row) matrix -> In (other, count) row -> count = 0) ->
  find_cycles matrix = Ok [].
Proof.
  intros Hz. unfold find_cycles.
  assert (forall (l : list string) st,
             (forall k, In k l -> In k (Dict.keys matrix)) ->
             exists st',
               for_each
                 (fun st file_path =>
                    if bool_decide (file_path ∉ visited st)
                    then dfs (S (length matrix)) matrix file_path
                           {| visited := visited st; rec_stack := rec_stack st;
                              path := []; cycles := cycles st |}
                    else Ok st) l st = Ok st'
               /\ cycles st' = cycles st) as Hloop.
  { induction l as [|k l IH]; intros st Hl; cbn [for_each]; cbn beta.
    - eexists. split; reflexivity.
    - destruct (bool_decide (k ∉ visited st)).
      + assert (In k (Dict.keys matrix)) as Hk by (apply Hl; left; reflexivity).
        apply dict_get_is_Some in Hk as [row Hrow].
        destruct (dfs_zero_row (length matrix) matrix k row
                    {| visited := visited st; rec_stack := rec_stack st;
                       path := []; cycles := cycles st |} Hrow) as (st1 & -> & Hc1).
        { intros k' c Hin. eapply Hz; [apply dict_get_Some_In, Hrow | exact Hin]. }
        destruct (IH st1) as (st' & -> & Hc').
        { intros k' Hk'. apply Hl. right; exact Hk'. }
        eexists. split; [reflexivity |]. rewrite Hc', Hc1. reflexivity.
      + apply IH. intros k' Hk'. apply Hl. right; exact Hk'. }
  destruct (Hloop (Dict.keys matrix) dfs_init) as (st' & -> & Hc); [auto |].
  rewrite Hc. reflexivity.
Qed.

End NoImports.

Lemma find_cycles_zero_matrix_witness :
  Detector.find_cycles Fixtures.no_imports = Ok [].
Proof.
  apply find_cycles_zero_matrix.
  intros file row other count Hrow Hcount.
  vm_compute in Hrow.
  destruct Hrow as [[= <- <-] | [[= <- <-] | []]];
    vm_compute in Hcount;
    destruct Hcount as [[= <- <-] | [[= <- <-] | []]]; reflexivity.
Defined.

Section SearchFacts.
Import Detector CycleSpec.
Variable matrix : list (string * list (string * nat)).
Hypothesis matrix_closed : closed matrix.
Implicit Types (st : DfsState) (node x y : string).

Local Abbreviation edge := (edge matrix).
Local Abbreviation Step := (Step matrix).
Local Abbreviation mutual := (mutual matrix).
Local Abbreviation back_edges := (back_edges matrix).
Local Abbreviation key_set := (key_set matrix).
Local Abbreviation dfs_spec := (dfs_spec matrix).

Lemma mutual_trans st1 st2 st3 :
  visited st1 ⊆ visited st2 ->
  (forall c, In c (cycles st2) -> In c (cycles st3)) ->
  mutual st1 st2 -> mutual st2 st3 -> mutual st1 st3.
Proof.
  intros Hv Hc H12 H23 x y Hne Hxy Hyx Hx Hy Hx3.
  destruct (decide (x ∈ visited st2)) as [Hx2 | Hx2].
  - destruct (H12 x y Hne Hxy Hyx Hx Hy Hx2) as (cyc & Hin & Hcx & Hcy).
    exists cyc. auto.
  - destruct (decide (y ∈ visited st2)) as [Hy2 | Hy2].
    + destruct (H12 y x (not_eq_sym Hne) Hyx Hxy Hy Hx Hy2)
        as (cyc & Hin & Hcy & Hcx).
      exists cyc. auto.
    + apply (H23 x y); assumption.
Qed.

Lemma Step_refl st : Step st st.
Proof.
  split; try reflexivity; try (intros c Hc; exact Hc).
  - intros x y Hx Hnx. contradiction.
  - intros x y _ _ _ Hx _ Hx'. contradiction.
Qed.

Lemma Step_trans st1 st2 st3 : Step st1 st2 -> Step st2 st3 -> Step st1 st3.
Proof.
  intros [Hv1 Hs1 Hp1 Hc1 Hb1 Hm1] [Hv2 Hs2 Hp2 Hc2 Hb2 Hm2]. split.
  - set_solver.
  - congruence.
  - congruence.
  - auto.
  - intros x y Hx3 Hx1 Hxy Hy.
    destruct (decide (x ∈ visited st2)) as [Hx2 | Hx2].
    + destruct (Hb1 x y Hx2 Hx1 Hxy Hy) as (cyc & Hin & Hcx & Hcy).
      exists cyc. auto.
    + apply (Hb2 x y); try assumption. rewrite Hs1. exact Hy.
  - eapply mutual_trans; eassumption.
Qed.

Lemma Inv_Step st st' : Inv st -> Step st st' -> Inv st'.
Proof.
  intros [Hsv Hsp] [Hv Hs Hp _ _ _]. split.
  - rewrite Hs. set_solver.
  - intros x Hx. rewrite Hp. apply Hsp. rewrite <- Hs. exact Hx.
Qed.

Lemma index_of_In x (l : list string) : In x l -> is_Some (index_of x l).
Proof.
  induction l as [|a l IH]; simpl; [intros [] |].
  destruct (String.eqb_spec a x) as [->|Hne]; [eauto |].
  intros [Heq | Hin]; [contradiction |].
  destruct (IH Hin) as [i ->]. simpl. eauto.
Qed.

Lemma index_of_lt x (l : list string) i : index_of x l = Some i -> i < length l.
Proof.
  revert i. induction l as [|a l IH]; simpl; intros i; [discriminate |].
  destruct (String.eqb a x); [intros [= <-]; lia |].
  destruct (index_of x l) as [j|]; simpl; [| discriminate].
  intros [= <-]. specialize (IH j eq_refl). lia.
Qed.

(** The cycle cut out of the path holds the node that closes it and the
    last node of the path. *)
Lemma cycle_members (p : list string) (z y : string) i :
  index_of y (p ++ [z]) = Some i ->
  In z (skipn i (p ++ [z]) ++ [y]) /\ In y (skipn i (p ++ [z]) ++ [y]).
Proof.
  intros Hi. apply index_of_lt in Hi. rewrite length_app in Hi; simpl in Hi.
  split; apply in_app_iff; [left | right; left; reflexivity].
  rewrite skipn_app. apply in_app_iff. right.
  replace (i - length p) with 0 by lia. left; reflexivity.
Qed.

Lemma key_set_elem node : is_Some (Dict.get node matrix) -> node ∈ key_set.
Proof.
  intros Hn. apply dict_get_is_Some in Hn.
  unfold CycleSpec.key_set. apply elem_of_list_to_set, list_elem_of_In, Hn.
Qed.

(** One neighbour. *)
Lemma visit_neighbor_spec (depth : nat) st (y : string) (count : nat) :
  dfs_spec depth -> Inv st -> size (key_set ∖ visited st) < depth ->
  is_Some (Dict.get y matrix) ->
  exists st', visit_neighbor (dfs depth matrix) st (y, count) = Ok st'
    /\ Step st st'
    /\ (0 < count ->
        y ∈ visited st'
        /\ (y ∈ rec_stack st -> forall p z, path st = p ++ [z] ->
            exists cyc, In cyc (cycles st') /\ In z cyc /\ In y cyc)).
Proof.
  intros Hdfs Hinv Hsize Hy. unfold visit_neighbor.
  destruct (Nat.ltb_spec 0 count) as [Hpos | Hzero].
  2: { exists st. split; [reflexivity | split; [apply Step_refl | lia]]. }
  destruct (decide (y ∈ visited st)) as [Hv | Hnv].
  - rewrite bool_decide_eq_false_2 by (intros Hn; exact (Hn Hv)).
    destruct (decide (y ∈ rec_stack st)) as [Hr | Hnr].
    + rewrite bool_decide_eq_true_2 by exact Hr.
      destruct (index_of_In y (path st) (inv_stack_path _ Hinv y Hr)) as [i Hi].
      rewrite Hi.
      set (cycle := skipn i (path st) ++ [y]).
      assert (forall st', visited st' = visited st -> rec_stack st' = rec_stack st ->
                path st' = path st ->
                (forall c, In c (cycles st) -> In c (cycles st')) ->
                In cycle (cycles st') ->
                Step st st'
                /\ (0 < count ->
                    y ∈ visited st'
                    /\ (y ∈ rec_stack st -> forall p z, path st = p ++ [z] ->
                        exists cyc, In cyc (cycles st') /\ In z cyc /\ In y cyc)))
        as Hrecorded.
      { intros st' Hv' Hs' Hp' Hc' Hcyc. split.
        - split; try assumption.
          + rewrite Hv'. reflexivity.
          + intros a b Ha Hna. rewrite Hv' in Ha. contradiction.
          + intros a b _ _ _ Hna _ Ha. rewrite Hv' in Ha. contradiction.
        - intros _. split; [rewrite Hv'; exact Hv |].
          intros _ p z Hp. exists cycle. split; [exact Hcyc |].
          subst cycle. rewrite Hp in Hi |- *. apply cycle_members, Hi. }
      destruct (decide (cycle ∈ cycles st)) as [Hold | Hnew].
      * rewrite bool_decide_eq_false_2 by (intros Hn; exact (Hn Hold)).
        exists st. split; [reflexivity |].
        apply Hrecorded; auto. apply list_elem_of_In, Hold.
      * rewrite bool_decide_eq_true_2 by exact Hnew.
        eexists. split; [reflexivity |].
        apply Hrecorded; simpl; auto.
        -- intros c Hc. apply in_app_iff. left; exact Hc.
        -- apply in_app_iff. right; left; reflexivity.
    + rewrite bool_decide_eq_false_2 by exact Hnr.
      exists st. split; [reflexivity | split; [apply Step_refl |]].
      intros _. split; [exact Hv | intros Hr; contradiction].
  - rewrite bool_decide_eq_true_2 by exact Hnv.
    destruct (Hdfs y st Hy Hnv Hinv Hsize) as (st' & Hrun & Hstep & Hvis).
    exists st'. split; [exact Hrun | split; [exact Hstep |]].
    intros _. split; [exact Hvis |].
    intros Hr. exfalso. apply Hnv. apply (inv_stack_visited _ Hinv), Hr.
Qed.

(** The loop over the items of a row. *)
Lemma neighbors_spec (depth : nat) (items : list (string * nat)) st :
  dfs_spec depth -> Inv st -> size (key_set ∖ visited st) < depth ->
  (forall y count, In (y, count) items -> is_Some (Dict.get y matrix)) ->
  exists st', for_each (visit_neighbor (dfs depth matrix)) items st = Ok st'
    /\ Step st st'
    /\ (forall y count, In (y, count) items -> 0 < count ->
        y ∈ visited st'
        /\ (y ∈ rec_stack st -> forall p z, path st = p ++ [z] ->
            exists cyc, In cyc (cycles st') /\ In z cyc /\ In y cyc)).
Proof.
  intros Hdfs. revert st.
  induction items as [|[y count] items IH]; intros st Hinv Hsize Hkeys.
  - exists st. split; [reflexivity | split; [apply Step_refl |]].
    intros y count [].
  - destruct (visit_neighbor_spec depth st y count Hdfs Hinv Hsize)
      as (st1 & Hrun1 & Hstep1 & Hitem1).
    { apply (Hkeys y count). left; reflexivity. }
    destruct (IH st1) as (st2 & Hrun2 & Hstep2 & Hitems2).
    { eapply Inv_Step; eassumption. }
    { pose proof (step_visited _ _ _ Hstep1) as Hsub.
      assert (size (key_set ∖ visited st1) <= size (key_set ∖ visited st))
        by (apply subseteq_size; set_solver).
      lia. }
    { intros y' c' Hin. apply (Hkeys y' c'). right; exact Hin. }
    exists st2. cbn [for_each]. rewrite Hrun1.
    split; [exact Hrun2 | split; [eapply Step_trans; eassumption |]].
    intros y' c' [[= -> ->] | Hin] Hpos.
    + destruct (Hitem1 Hpos) as [Hvis Hcyc]. split.
      * apply (step_visited _ _ _ Hstep2), Hvis.
      * intros Hr p z Hp. destruct (Hcyc Hr p z Hp) as (cyc & Hin & Hz & Hy).
        exists cyc. split; [apply (step_cycles _ _ _ Hstep2), Hin | auto].
    + destruct (Hitems2 y' c' Hin Hpos) as [Hvis Hcyc]. split; [exact Hvis |].
      intros Hr p z Hp. apply (Hcyc (eq_ind_r (fun s => y' ∈ s) Hr
                                       (step_stack _ _ _ Hstep1)) p z).
      rewrite (step_path _ _ _ Hstep1). exact Hp.
Qed.

(** The search returns at every depth that exceeds the number of nodes
    still to visit, and it records the cycles described by [Step]. *)
Lemma dfs_correct (depth : nat) : dfs_spec depth.
Proof.
  induction depth as [|depth IH]; intros node st Hnode Hnv Hinv Hsize; [lia |].
  destruct Hnode as [row Hrow]. cbn [dfs]. rewrite Hrow.
  set (st1 := {| visited := {[node]} ∪ visited st;
                 rec_stack := {[node]} ∪ rec_stack st;
                 path := path st ++ [node];
                 cycles := cycles st |}).
  assert (node ∉ rec_stack st) as Hnr.
  { intros Hr. apply Hnv, (inv_stack_visited _ Hinv), Hr. }
  assert (Inv st1) as Hinv1.
  { destruct Hinv as [Hsv Hsp]. split; simpl.
    - set_solver.
    - intros x Hx. apply in_app_iff. apply elem_of_union in Hx as [Hx | Hx].
      + apply elem_of_singleton in Hx as ->. right; left; reflexivity.
      + left. apply Hsp, Hx. }
  assert (size (key_set ∖ visited st1) < depth) as Hsize1.
  { assert (key_set ∖ visited st1 ⊂ key_set ∖ visited st) as Hsub.
    { pose proof (key_set_elem node (ex_intro _ row Hrow)) as Hk.
      simpl. set_solver. }
    apply subset_size in Hsub. lia. }
  destruct (neighbors_spec depth row st1 IH Hinv1 Hsize1)
    as (st2 & Hrun & Hstep & Hitems).
  { intros y count Hin. eapply matrix_closed; eassumption. }
  rewrite Hrun.
  pose proof (step_path _ _ _ Hstep) as Hpath. simpl in Hpath.
  pose proof (step_stack _ _ _ Hstep) as Hstack. simpl in Hstack.
  pose proof (step_visited _ _ _ Hstep) as Hvis. simpl in Hvis.
  destruct (path st2) as [|p0 ps] eqn:Hp2.
  { destruct (path st); discriminate Hpath. }
  rewrite bool_decide_eq_true_2 by (rewrite Hstack; set_solver).
  eexists. split; [reflexivity |]. split; [| simpl; set_solver].
  split; cbn [visited rec_stack path cycles].
  - set_solver.
  - rewrite Hstack. set_solver.
  - rewrite Hpath. apply removelast_last.
  - intros c Hc. apply (step_cycles _ _ _ Hstep). exact Hc.
  - (* back edges *)
    intros x y Hx Hnx Hxy Hy.
    destruct (decide (x = node)) as [-> | Hne].
    + destruct Hxy as (row' & count & Hrow' & Hin & Hpos).
      rewrite Hrow in Hrow'. injection Hrow' as <-.
      destruct (Hitems y count Hin Hpos) as [_ Hcyc].
      destruct (Hcyc ltac:(simpl; set_solver) (path st) node eq_refl)
        as (cyc & Hc & Hz & Hyc).
      exists cyc. auto.
    + apply (step_back _ _ _ Hstep x y); simpl; try assumption; set_solver.
  - (* mutual imports *)
    intros x y Hne Hxy Hyx Hx Hy Hx'.
    destruct (decide (x = node)) as [-> | Hxn].
    + destruct Hxy as (row' & count & Hrow' & Hin & Hpos).
      rewrite Hrow in Hrow'. injection Hrow' as <-.
      destruct (Hitems y count Hin Hpos) as [Hy2 _].
      destruct (step_back _ _ _ Hstep y node) as (cyc & Hc & Hcy & Hcx);
        simpl; try assumption; [set_solver | set_solver |].
      exists cyc. auto.
    + destruct (decide (y = node)) as [-> | Hyn].
      * apply (step_back _ _ _ Hstep x node); simpl; try assumption; set_solver.
      * apply (step_mutual _ _ _ Hstep x y); simpl; try assumption; set_solver.
Qed.

Lemma size_list_to_set_le (l : list string) :
  size (list_to_set l : gset string) <= length l.
Proof.
  induction l as [|k ks IH].
  - rewrite list_to_set_nil, size_empty. simpl. lia.
  - rewrite list_to_set_cons, size_union_alt, size_singleton.
    assert (size (list_to_set ks ∖ {[k]} : gset string)
            <= size (list_to_set ks : gset string))
      by (apply subseteq_size; set_solver).
    simpl. lia.
Qed.

Lemma key_set_size : size key_set <= length matrix.
Proof.
  unfold CycleSpec.key_set, Dict.keys. rewrite <- (length_map fst matrix).
  apply size_list_to_set_le.
Qed.

(** The loop over the roots. *)
Lemma roots_spec (roots : list string) st :
  rec_stack st = ∅ ->
  (forall k, In k roots -> is_Some (Dict.get k matrix)) ->
  exists st',
    for_each
      (fun st file_path =>
         if bool_decide (file_path ∉ visited st)
         then dfs (S (length matrix)) matrix file_path
                {| visited := visited st; rec_stack := rec_stack st;
                   path := []; cycles := cycles st |}
         else Ok st) roots st = Ok st'
    /\ visited st ⊆ visited st'
    /\ rec_stack st' = ∅
    /\ (forall c, In c (cycles st) -> In c (cycles st'))
    /\ mutual st st'
    /\ (forall k, In k roots -> k ∈ visited st').
Proof.
  revert st. induction roots as [|k roots IH]; intros st Hstack Hkeys.
  - exists st. split; [reflexivity |]. split; [reflexivity |].
    split; [exact Hstack |]. split; [auto |]. split; [| intros k []].
    intros x y _ _ _ Hx _ Hx'. contradiction.
  - cbn [for_each]; cbn beta.
    assert (exists st1,
               (if bool_decide (k ∉ visited st)
                then dfs (S (length matrix)) matrix k
                       {| visited := visited st; rec_stack := rec_stack st;
                          path := []; cycles := cycles st |}
                else Ok st) = Ok st1
               /\ visited st ⊆ visited st1 /\ rec_stack st1 = ∅
               /\ (forall c, In c (cycles st) -> In c (cycles st1))
               /\ mutual st st1 /\ k ∈ visited st1) as (st1 & -> & Hv1 & Hs1 & Hc1 & Hm1 & Hk1).
    { destruct (decide (k ∈ visited st)) as [Hv | Hnv].
      - rewrite bool_decide_eq_false_2 by (intros Hn; exact (Hn Hv)).
        exists st. split; [reflexivity |]. split; [reflexivity |].
        split; [exact Hstack |]. split; [auto |]. split; [| exact Hv].
        intros x y _ _ _ Hx _ Hx'. contradiction.
      - rewrite bool_decide_eq_true_2 by exact Hnv.
        destruct (dfs_correct (S (length matrix)) k
                    {| visited := visited st; rec_stack := rec_stack st;
                       path := []; cycles := cycles st |})
          as (st1 & Hrun & Hstep & Hk).
        + apply Hkeys. left; reflexivity.
        + exact Hnv.
        + split; simpl; rewrite Hstack; [set_solver | intros x Hx; set_solver].
        + simpl. pose proof key_set_size.
          assert (size (key_set ∖ visited st) <= size key_set)
            by (apply subseteq_size; set_solver).
          lia.
        + exists st1. split; [exact Hrun |].
          split; [exact (step_visited _ _ _ Hstep) |].
          split; [rewrite (step_stack _ _ _ Hstep); exact Hstack |].
          split; [exact (step_cycles _ _ _ Hstep) |].
          split; [exact (step_mutual _ _ _ Hstep) | exact Hk]. }
    destruct (IH st1 Hs1) as (st2 & Hrun2 & Hv2 & Hs2 & Hc2 & Hm2 & Hk2).
    { intros k' Hk'. apply Hkeys. right; exact Hk'. }
    exists st2. split; [exact Hrun2 |]. split; [set_solver |].
    split; [exact Hs2 |]. split; [auto |].
    split; [eapply mutual_trans; eassumption |].
    intros k' [<- | Hk']; [apply Hv2, Hk1 | apply Hk2, Hk'].
Qed.

(** On a closed matrix the search returns, and two files that import
    each other lie on one of the cycles it reports. *)
Lemma find_cycles_mutual (a b : string) (n m : nat) :
  a <> b ->
  entry matrix a b = Some n -> n <> 0 ->
  entry matrix b a = Some m -> m <> 0 ->
  exists found, find_cycles matrix = Ok found
    /\ exists cyc, In cyc found /\ In a cyc /\ In b cyc.
Proof.
  intros Hne Hab Hn Hba Hm. unfold entry in Hab, Hba.
  destruct (Dict.get a matrix) as [row_a|] eqn:Hra; [| discriminate].
  destruct (Dict.get b matrix) as [row_b|] eqn:Hrb; [| discriminate].
  assert (edge a b) as Eab.
  { exists row_a, n. split; [exact Hra |].
    split; [apply dict_get_Some_In, Hab | lia]. }
  assert (edge b a) as Eba.
  { exists row_b, m. split; [exact Hrb |].
    split; [apply dict_get_Some_In, Hba | lia]. }
  destruct (roots_spec (Dict.keys matrix) dfs_init eq_refl)
    as (st' & Hrun & _ & _ & _ & Hmut & Hall).
  { intros k Hk. apply dict_get_is_Some, Hk. }
  unfold find_cycles. rewrite Hrun. eexists. split; [reflexivity |].
  apply (Hmut a b Hne Eab Eba); simpl; [set_solver | set_solver |].
  apply Hall. apply dict_get_is_Some. rewrite Hra. eauto.
Qed.

End SearchFacts.

(** ** The dependency matrix is square *)

Section DictKeys.

Lemma dict_keys_set_in {V} (d : list (string * V)) k v :
  In k (Dict.keys d) -> Dict.keys (Dict.set k v d) = Dict.keys d.
Proof.
  induction d as [|[k' v'] d IH]; simpl; [intros [] |].
  destruct (String.eqb_spec k' k) as [->|Hne]; [reflexivity |].
  intros [Heq | Hin]; [contradiction |]. simpl. f_equal. apply IH, Hin.
Qed.

Lemma dict_keys_set_notin {V} (d : list (string * V)) k v :
  ~ In k (Dict.keys d) -> Dict.keys (Dict.set k v d) = Dict.keys d ++ [k].
Proof.
  induction d as [|[k' v'] d IH]; simpl; [reflexivity |].
  intros Hn. destruct (String.eqb_spec k' k) as [->|Hne]; [tauto |].
  simpl. f_equal. apply IH. tauto.
Qed.

(** The keys after an assignment depend on the keys only. *)
Lemma dict_keys_set_congr {V W} (d : list (string * V)) (d' : list (string * W))
    k v w :
  Dict.keys d = Dict.keys d' ->
  Dict.keys (Dict.set k v d) = Dict.keys (Dict.set k w d').
Proof.
  intros Hk. destruct (in_dec string_dec k (Dict.keys d)) as [Hin | Hn].
  - rewrite !dict_keys_set_in; [exact Hk | rewrite <- Hk; exact Hin | exact Hin].
  - rewrite !dict_keys_set_notin; [rewrite Hk; reflexivity | rewrite <- Hk; exact Hn | exact Hn].
Qed.

Lemma dict_set_In {V} (d : list (string * V)) k v k0 v0 :
  In (k0, v0) (Dict.set k v d) -> v0 = v \/ In (k0, v0) d.
Proof.
  induction d as [|[k' v'] d IH]; simpl.
  - intros [[= _ <-] | []]. left; reflexivity.
  - destruct (String.eqb k' k); simpl.
    + intros [[= _ <-] | Hin]; [left; reflexivity | right; right; exact Hin].
    + intros [Heq | Hin]; [right; left; exact Heq |].
      destruct (IH Hin) as [-> | Hin']; [left; reflexivity | right; right; exact Hin'].
Qed.

End DictKeys.

Section MatrixFacts.
Import Detector CycleSpec.

Lemma initial_matrix_keys (fs all : list File)
    (m : list (string * list (string * nat))) (r : list (string * nat)) :
  Dict.keys m = Dict.keys r ->
  Dict.keys (fold_left (fun m file => Dict.set (file_path file) (zero_row all) m) fs m)
  = Dict.keys (fold_left (fun row other_file => Dict.set (file_path other_file) 0 row) fs r).
Proof.
  revert m r. induction fs as [|f fs IH]; intros m r Hk; simpl; [exact Hk |].
  apply IH. apply dict_keys_set_congr, Hk.
Qed.

Lemma initial_matrix_rows (fs all : list File)
    (m : list (string * list (string * nat))) k row :
  (forall k0 row0, In (k0, row0) m -> row0 = zero_row all) ->
  In (k, row)
     (fold_left (fun m file => Dict.set (file_path file) (zero_row all) m) fs m) ->
  row = zero_row all.
Proof.
  revert m. induction fs as [|f fs IH]; intros m Hm; simpl; [apply Hm |].
  apply IH. intros k0 row0 Hin.
  apply dict_set_In in Hin as [-> | Hin]; [reflexivity | eapply Hm, Hin].
Qed.

Lemma count_import_square matrix (rel : Relationship) :
  square matrix -> square (count_import matrix rel)
                   /\ Dict.keys (count_import matrix rel) = Dict.keys matrix.
Proof.
  intros Hsq. unfold count_import.
  destruct (rel_metadata rel !! "source_file") as [source|]; [| auto].
  destruct (rel_metadata rel !! "target_file") as [target|]; [| auto].
  destruct (Dict.get source matrix) as [row|] eqn:Hrow; [| auto].
  destruct (Dict.get target row) as [count|] eqn:Hcount; [| auto].
  assert (Dict.keys (Dict.set source (Dict.set target (count + 1) row) matrix)
          = Dict.keys matrix) as Hkeys.
  { apply dict_keys_set_in, dict_get_is_Some. rewrite Hrow. eauto. }
  split; [| exact Hkeys].
  intros k row' Hin. rewrite Hkeys.
  apply dict_set_In in Hin as [-> | Hin]; [| apply (Hsq k), Hin].
  rewrite dict_keys_set_in.
  - apply (Hsq source), dict_get_Some_In, Hrow.
  - apply dict_get_is_Some. rewrite Hcount. eauto.
Qed.

Lemma get_dependency_matrix_square (db : Database) (repo_id : Z) :
  square (get_dependency_matrix db repo_id).
Proof.
  unfold get_dependency_matrix.
  set (fs := List.filter (fun f => bool_decide (file_repo_id f = repo_id)) (files db)).
  set (m0 := fold_left (fun m file => Dict.set (file_path file) (zero_row fs) m) fs []).
  assert (square m0) as Hsq0.
  { intros k row Hin.
    assert (row = zero_row fs) as ->.
    { eapply initial_matrix_rows; [| exact Hin]. intros k0 row0 []. }
    symmetry. apply initial_matrix_keys. reflexivity. }
  clearbody m0.
  induction (List.filter (fun r => bool_decide (relationship_type r = IMPORTS))
               (relationships db)) as [|rel rels IH] in m0, Hsq0 |- *; simpl.
  - exact Hsq0.
  - apply IH. apply count_import_square, Hsq0.
Qed.

Lemma square_closed matrix : square matrix -> closed matrix.
Proof.
  intros Hsq k row k' count Hrow Hin.
  apply dict_get_is_Some. rewrite <- (Hsq k row) by apply dict_get_Some_In, Hrow.
  eapply dict_In_keys, Hin.
Qed.


End MatrixFacts.


(** The search on the example: the cycle is reported once, from the
    first of the two files met. *)
Example mutual_import_cycle :
  Detector.detect_circular_dependencies Fixtures.mutual_import_db 1
  = Ok [["a.py"; "b.py"; "a.py"]].
Proof. vm_compute. reflexivity. Qed.

(** A file that imports itself is a cycle of its own. *)
Example self_import_cycle :
  Detector.find_cycles [("a.py", [("a.py", 1)])] = Ok [["a.py"; "a.py"]].
Proof. vm_compute. reflexivity. Qed.

(** ** The orchestrator *)

Section FrameFacts.
Import Analysis.
Local Open Scope M_scope.

Lemma preserves_ret {A} (a : A) : preserves_status (ret a).
Proof.
  intros w r w' [= <- <-]. split; [reflexivity |].
  exists []. rewrite app_nil_r. split; [reflexivity | constructor].
Qed.

Lemma preserves_raise {A} (e : Exception) : preserves_status (@raise A e).
Proof.
  intros w r w' [= <- <-]. split; [reflexivity |].
  exists []. rewrite app_nil_r. split; [reflexivity | constructor].
Qed.

Lemma preserves_lift {A} (x : Result A) : preserves_status (lift x).
Proof.
  intros w r w' [= <- <-]. split; [reflexivity |].
  exists []. rewrite app_nil_r. split; [reflexivity | constructor].
Qed.

Lemma preserves_bind {A B} (m : M A) (k : A -> M B) :
  preserves_status m -> (forall a, preserves_status (k a)) ->
  preserves_status (bind m k).
Proof.
  intros Hm Hk w r w' Hrun. unfold bind in Hrun.
  destruct (m w) as [[a | e] wm] eqn:Hmw.
  - destruct (Hm _ _ _ Hmw) as (Hs1 & ev1 & Ht1 & Hq1).
    destruct (Hk a _ _ _ Hrun) as (Hs2 & ev2 & Ht2 & Hq2).
    split; [congruence |].
    exists (ev1 ++ ev2). split.
    + rewrite Ht2, Ht1, app_assoc. reflexivity.
    + apply Forall_app. split; [exact Hq1 |]. rewrite <- Hs1. exact Hq2.
  - injection Hrun as <- <-. exact (Hm _ _ _ Hmw).
Qed.

Lemma preserves_one_event {A} (m : M A) (ev : Event) :
  (forall sts, quiet sts ev) ->
  (forall w, session (snd (m w)) = session w
             /\ trace (snd (m w)) = trace w ++ [ev]) ->
  preserves_status m.
Proof.
  intros Hq Hm w r w' Hrun. destruct (Hm w) as [Hs Ht].
  rewrite Hrun in Hs, Ht. simpl in Hs, Ht. split; [rewrite Hs; reflexivity |].
  exists [ev]. split; [exact Ht |]. constructor; [apply Hq | constructor].
Qed.

Lemma preserves_phase_started (n : nat) : preserves_status (emit (PhaseStarted n)).
Proof.
  apply (preserves_one_event _ (PhaseStarted n)); [intros sts; exact I |].
  intros w. split; reflexivity.
Qed.

Lemma preserves_phase_skipped (n : nat) : preserves_status (emit (PhaseSkipped n)).
Proof.
  apply (preserves_one_event _ (PhaseSkipped n)); [intros sts; exact I |].
  intros w. split; reflexivity.
Qed.

Lemma preserves_call {A} (operation : string) (oracle : list Event -> Result A) :
  preserves_status (call operation oracle).
Proof.
  apply (preserves_one_event _ (Called operation)); [intros sts; exact I |].
  intros w. split; reflexivity.
Qed.

Lemma preserves_execute `{Collaborators} {A} (rows : Database -> A) :
  preserves_status (execute rows).
Proof.
  apply (preserves_one_event _ (Called "execute")); [intros sts; exact I |].
  intros w. unfold execute. destruct (execute_fault (trace w)); split; reflexivity.
Qed.

Lemma preserves_commit : preserves_status commit.
Proof.
  intros w r w' [= <- <-]. split; [reflexivity |].
  eexists. split; [reflexivity |]. constructor; [reflexivity | constructor].
Qed.

Lemma preserves_modify (f : Database -> Database) :
  (forall db, repositories (f db) = repositories db) ->
  preserves_status (modify_session f).
Proof.
  intros Hf w r w' [= <- <-]. simpl.
  split; [unfold statuses; rewrite Hf; reflexivity |].
  exists []. rewrite app_nil_r. split; [reflexivity | constructor].
Qed.

Lemma statuses_alter (f : Repository -> Repository) (repo_id : Z) (db : Database) :
  (forall r, status (f r) = status r) ->
  statuses (with_repositories (alter f repo_id) db) = statuses db.
Proof.
  intros Hf. unfold statuses, with_repositories. simpl.
  apply map_eq. intros i. rewrite !lookup_fmap.
  destruct (decide (i = repo_id)) as [-> | Hne].
  - rewrite lookup_alter_eq. destruct (repositories db !! repo_id); simpl;
      [rewrite Hf |]; reflexivity.
  - rewrite lookup_alter_ne by congruence. reflexivity.
Qed.

Lemma preserves_update_repo (repo_id : Z) (f : Repository -> Repository) :
  (forall r, status (f r) = status r) ->
  preserves_status (update_repo repo_id f).
Proof.
  intros Hf w r w' [= <- <-]. simpl.
  split; [apply statuses_alter, Hf |].
  exists []. rewrite app_nil_r. split; [reflexivity | constructor].
Qed.

Lemma preserves_mfor {A} (l : list A) (body : A -> M unit) :
  (forall a, preserves_status (body a)) -> preserves_status (mfor l body).
Proof.
  intros Hb. induction l as [|a l IH]; simpl.
  - apply preserves_ret.
  - apply preserves_bind; [apply Hb | intros _; exact IH].
Qed.

Lemma preserves_mfold {A S} (l : list A) (body : S -> A -> M S) (s : S) :
  (forall s a, preserves_status (body s a)) -> preserves_status (mfold l body s).
Proof.
  intros Hb. revert s. induction l as [|a l IH]; intros s; simpl.
  - apply preserves_ret.
  - apply preserves_bind; [apply Hb | intros s'; apply IH].
Qed.

End FrameFacts.

Create HintDb frame.

#[local] Hint Resolve preserves_ret preserves_raise preserves_lift
  preserves_phase_started preserves_phase_skipped preserves_call
  preserves_execute preserves_commit : frame.

(** One step of a proof that a coroutine never assigns a status. *)
Ltac frame_step :=
  first
    [ apply preserves_bind; [| intros ?]
    | apply preserves_mfor; intros ?
    | apply preserves_mfold; intros ? ?
    | apply preserves_update_repo; intros ?; reflexivity
    | apply preserves_modify; intros ?; reflexivity
    | solve [auto with frame] ].

Section PhaseFacts.
Import LLM Re Parser Detector Analysis.
Local Open Scope M_scope.
Context `{Collaborators} `{Client} `{Engine} `{TreeSitter} `{Identifiers}.
Variable settings : Settings.

Lemma preserves_get_repo_and_say (repo_id : Z) (msg : string) :
  preserves_status (get_repo_and_say repo_id msg).
Proof.
  unfold get_repo_and_say. apply preserves_bind.
  - intros w r w' [= <- <-]. split; [reflexivity |].
    exists []. rewrite app_nil_r. split; [reflexivity | constructor].
  - intros [r|]; repeat frame_step.
Qed.

Lemma preserves_clone_and_scan (repo_id : Z) :
  preserves_status (_clone_and_scan repo_id).
Proof.
  unfold _clone_and_scan, add_file.
  apply preserves_bind; [apply preserves_get_repo_and_say | intros repo].
  repeat frame_step.
Qed.

Lemma preserves_collect_file (repo_path : string)
    (acc : list FileForSummary * list EntityForExplanation) (file_record : File) :
  preserves_status (collect_file repo_path acc file_record).
Proof.
  unfold collect_file, update_file. destruct acc as [fs es].
  destruct (file_language file_record) as [language|]; [| repeat frame_step].
  destruct (negb (truthy_str language)); [repeat frame_step |].
  apply preserves_bind; [repeat frame_step | intros content].
  destruct (truthy (parse_file content language)); repeat frame_step.
Qed.

Lemma preserves_add_entity (repo_id : Z) (ie : EntityForExplanation * string) :
  preserves_status (add_entity repo_id ie).
Proof.
  unfold add_entity. destruct ie as [e_info explanation]. repeat frame_step.
Qed.

Lemma preserves_parse_entities (repo_id : Z) (repo_path : string) :
  preserves_status (_parse_entities settings repo_id repo_path).
Proof.
  unfold _parse_entities, update_file.
  apply preserves_bind; [apply preserves_get_repo_and_say | intros repo].
  apply preserves_bind; [repeat frame_step | intros _].
  apply preserves_bind; [repeat frame_step | intros files].
  apply preserves_bind.
  { apply preserves_mfold. intros s a. apply preserves_collect_file. }
  intros [files_for_summary all_entities].
  apply preserves_bind.
  { destruct (truthy files_for_summary); repeat frame_step. }
  intros _. apply preserves_bind; [| intros _; repeat frame_step].
  destruct (truthy all_entities); [| repeat frame_step].
  repeat (apply preserves_bind; [repeat frame_step | intros ?]).
  apply preserves_mfor. intros ie. apply preserves_add_entity.
Qed.

Lemma preserves_detect (repo_id : Z) : preserves_status (detect repo_id).
Proof.
  unfold detect. apply preserves_bind; [repeat frame_step | intros _].
  apply preserves_bind; [| intros n; repeat frame_step].
  intros w r w' [= <- <-]. simpl. split; [reflexivity |].
  exists []. rewrite app_nil_r. split; [reflexivity | constructor].
Qed.

Lemma preserves_detect_relationships (repo_id : Z) :
  preserves_status (_detect_relationships repo_id).
Proof.
  unfold _detect_relationships.
  apply preserves_bind; [apply preserves_get_repo_and_say | intros repo].
  apply preserves_bind; [repeat frame_step | intros _].
  apply preserves_bind; [apply preserves_detect | intros n].
  repeat frame_step.
Qed.

Lemma preserves_generate_embeddings (repo_id : Z) :
  preserves_status (_generate_embeddings settings repo_id).
Proof.
  unfold _generate_embeddings.
  apply preserves_bind; [apply preserves_get_repo_and_say | intros repo].
  repeat frame_step.
Qed.

(** The pipeline after its first log line. *)
Lemma preserves_pipeline_tail (repo_id : Z) :
  preserves_status
    (let* repo_path := _clone_and_scan repo_id in
     emit (PhaseStarted 2) >>
     _parse_entities settings repo_id repo_path >>
     (if ENABLE_RELATIONSHIP_DETECTION settings
      then emit (PhaseStarted 3) >> _detect_relationships repo_id
      else emit (PhaseSkipped 3)) >>
     emit (PhaseStarted 4) >>
     _generate_embeddings settings repo_id).
Proof.
  apply preserves_bind; [apply preserves_clone_and_scan | intros repo_path].
  apply preserves_bind; [repeat frame_step | intros _].
  apply preserves_bind; [apply preserves_parse_entities | intros _].
  apply preserves_bind.
  { destruct (ENABLE_RELATIONSHIP_DETECTION settings); [| repeat frame_step].
    apply preserves_bind; [repeat frame_step | intros _].
    apply preserves_detect_relationships. }
  intros _. apply preserves_bind; [repeat frame_step | intros _].
  apply preserves_generate_embeddings.
Qed.

(** No phase assigns a status: whether the pipeline returns or raises,
    the statuses of the session are those it started with, and so are
    the statuses stored by each of its commits. *)
Lemma preserves_pipeline (repo_id : Z) :
  preserves_status (pipeline settings repo_id).
Proof.
  unfold pipeline. apply preserves_bind; [repeat frame_step | intros _].
  apply preserves_pipeline_tail.
Qed.

(** The pipeline opens with the log line of phase 1. *)
Lemma pipeline_trace (repo_id : Z) (w w2 : World) (r : Result unit) :
  pipeline settings repo_id w = (r, w2) ->
  statuses (session w2) = statuses (session w)
  /\ exists events,
       trace w2 = trace w ++ PhaseStarted 1 :: events
       /\ Forall (quiet (statuses (session w))) events.
Proof.
  unfold pipeline. unfold bind at 1. simpl. intros Hrun.
  destruct (preserves_pipeline_tail repo_id _ _ _ Hrun) as (Hs & events & Ht & Hq).
  simpl in Hs, Ht, Hq. split; [exact Hs |].
  exists events. split; [| exact Hq].
  rewrite Ht, <- app_assoc. reflexivity.
Qed.

(** *** The run as a whole *)

Lemma analyze_found (repo_id : Z) (w : World) (repo : Repository) :
  repositories (session w) !! repo_id = Some repo ->
  analyze_repository settings repo_id w
  = try_finally (try_except (run_phases settings repo_id) (on_failure repo_id))
      cleanup (snd (mark_in_progress repo_id w)).
Proof.
  intros Hrepo. unfold analyze_repository, bind, db_get. rewrite Hrepo.
  reflexivity.
Qed.

Lemma mark_in_progress_world (repo_id : Z) (w : World) (repo : Repository) :
  repositories (session w) !! repo_id = Some repo ->
  let w1 := snd (mark_in_progress repo_id w) in
  trace w1 = trace w ++ [Committed (repositories (session w1))]
  /\ stored w1 = session w1
  /\ statuses (session w1) !! repo_id = Some IN_PROGRESS.
Proof.
  intros Hrepo. simpl. split; [reflexivity | split; [reflexivity |]].
  unfold statuses. simpl. rewrite lookup_fmap, !lookup_alter_eq, Hrepo.
  reflexivity.
Qed.

(** A repository that does not exist is reported at once: nothing is
    committed and no phase starts. *)
Lemma analyze_not_found (repo_id : Z) (w : World) :
  repositories (session w) !! repo_id = None ->
  analyze_repository settings repo_id w
  = (Raise (ValueError ("Repository " +:+ pretty repo_id +:+ " not found")), w).
Proof.
  intros Hnone. unfold analyze_repository, bind, db_get. rewrite Hnone.
  reflexivity.
Qed.

(** The handler, from a world in which the repository exists. *)
Lemma on_failure_world (repo_id : Z) (e : Exception) (w : World) (s : AnalysisStatus) :
  statuses (session w) !! repo_id = Some s ->
  let run := on_failure repo_id e w in
  fst run = Raise e
  /\ trace (snd run) = trace w ++ [Committed (repositories (stored (snd run)))]
  /\ exists failed,
       repositories (stored (snd run)) !! repo_id = Some failed
       /\ status failed = FAILED
       /\ status_message failed = Some ("Analysis failed: " +:+ exc_str e).
Proof.
  intros Hs. unfold statuses in Hs. rewrite lookup_fmap in Hs.
  destruct (repositories (session w) !! repo_id) as [r|] eqn:Hr; [| discriminate].
  simpl. split; [reflexivity | split; [reflexivity |]].
  rewrite !lookup_alter_eq, Hr. simpl. eexists. split; [reflexivity |].
  split; reflexivity.
Qed.

Lemma complete_world (repo_id : Z) (w : World) (s : AnalysisStatus) :
  statuses (session w) !! repo_id = Some s ->
  let run := complete repo_id w in
  fst run = Ok tt
  /\ trace (snd run) = trace w ++ [Committed (repositories (stored (snd run)))]
  /\ status <$> repositories (stored (snd run)) !! repo_id = Some COMPLETED.
Proof.
  intros Hs. unfold statuses in Hs. rewrite lookup_fmap in Hs.
  destruct (repositories (session w) !! repo_id) as [r|] eqn:Hr; [| discriminate].
  simpl. split; [reflexivity | split; [reflexivity |]].
  rewrite !lookup_alter_eq, Hr. reflexivity.
Qed.


Lemma committed_statuses_app (repo_id : Z) (a b : list Event) :
  committed_statuses repo_id (a ++ b)
  = committed_statuses repo_id a ++ committed_statuses repo_id b.
Proof.
  induction a as [|ev a IH]; simpl; [reflexivity |].
  destruct ev; simpl; rewrite IH; reflexivity.
Qed.

(** Quiet events store the status the repository already had. *)
Lemma quiet_committed (repo_id : Z) (sts : gmap Z AnalysisStatus)
    (s : AnalysisStatus) (events : list Event) :
  sts !! repo_id = Some s ->
  Forall (quiet sts) events ->
  Forall (fun c => c = Some s) (committed_statuses repo_id events).
Proof.
  intros Hs Hq. induction Hq as [|ev events Hev _ IH]; simpl; [constructor |].
  destruct ev; try exact IH.
  constructor; [| exact IH]. simpl in Hev.
  rewrite <- Hs, <- Hev, lookup_fmap. reflexivity.
Qed.

Lemma changes_run (s t : option AnalysisStatus) (l : list (option AnalysisStatus)) :
  s <> t ->
  Forall (fun c => c = s) l ->
  changes (s :: l ++ [t]) = [s; t].
Proof.
  intros Hne Hl. induction Hl as [|c l -> _ IH]; simpl.
  - destruct (decide (s = t)); [contradiction | reflexivity].
  - destruct (decide (s = s)); [| contradiction]. exact IH.
Qed.

(** C4: a run that starts from the status PENDING and returns commits
    the status IN_PROGRESS before the first phase begins, commits no other
    status than IN_PROGRESS while the phases run, and commits COMPLETED
    last, just before the cleanup; a reader of the stored status sees
    PENDING, then IN_PROGRESS, then COMPLETED, and nothing else. *)
Theorem successful_run_status_sequence
    (repo_id : Z) (w w' : World) (repo : Repository) :
  repositories (session w) !! repo_id = Some repo ->
  status repo = PENDING ->
  analyze_repository settings repo_id w = (Ok tt, w') ->
  exists first middle last,
    let events :=
      Committed first :: PhaseStarted 1 :: middle ++ [Committed last; CleanedUp] in
    trace w' = trace w ++ events
    /\ status <$> first !! repo_id = Some IN_PROGRESS
    /\ Forall (fun c => c = Some IN_PROGRESS) (committed_statuses repo_id middle)
    /\ status <$> last !! repo_id = Some COMPLETED
    /\ changes (Some (status repo) :: committed_statuses repo_id events)
       = [Some PENDING; Some IN_PROGRESS; Some COMPLETED]
    /\ status <$> repositories (stored w') !! repo_id = Some COMPLETED.
Proof.
  intros Hrepo Hpending Hrun.
  destruct (mark_in_progress_world repo_id w repo Hrepo) as (Ht1 & _ & Hin).
  rewrite (analyze_found repo_id w repo Hrepo) in Hrun.
  set (started := snd (mark_in_progress repo_id w)) in *.
  unfold try_finally, try_except, run_phases, bind in Hrun.
  destruct (pipeline settings repo_id started) as [[[] | e] w2] eqn:Hpipe.
  2: { simpl in Hrun. discriminate Hrun. }
  destruct (pipeline_trace repo_id _ _ _ Hpipe) as (Hs & middle & Ht2 & Hq).
  pose proof Hin as Hin2. rewrite <- Hs in Hin2.
  destruct (complete_world repo_id w2 _ Hin2) as (Hres & Ht3 & Hdone).
  destruct (complete repo_id w2) as [r w3] eqn:Hcomplete.
  simpl in Hres, Ht3, Hdone. subst r. simpl in Hrun.
  injection Hrun as <-. simpl.
  pose proof (quiet_committed repo_id _ _ _ Hin Hq) as Hmiddle.
  exists (repositories (session started)), middle, (repositories (stored w3)).
  split.
  { rewrite Ht3, Ht2, Ht1, <- !app_assoc. reflexivity. }
  split; [rewrite <- lookup_fmap; exact Hin |].
  split; [exact Hmiddle |].
  split; [exact Hdone |].
  split; [| exact Hdone].
  rewrite Hpending. cbn [committed_statuses].
  rewrite committed_statuses_app. cbn [committed_statuses].
  rewrite Hdone. rewrite <- lookup_fmap.
  change (status <$> repositories (session started)) with (statuses (session started)).
  rewrite Hin. cbn [changes].
  destruct (decide (Some PENDING = Some IN_PROGRESS)) as [Hbad | _];
    [discriminate Hbad |].
  f_equal. apply changes_run; [discriminate | exact Hmiddle].
Qed.

End PhaseFacts.


Lemma successful_run_status_sequence_witness :
  let run :=
    @Analysis.analyze_repository Fixtures.empty_checkout Fixtures.first_task_fails
      Fixtures.main_calls_helper Fixtures.no_grammar Fixtures.ascii_identifiers
      default_settings 1 Fixtures.fresh_session in
  fst run = Ok tt
  /\ Analysis.changes
       (Some PENDING :: Analysis.committed_statuses 1 (Analysis.trace (snd run)))
     = [Some PENDING; Some IN_PROGRESS; Some COMPLETED].
Proof.
  intros run.
  assert (run = (Ok tt, snd run)) as Hrun by (vm_compute; reflexivity).
  split; [rewrite Hrun; reflexivity |].
  destruct (@successful_run_status_sequence Fixtures.empty_checkout
              Fixtures.first_task_fails Fixtures.main_calls_helper
              Fixtures.no_grammar Fixtures.ascii_identifiers default_settings
              1%Z Fixtures.fresh_session (snd run) Fixtures.pending_repo
              eq_refl eq_refl Hrun)
    as (first & middle & last & Htrace & _ & _ & _ & Hchanges & _).
  rewrite Htrace. exact Hchanges.
Defined.

(** * Further properties of the services *)

(** ** Groups and their outputs *)

Lemma imap_imap {A B C} (f : nat -> B -> C) (g : nat -> A -> B) (l : list A) :
  imap f (imap g l) = imap (fun k x => f k (g k x)) l.
Proof.
  revert f g. induction l as [|x l IH]; intros f g; [reflexivity |].
  cbn [imap]. f_equal. apply IH.
Qed.

Section GroupFacts.
Import LLM BatchSpec.
Context {A : Type}.
Implicit Types (l : list A) (bs : Z).

Lemma slice_inside l (i bs : Z) :
  (0 <= i)%Z -> (0 < bs)%Z ->
  slice l i (i + bs)
  = firstn (Z.to_nat bs) (skipn (Z.to_nat i) l).
Proof.
  intros Hi Hbs. unfold slice, clip_index.
  destruct (Z.ltb_spec i 0) as [|_]; [lia |].
  destruct (Z.ltb_spec (i + bs) 0) as [|_]; [lia |].
  destruct (Nat.le_gt_cases (length l) (Z.to_nat i)) as [Hout | Hin].
  - rewrite (skipn_all2 l) by lia. rewrite Nat.min_r by lia.
    rewrite skipn_all2 by lia. rewrite !firstn_nil. reflexivity.
  - rewrite (Nat.min_l (Z.to_nat i)) by lia.
    destruct (Nat.le_gt_cases (length l) (Z.to_nat (i + bs))) as [Hlong | Hshort].
    + rewrite Nat.min_r by lia.
      rewrite !firstn_all2; [reflexivity | |]; rewrite length_skipn; lia.
    + rewrite Nat.min_l by lia. f_equal. lia.
Qed.

(** The start indices are the multiples of the step below the length. *)
Lemma range_from_lookup (fuel : nat) (i stop step : Z) (k : nat) (x : Z) :
  range_from fuel i stop step !! k = Some x -> x = (i + Z.of_nat k * step)%Z.
Proof.
  revert i k. induction fuel as [|fuel IH]; intros i k; simpl; [discriminate |].
  destruct (i <? stop)%Z; [| discriminate].
  destruct k as [|k]; simpl.
  - intros [= <-]. lia.
  - intros Hk. rewrite (IH _ _ Hk). lia.
Qed.

(** The slices at the start indices, one after the other, are the list
    from the first index on. *)
Lemma slices_from (fuel : nat) (i bs : Z) l :
  (0 <= i)%Z -> (0 < bs)%Z ->
  length l - Z.to_nat i <= fuel ->
  concat (map (fun j => slice l j (j + bs)%Z)
            (range_from fuel i (Z.of_nat (length l)) bs))
  = skipn (Z.to_nat i) l.
Proof.
  revert i. induction fuel as [|fuel IH]; intros i Hi Hbs Hfuel; simpl.
  - rewrite skipn_all2 by lia. reflexivity.
  - destruct (Z.ltb_spec i (Z.of_nat (length l))) as [Hlt | Hge].
    + simpl. rewrite IH by lia. rewrite slice_inside by lia.
      replace (Z.to_nat (i + bs)) with (Z.to_nat bs + Z.to_nat i) by lia.
      rewrite <- skipn_skipn. apply firstn_skipn.
    + simpl. rewrite skipn_all2 by lia. reflexivity.
Qed.

Lemma range_from_groups (fuel : nat) (i bs : Z) l :
  (0 <= i)%Z -> (0 < bs)%Z ->
  Forall (well_sized bs)
    (map (fun j => slice l j (j + bs)%Z)
       (range_from fuel i (Z.of_nat (length l)) bs)).
Proof.
  revert i. induction fuel as [|fuel IH]; intros i Hi Hbs; simpl; [constructor |].
  destruct (Z.ltb_spec i (Z.of_nat (length l))) as [Hlt | Hge]; [| constructor].
  simpl. constructor; [| apply IH; lia]. unfold well_sized.
  rewrite slice_inside by lia. rewrite length_firstn, length_skipn. lia.
Qed.

Lemma batches_positive l bs :
  (0 < bs)%Z ->
  batches bs l
  = Ok (map (fun j => slice l j (j + bs)%Z)
          (range_from (length l) 0 (Z.of_nat (length l)) bs)).
Proof.
  intros Hbs. unfold batches, range0.
  destruct (Z.eqb_spec bs 0) as [|_]; [lia |].
  destruct (Z.ltb_spec bs 0) as [|_]; [lia |]. reflexivity.
Qed.

Lemma batches_concat l bs (tasks : list (list A)) :
  (0 < bs)%Z -> batches bs l = Ok tasks -> concat tasks = l.
Proof.
  intros Hbs. rewrite batches_positive by exact Hbs. intros [= <-].
  rewrite slices_from by lia. reflexivity.
Qed.

(** Group [k] is the slice that the collecting loop recomputes from [k]. *)
Lemma batches_lookup l bs (tasks : list (list A)) (k : nat) (b : list A) :
  (0 < bs)%Z ->
  batches bs l = Ok tasks ->
  tasks !! k = Some b ->
  b = slice l (Z.of_nat k * bs) ((Z.of_nat k + 1) * bs).
Proof.
  intros Hbs. rewrite batches_positive by exact Hbs.
  intros [= <-] Hk. rewrite list_lookup_fmap in Hk.
  destruct (range_from _ _ _ _ !! k) as [j|] eqn:Hj; [| discriminate].
  apply range_from_lookup in Hj. simpl in Hk. injection Hk as <-.
  subst j. f_equal; lia.
Qed.

Lemma collect_fold (placeholder : string) bs l (tasks : list (list A)) :
  forall (idx : nat -> Z) (f : nat -> list A -> Result (list string))
         (acc : list string),
    (forall k b, tasks !! k = Some b ->
                 b = slice l (idx k * bs) ((idx k + 1) * bs)) ->
    fold_left (collect_batch placeholder bs l)
      (imap (fun k b => (idx k, f k b)) tasks) acc
    = acc ++ concat (imap (fun k b => group_output placeholder (f k b) b) tasks).
Proof.
  induction tasks as [|b tasks IH]; intros idx f acc Hslices.
  - simpl. rewrite app_nil_r. reflexivity.
  - cbn [imap fold_left concat].
    pose proof (Hslices 0%nat b eq_refl) as Hb.
    unfold compose.
    rewrite (IH (fun k => idx (S k)) (fun k => f (S k))).
    + rewrite app_assoc. f_equal. unfold collect_batch at 1.
      rewrite <- Hb. destruct (f 0%nat b); reflexivity.
    + intros k b' Hk. apply (Hslices (S k) b' Hk).
Qed.

(** The loop over [enumerate(batch_results)], for the results of the
    tasks of the groups. *)
Lemma collect_groups (placeholder : string) bs l (tasks : list (list A))
    (f : nat -> list A -> Result (list string)) :
  (0 < bs)%Z ->
  batches bs l = Ok tasks ->
  fold_left (collect_batch placeholder bs l) (enumerate (imap f tasks)) []
  = concat (imap (fun k b => group_output placeholder (f k b) b) tasks).
Proof.
  intros Hbs Htasks. unfold enumerate. rewrite imap_imap.
  rewrite (collect_fold placeholder bs l tasks Z.of_nat f []); [reflexivity |].
  intros k b Hk. exact (batches_lookup l bs tasks k b Hbs Htasks Hk).
Qed.

Lemma concat_imap_length (g : nat -> list A -> list string)
    (tasks : list (list A)) :
  (forall k b, length (g k b) = length b) ->
  length (concat (imap g tasks)) = length (concat tasks).
Proof.
  revert g. induction tasks as [|b tasks IH]; intros g Hg; [reflexivity |].
  cbn [imap concat]. rewrite !length_app.
  rewrite (Hg 0%nat b). f_equal.
  apply IH. intros k b'. exact (Hg (S k) b').
Qed.

End GroupFacts.

Section BatchMethods.
Import LLM BatchSpec.
Context `{Client}.

Lemma explain_group_length (k : nat) (b : list FunctionInput) :
  length (group_output explanation_placeholder (_explain_functions_batch k b) b)
  = length b.
Proof.
  unfold _explain_functions_batch, _call_llm.
  destruct (create k _ _) as [response | e]; simpl.
  - apply Nat2Z.inj. apply parse_numbered_list_length. lia.
  - apply repeat_length.
Qed.

Lemma summarize_group_length (k : nat) (b : list FileInput) :
  length (group_output summary_failure_placeholder (_summarize_files_batch k b) b)
  = length b.
Proof.
  unfold _summarize_files_batch, _call_llm.
  destruct (create k _ _) as [response | e]; simpl.
  - apply Nat2Z.inj. apply parse_numbered_list_length. lia.
  - apply repeat_length.
Qed.

Lemma explain_functions_batch_length (settings : Settings)
    (functions : list FunctionInput) :
  (0 < LLM_BATCH_SIZE settings)%Z ->
  exists explanations,
    explain_functions_batch settings functions = Ok explanations
    /\ length explanations = length functions.
Proof.
  intros Hbs.
  pose proof (batches_positive functions _ Hbs) as Htasks.
  unfold explain_functions_batch. rewrite Htasks. cbn [rbind].
  eexists. split; [reflexivity |].
  rewrite (collect_groups _ _ _ _ _ Hbs Htasks).
  rewrite concat_imap_length by (intros k b; apply explain_group_length).
  rewrite (batches_concat _ _ _ Hbs Htasks). reflexivity.
Qed.

Lemma generate_file_summaries_batch_length (files : list FileInput) :
  exists summaries,
    generate_file_summaries_batch files = Ok summaries
    /\ length summaries = length files.
Proof.
  assert (0 < 3)%Z as Hbs by lia.
  pose proof (batches_positive files _ Hbs) as Htasks.
  unfold generate_file_summaries_batch. rewrite Htasks. cbn [rbind].
  eexists. split; [reflexivity |].
  rewrite (collect_groups _ _ _ _ _ Hbs Htasks).
  rewrite concat_imap_length by (intros k b; apply summarize_group_length).
  rewrite (batches_concat _ _ _ Hbs Htasks). reflexivity.
Qed.

End BatchMethods.

(** X1: a positive group size cuts the inputs into consecutive groups:
    put end to end the groups are the inputs, no group is empty and none
    is longer than the group size. *)
Theorem batches_partition {A} (l : list A) (bs : Z) :
  (0 < bs)%Z ->
  exists tasks,
    LLM.batches bs l = Ok tasks
    /\ concat tasks = l
    /\ Forall (BatchSpec.well_sized bs) tasks.
Proof.
  intros Hbs. rewrite batches_positive by exact Hbs.
  eexists. split; [reflexivity |]. split.
  - rewrite slices_from by lia. reflexivity.
  - apply range_from_groups; lia.
Qed.

Lemma batches_partition_witness :
  exists tasks,
    LLM.batches 3 ["a"; "b"; "c"; "d"; "e"; "f"; "g"] = Ok tasks
    /\ concat tasks = ["a"; "b"; "c"; "d"; "e"; "f"; "g"]
    /\ Forall (BatchSpec.well_sized 3) tasks.
Proof.
  apply (batches_partition ["a"; "b"; "c"; "d"; "e"; "f"; "g"] 3). lia.
Defined.

(** X2: with a positive group size, the explanations returned are, group
    by group and in the order of the groups, what the task of the group
    returned, or one placeholder for each input of the group when the
    task raised: a failure in one group changes nothing in the
    explanations of another. *)
Theorem explain_functions_batch_groupwise `{LLM.Client}
    (settings : Settings) (functions : list LLM.FunctionInput) :
  (0 < LLM_BATCH_SIZE settings)%Z ->
  (0 < LLM_MAX_CONCURRENT settings)%Z ->
  exists tasks,
    LLM.batches (LLM_BATCH_SIZE settings) functions = Ok tasks
    /\ LLM.explain_functions_batch settings functions
       = Ok (concat
               (imap (fun k batch =>
                        BatchSpec.group_output LLM.explanation_placeholder
                          (LLM._explain_functions_batch k batch) batch)
                  tasks)).
Proof.
  intros Hbs _.
  pose proof (batches_positive functions _ Hbs) as Htasks.
  eexists. split; [exact Htasks |].
  unfold LLM.explain_functions_batch. rewrite Htasks. cbn [rbind].
  f_equal. apply collect_groups; assumption.
Qed.

Lemma explain_functions_batch_groupwise_witness :
  exists tasks,
    LLM.batches 5 Fixtures.seven_functions = Ok tasks
    /\ @LLM.explain_functions_batch Fixtures.first_task_fails default_settings
         Fixtures.seven_functions
       = Ok (concat
               (imap (fun k batch =>
                        BatchSpec.group_output LLM.explanation_placeholder
                          (@LLM._explain_functions_batch
                             Fixtures.first_task_fails k batch) batch)
                  tasks)).
Proof.
  apply (@explain_functions_batch_groupwise Fixtures.first_task_fails
           default_settings Fixtures.seven_functions); simpl; lia.
Defined.

(** X3: with a positive group size the batch explanation never raises
    and returns exactly one string for each input, whatever the service
    answers and whichever of its calls fail. *)
Theorem explain_functions_batch_one_per_input `{LLM.Client}
    (settings : Settings) (functions : list LLM.FunctionInput) :
  (0 < LLM_BATCH_SIZE settings)%Z ->
  (0 < LLM_MAX_CONCURRENT settings)%Z ->
  exists explanations,
    LLM.explain_functions_batch settings functions = Ok explanations
    /\ length explanations = length functions.
Proof. intros Hbs _. apply explain_functions_batch_length, Hbs. Qed.

Lemma explain_functions_batch_one_per_input_witness :
  exists explanations,
    @LLM.explain_functions_batch Fixtures.first_task_fails default_settings
      Fixtures.seven_functions = Ok explanations
    /\ length explanations = length Fixtures.seven_functions.
Proof.
  apply (@explain_functions_batch_one_per_input Fixtures.first_task_fails
           default_settings Fixtures.seven_functions); simpl; lia.
Defined.

(** X4: a group size that is not positive. With size zero the batch
    explanation raises the ValueError of [range]; with a negative size
    no group is formed and the result is the empty list, whatever the
    inputs. In both cases the result does not depend on the service,
    which is not called. *)
Theorem explain_functions_batch_bad_size (c1 c2 : LLM.Client)
    (settings : Settings) (functions : list LLM.FunctionInput) :
  (LLM_BATCH_SIZE settings <= 0)%Z ->
  (0 < LLM_MAX_CONCURRENT settings)%Z ->
  @LLM.explain_functions_batch c1 settings functions
  = (if (LLM_BATCH_SIZE settings =? 0)%Z
     then Raise (ValueError "range() arg 3 must not be zero")
     else Ok [])
  /\ @LLM.explain_functions_batch c1 settings functions
     = @LLM.explain_functions_batch c2 settings functions.
Proof.
  intros Hbs _.
  unfold LLM.explain_functions_batch, LLM.batches, range0.
  destruct (Z.eqb_spec (LLM_BATCH_SIZE settings) 0) as [Hz | Hnz].
  - split; reflexivity.
  - destruct (Z.ltb_spec (LLM_BATCH_SIZE settings) 0) as [_ | Hge]; [| lia].
    split; reflexivity.
Qed.

Lemma explain_functions_batch_bad_size_witness :
  @LLM.explain_functions_batch Fixtures.first_task_fails
    Fixtures.zero_batch_settings Fixtures.seven_functions
  = Raise (ValueError "range() arg 3 must not be zero").
Proof.
  apply (explain_functions_batch_bad_size Fixtures.first_task_fails
           Fixtures.first_task_fails Fixtures.zero_batch_settings
           Fixtures.seven_functions); simpl; lia.
Defined.


(** ** The entries of the dependency matrix *)

Section DictGetSet.
Context {V : Type}.
Implicit Types (d : list (string * V)).

Lemma dict_get_set_eq d k v : Dict.get k (Dict.set k v d) = Some v.
Proof.
  induction d as [|[k0 v0] d IH]; simpl.
  - rewrite String.eqb_refl. reflexivity.
  - destruct (String.eqb_spec k0 k) as [-> | Hne]; simpl.
    + rewrite String.eqb_refl. reflexivity.
    + destruct (String.eqb_spec k0 k); [contradiction | exact IH].
Qed.

Lemma dict_get_set_ne d k k' v :
  k <> k' -> Dict.get k' (Dict.set k v d) = Dict.get k' d.
Proof.
  intros Hne. induction d as [|[k0 v0] d IH]; simpl.
  - destruct (String.eqb_spec k k'); [contradiction | reflexivity].
  - destruct (String.eqb_spec k0 k) as [-> | Hne0]; simpl.
    + destruct (String.eqb_spec k k'); [contradiction | reflexivity].
    + destruct (String.eqb_spec k0 k'); [reflexivity | exact IH].
Qed.

(** A dictionary comprehension with a constant value. *)
Lemma dict_get_fold {A} (key : A -> string) (v : V) (l : list A) d k :
  Dict.get k (fold_left (fun m x => Dict.set (key x) v m) l d)
  = if bool_decide (k ∈ map key l) then Some v else Dict.get k d.
Proof.
  revert d. induction l as [|x l IH]; intros d; cbn [fold_left map].
  - case_bool_decide as Hin; [| reflexivity].
    exfalso. exact (not_elem_of_nil _ Hin).
  - rewrite IH. destruct (decide (key x = k)) as [<- | Hne].
    + rewrite dict_get_set_eq.
      rewrite (bool_decide_eq_true_2 (key x ∈ key x :: map key l))
        by (apply elem_of_cons; left; reflexivity).
      case_bool_decide; reflexivity.
    + rewrite dict_get_set_ne by exact Hne.
      case_bool_decide as H1; case_bool_decide as H2; try reflexivity.
      * exfalso. apply H2. apply elem_of_cons. right. exact H1.
      * exfalso. apply elem_of_cons in H2 as [-> | H2];
          [apply Hne; reflexivity | exact (H1 H2)].
Qed.

End DictGetSet.

Section MatrixEntries.
Import Detector CycleSpec GraphSpec.

Lemma entry_initial (fs : list File) (a b : string) :
  entry (fold_left (fun m file => Dict.set (file_path file) (zero_row fs) m) fs [])
    a b
  = if bool_decide (a ∈ map file_path fs /\ b ∈ map file_path fs)
    then Some 0 else None.
Proof.
  unfold entry. rewrite (dict_get_fold file_path (zero_row fs) fs [] a).
  destruct (decide (a ∈ map file_path fs)) as [Ha | Ha].
  - rewrite (bool_decide_eq_true_2 _ Ha). unfold zero_row.
    rewrite (dict_get_fold file_path 0 fs [] b).
    destruct (decide (b ∈ map file_path fs)) as [Hb | Hb].
    + rewrite !bool_decide_eq_true_2; [reflexivity | split; assumption | exact Hb].
    + rewrite !bool_decide_eq_false_2; [reflexivity | tauto | exact Hb].
  - rewrite (bool_decide_eq_false_2 _ Ha).
    rewrite bool_decide_eq_false_2; [reflexivity | tauto].
Qed.

(** One import adds one to the entry it names, when that entry exists,
    and changes no other entry. *)
Lemma entry_count_import matrix (rel : Relationship) (a b : string) :
  entry (count_import matrix rel) a b
  = option_map (fun n => n + (if names_files a b rel then 1 else 0))
      (entry matrix a b).
Proof.
  assert (forall o : option nat, o = option_map (fun n => n + 0) o) as Hsame.
  { intros [n|]; simpl; [rewrite Nat.add_0_r |]; reflexivity. }
  unfold count_import, names_files.
  destruct (rel_metadata rel !! "source_file") as [s|] eqn:Hs.
  2: { rewrite (bool_decide_eq_false_2 (None = Some a)) by discriminate.
       apply Hsame. }
  destruct (rel_metadata rel !! "target_file") as [t|] eqn:Ht.
  2: { rewrite (bool_decide_eq_false_2 (None = Some b)) by discriminate.
       rewrite andb_false_r. apply Hsame. }
  destruct (decide (s = a)) as [-> | Hsa].
  - rewrite (bool_decide_eq_true_2 (Some a = Some a)) by reflexivity.
    cbn [andb]. unfold entry at 2.
    destruct (Dict.get a matrix) as [row|] eqn:Hrow.
    + destruct (decide (t = b)) as [-> | Htb].
      * rewrite (bool_decide_eq_true_2 (Some b = Some b)) by reflexivity.
        destruct (Dict.get b row) as [count|] eqn:Hcount.
        -- unfold entry. rewrite dict_get_set_eq, dict_get_set_eq. reflexivity.
        -- unfold entry. rewrite Hrow, Hcount. reflexivity.
      * rewrite (bool_decide_eq_false_2 (Some t = Some b)) by congruence.
        destruct (Dict.get t row) as [count|] eqn:Hcount.
        -- unfold entry. rewrite dict_get_set_eq.
           rewrite dict_get_set_ne by exact Htb. apply Hsame.
        -- unfold entry. rewrite Hrow. apply Hsame.
    + unfold entry. rewrite Hrow. reflexivity.
  - rewrite (bool_decide_eq_false_2 (Some s = Some a)) by congruence.
    cbn [andb].
    destruct (Dict.get s matrix) as [row|] eqn:Hrow; [| apply Hsame].
    destruct (Dict.get t row) as [count|] eqn:Hcount; [| apply Hsame].
    unfold entry. rewrite dict_get_set_ne by exact Hsa. apply Hsame.
Qed.

Lemma entry_count_imports (rels : list Relationship) matrix (a b : string) :
  entry (fold_left count_import rels matrix) a b
  = option_map (fun n => n + count_where (names_files a b) rels)
      (entry matrix a b).
Proof.
  revert matrix. induction rels as [|rel rels IH]; intros matrix; simpl.
  - destruct (entry matrix a b); simpl; [rewrite Nat.add_0_r |]; reflexivity.
  - rewrite IH, entry_count_import. unfold count_where. simpl.
    destruct (entry matrix a b) as [n|]; simpl; [| reflexivity].
    destruct (names_files a b rel); simpl; f_equal; lia.
Qed.

Lemma count_where_filter {A} (p q : A -> bool) (l : list A) :
  count_where q (List.filter p l) = count_where (fun x => p x && q x) l.
Proof.
  unfold count_where. induction l as [|x l IH]; simpl; [reflexivity |].
  destruct (p x); simpl; [destruct (q x); simpl; rewrite IH; reflexivity | exact IH].
Qed.

Lemma get_dependency_matrix_entry (db : Database) (repo_id : Z) (a b : string) :
  entry (get_dependency_matrix db repo_id) a b
  = if bool_decide (a ∈ repo_paths db repo_id /\ b ∈ repo_paths db repo_id)
    then Some (count_where (imports_between a b) (relationships db))
    else None.
Proof.
  unfold get_dependency_matrix.
  rewrite entry_count_imports, entry_initial. fold (repo_paths db repo_id).
  case_bool_decide; simpl; [| reflexivity].
  rewrite count_where_filter. reflexivity.
Qed.

End MatrixEntries.

(** X6: the dependency matrix has an entry for two paths exactly when
    both are paths of files of the repository, and the entry is the
    number of stored import relationships, of whatever repository, whose
    metadata names the first path as source file and the second as
    target file. *)
Theorem dependency_matrix_counts (db : Database) (repo_id : Z) (a b : string) :
  CycleSpec.entry (Detector.get_dependency_matrix db repo_id) a b
  = if bool_decide (a ∈ GraphSpec.repo_paths db repo_id
                    /\ b ∈ GraphSpec.repo_paths db repo_id)
    then Some (Detector.count_where (GraphSpec.imports_between a b)
                 (relationships db))
    else None.
Proof. apply get_dependency_matrix_entry. Qed.

(** ** The cycles that the search reports *)

Section ChainFacts.
Import GraphSpec.
Variable link : string -> string -> Prop.

Lemma chain_tail x (l : list string) : chain link (x :: l) -> chain link l.
Proof. destruct l as [|y l]; simpl; [trivial | tauto]. Qed.

Lemma chain_snoc (l : list string) (y : string) :
  chain link l ->
  match last l with Some z => link z y | None => True end ->
  chain link (l ++ [y]).
Proof.
  induction l as [|x l IH]; [simpl; trivial |].
  destruct l as [|x' l].
  - simpl. tauto.
  - intros [Hx Hl] Hlast. split; [exact Hx |].
    apply IH; [exact Hl | exact Hlast].
Qed.

Lemma chain_skipn (i : nat) (l : list string) :
  chain link l -> chain link (skipn i l).
Proof.
  revert l. induction i as [|i IH]; intros l Hl; [exact Hl |].
  destruct l as [|x l]; [exact Hl |].
  simpl. apply IH. exact (chain_tail x l Hl).
Qed.

Lemma chain_impl (link' : string -> string -> Prop) (l : list string) :
  (forall x y, link x y -> link' x y) -> chain link l -> chain link' l.
Proof.
  intros Himpl. induction l as [|x l IH]; [trivial |].
  destruct l as [|y l]; [trivial |].
  intros [Hx Hl]. split; [apply Himpl, Hx | apply IH, Hl].
Qed.

End ChainFacts.

Section PathFacts.
Import Detector.

Lemma last_skipn (i : nat) (l : list string) :
  i < length l -> last (skipn i l) = last l.
Proof.
  revert l. induction i as [|i IH]; intros l Hi; [reflexivity |].
  destruct l as [|x l]; [simpl in Hi; lia |].
  simpl in Hi. cbn [skipn]. rewrite IH by lia.
  destruct l as [|y l]; [simpl in Hi; lia | reflexivity].
Qed.

Lemma index_of_skipn (x : string) (l : list string) (i : nat) :
  index_of x l = Some i -> exists mid, skipn i l = x :: mid.
Proof.
  revert i. induction l as [|y l IH]; intros i; simpl; [discriminate |].
  destruct (String.eqb_spec y x) as [-> | Hne].
  - intros [= <-]. eexists. reflexivity.
  - destruct (index_of x l) as [j|]; [| discriminate].
    intros [= <-]. exact (IH j eq_refl).
Qed.

Lemma index_of_bound (x : string) (l : list string) (i : nat) :
  index_of x l = Some i -> i < length l.
Proof.
  revert i. induction l as [|y l IH]; intros i; simpl; [discriminate |].
  destruct (String.eqb y x); [intros [= <-]; lia |].
  destruct (index_of x l) as [j|]; [| discriminate].
  intros [= <-]. specialize (IH j eq_refl). lia.
Qed.

Lemma NoDup_skipn (i : nat) (l : list string) : NoDup l -> NoDup (skipn i l).
Proof.
  intros Hl. rewrite <- (firstn_skipn i l) in Hl.
  apply NoDup_app in Hl. tauto.
Qed.

End PathFacts.

Section SearchSound.
Import Detector CycleSpec GraphSpec.
Variable matrix : list (string * list (string * nat)).

Lemma Sound_record st (cycle : list string) :
  Sound matrix st -> simple_cycle matrix cycle -> cycle ∉ cycles st ->
  Sound matrix {| visited := visited st; rec_stack := rec_stack st;
                  path := path st; cycles := cycles st ++ [cycle] |}.
Proof.
  intros [Hv Hs Hn Hw Hc Ho] Hcycle Hnew. split; cbn [visited rec_stack path cycles];
    try assumption.
  - apply Forall_app. split; [exact Hc |]. constructor; [exact Hcycle | constructor].
  - apply NoDup_app. split; [exact Ho |]. split.
    + intros c Hc1 Hc2. apply list_elem_of_singleton in Hc2 as ->.
      exact (Hnew Hc1).
    + apply NoDup_singleton.
Qed.

(** A back edge from the end of the path closes a simple cycle. *)
Lemma back_edge_cycle (p : list string) (z y : string) (i : nat) :
  NoDup p -> chain (edge matrix) p -> last p = Some z -> edge matrix z y ->
  index_of y p = Some i ->
  simple_cycle matrix (skipn i p ++ [y]).
Proof.
  intros Hn Hw Hlast Hzy Hi.
  destruct (index_of_skipn y p i Hi) as [mid Hmid].
  exists y, mid. split; [rewrite Hmid; reflexivity |]. split.
  - rewrite <- Hmid. apply NoDup_skipn, Hn.
  - apply chain_snoc; [apply chain_skipn, Hw |].
    rewrite last_skipn by (exact (index_of_bound y p i Hi)).
    rewrite Hlast. exact Hzy.
Qed.

Lemma visit_neighbor_sound (depth : nat) (z : string) (row : list (string * nat))
    st (y : string) (count : nat) st' :
  dfs_sound matrix depth ->
  Dict.get z matrix = Some row -> In (y, count) row ->
  last (path st) = Some z -> Sound matrix st ->
  visit_neighbor (dfs depth matrix) st (y, count) = Ok st' ->
  Sound matrix st' /\ path st' = path st /\ rec_stack st' = rec_stack st
  /\ visited st ⊆ visited st'.
Proof.
  intros IH Hrow Hin Hlast Hsound. unfold visit_neighbor.
  destruct (Nat.ltb_spec 0 count) as [Hpos | _];
    [| intros [= <-]; auto].
  assert (edge matrix z y) as Hzy by (exists row, count; auto).
  case_bool_decide as Hnew.
  { intros Hrun. apply (IH y st st' Hrun Hsound Hnew).
    unfold linked. rewrite Hlast. exact Hzy. }
  case_bool_decide as Hstack; [| intros [= <-]; auto].
  destruct (index_of y (path st)) as [i|] eqn:Hi; [| discriminate].
  case_bool_decide as Hfresh; intros [= <-]; [| auto].
  split; [| cbn [visited rec_stack path]; auto].
  apply Sound_record; [exact Hsound | | exact Hfresh].
  exact (back_edge_cycle (path st) z y i (sound_nodup _ _ Hsound)
           (sound_walk _ _ Hsound) Hlast Hzy Hi).
Qed.

Lemma neighbors_sound (depth : nat) (z : string) (row : list (string * nat))
    (items : list (string * nat)) st st' :
  dfs_sound matrix depth ->
  Dict.get z matrix = Some row -> (forall item, In item items -> In item row) ->
  last (path st) = Some z -> Sound matrix st ->
  for_each (visit_neighbor (dfs depth matrix)) items st = Ok st' ->
  Sound matrix st' /\ path st' = path st /\ rec_stack st' = rec_stack st
  /\ visited st ⊆ visited st'.
Proof.
  intros IH Hrow. revert st.
  induction items as [|[y count] items IHitems]; intros st Hsub Hlast Hsound.
  - intros [= <-]. auto.
  - cbn [for_each].
    destruct (visit_neighbor (dfs depth matrix) st (y, count)) as [st1|e] eqn:Hstep;
      [| discriminate].
    intros Hrest.
    destruct (visit_neighbor_sound depth z row st y count st1 IH Hrow
                (Hsub _ (or_introl eq_refl)) Hlast Hsound Hstep)
      as (Hsound1 & Hpath1 & Hstack1 & Hvis1).
    destruct (IHitems st1) as (Hsound' & Hpath' & Hstack' & Hvis');
      [intros item Hitem; apply Hsub; right; exact Hitem
      | rewrite Hpath1; exact Hlast | exact Hsound1 | exact Hrest |].
    split; [exact Hsound' |]. split; [congruence |]. split; [congruence |].
    set_solver.
Qed.

Lemma dfs_sound_all (depth : nat) : dfs_sound matrix depth.
Proof.
  induction depth as [|depth IH]; intros node st st' Hrun Hsound Hnv Hlink;
    [discriminate Hrun |].
  cbn [dfs] in Hrun.
  destruct (Dict.get node matrix) as [row|] eqn:Hrow; [| discriminate].
  set (st1 := {| visited := {[node]} ∪ visited st;
                 rec_stack := {[node]} ∪ rec_stack st;
                 path := path st ++ [node];
                 cycles := cycles st |}) in Hrun.
  destruct Hsound as [Hv Hs Hn Hw Hc Ho].
  assert (node ∉ rec_stack st) as Hnr by (intros Hr; apply Hnv, Hv, Hr).
  assert (Sound matrix st1) as Hsound1.
  { unfold st1. split; cbn [visited rec_stack path cycles]; try assumption.
    - set_solver.
    - intros x. rewrite in_app_iff, elem_of_union, elem_of_singleton, Hs.
      simpl. intuition congruence.
    - apply NoDup_app. split; [exact Hn |]. split; [| apply NoDup_singleton].
      intros x Hx Hx'. apply list_elem_of_singleton in Hx' as ->.
      apply Hnr, Hs, list_elem_of_In, Hx.
    - apply chain_snoc; [exact Hw | exact Hlink]. }
  destruct (for_each (visit_neighbor (dfs depth matrix)) row st1) as [st2|e]
    eqn:Hloop; [| discriminate].
  destruct (neighbors_sound depth node row row st1 st2 IH Hrow
              (fun _ H => H) (last_snoc _ _) Hsound1 Hloop)
    as (Hsound2 & Hpath2 & Hstack2 & Hvis2).
  cbn [path rec_stack visited st1] in Hpath2, Hstack2, Hvis2.
  assert (removelast (path st2) = path st) as Hpop
    by (rewrite Hpath2; apply removelast_last).
  assert (rec_stack st2 ∖ {[node]} = rec_stack st) as Hrem
    by (rewrite Hstack2; set_solver).
  rewrite Hpop, Hrem in Hrun.
  destruct (path st2) as [|p0 ps];
    [destruct (path st); discriminate Hpath2 |].
  case_bool_decide as Hin; [| discriminate]. injection Hrun as <-.
  destruct Hsound2 as [Hv2 Hs2 Hn2 Hw2 Hc2 Ho2].
  split; [| cbn [visited rec_stack path]; split; [reflexivity |];
            split; [reflexivity | set_solver]].
  split; cbn [visited rec_stack path cycles]; try assumption.
  set_solver.
Qed.

(** The loop over the roots. *)
Lemma roots_sound (roots : list string) st st' :
  Sound matrix st -> path st = [] ->
  for_each
    (fun st file_path =>
       if bool_decide (file_path ∉ visited st)
       then dfs (S (length matrix)) matrix file_path
              {| visited := visited st; rec_stack := rec_stack st;
                 path := []; cycles := cycles st |}
       else Ok st) roots st = Ok st' ->
  Sound matrix st'.
Proof.
  revert st. induction roots as [|k roots IH]; intros st Hsound Hpath;
    [intros [= <-]; exact Hsound |].
  cbn [for_each]. case_bool_decide as Hnew.
  - destruct (dfs _ matrix k _) as [st1|e] eqn:Hrun; [| discriminate].
    assert ({| visited := visited st; rec_stack := rec_stack st;
               path := []; cycles := cycles st |} = st) as Hst
      by (destruct st; simpl in Hpath; subst; reflexivity).
    rewrite Hst in Hrun.
    destruct (dfs_sound_all _ k st st1 Hrun Hsound Hnew) as (Hsound1 & Hpath1 & _).
    { unfold linked. rewrite Hpath. exact I. }
    apply IH; [exact Hsound1 | congruence].
  - apply IH; assumption.
Qed.

Lemma Sound_init : Sound matrix dfs_init.
Proof.
  split; simpl; try constructor; try set_solver.
Qed.

Lemma find_cycles_Sound (found : list (list string)) :
  find_cycles matrix = Ok found ->
  Forall (simple_cycle matrix) found /\ NoDup found.
Proof.
  unfold find_cycles.
  destruct (for_each _ (Dict.keys matrix) dfs_init) as [st|e] eqn:Hrun;
    [| discriminate].
  intros [= <-].
  pose proof (roots_sound _ _ _ Sound_init eq_refl Hrun) as Hsound.
  split; [exact (sound_cycles _ _ Hsound) | exact (sound_once _ _ Hsound)].
Qed.

End SearchSound.

Section MatrixKeys.
Import Detector CycleSpec GraphSpec.

Lemma dict_set_keys_NoDup {V} (d : list (string * V)) k v :
  NoDup (Dict.keys d) -> NoDup (Dict.keys (Dict.set k v d)).
Proof.
  intros Hd. destruct (in_dec string_dec k (Dict.keys d)) as [Hin | Hout].
  - rewrite dict_keys_set_in by exact Hin. exact Hd.
  - rewrite dict_keys_set_notin by exact Hout.
    apply NoDup_app. split; [exact Hd |]. split; [| apply NoDup_singleton].
    intros x Hx Hx'. apply list_elem_of_singleton in Hx' as ->.
    apply Hout, list_elem_of_In, Hx.
Qed.

Lemma dict_get_In_NoDup {V} (d : list (string * V)) k v :
  NoDup (Dict.keys d) -> In (k, v) d -> Dict.get k d = Some v.
Proof.
  induction d as [|[k0 v0] d IH]; intros Hd Hin; [destruct Hin |].
  simpl in Hd. apply NoDup_cons in Hd as [Hk0 Hd]. simpl.
  destruct Hin as [[= -> ->] | Hin].
  - rewrite String.eqb_refl. reflexivity.
  - destruct (String.eqb_spec k0 k) as [-> | Hne]; [| exact (IH Hd Hin)].
    exfalso. apply Hk0, list_elem_of_In. exact (dict_In_keys _ _ _ Hin).
Qed.

Lemma dict_fold_keys_NoDup {A V} (key : A -> string) (v : V) (l : list A)
    (d : list (string * V)) :
  NoDup (Dict.keys d) ->
  NoDup (Dict.keys (fold_left (fun m x => Dict.set (key x) v m) l d)).
Proof.
  revert d. induction l as [|x l IH]; intros d Hd; simpl; [exact Hd |].
  apply IH, dict_set_keys_NoDup, Hd.
Qed.

Lemma get_dependency_matrix_keys_NoDup (db : Database) (repo_id : Z) :
  NoDup (Dict.keys (get_dependency_matrix db repo_id)).
Proof.
  unfold get_dependency_matrix.
  set (fs := List.filter (fun f => bool_decide (file_repo_id f = repo_id)) (files db)).
  set (m0 := fold_left (fun m file => Dict.set (file_path file) (zero_row fs) m) fs []).
  assert (square m0) as Hsq0.
  { intros k row Hin.
    assert (row = zero_row fs) as ->.
    { eapply initial_matrix_rows; [| exact Hin]. intros k0 row0 []. }
    symmetry. apply initial_matrix_keys. reflexivity. }
  assert (NoDup (Dict.keys m0)) as Hnd0
    by (apply dict_fold_keys_NoDup; constructor).
  clearbody m0.
  induction (List.filter (fun r => bool_decide (relationship_type r = IMPORTS))
               (relationships db)) as [|rel rels IH] in m0, Hsq0, Hnd0 |- *; simpl.
  - exact Hnd0.
  - destruct (count_import_square m0 rel Hsq0) as [Hsq1 Hkeys].
    apply IH; [exact Hsq1 | rewrite Hkeys; exact Hnd0].
Qed.

(** An edge of the matrix of a repository is a positive entry. *)
Lemma edge_entry (db : Database) (repo_id : Z) (a b : string) :
  edge (get_dependency_matrix db repo_id) a b ->
  exists count,
    entry (get_dependency_matrix db repo_id) a b = Some count /\ 0 < count.
Proof.
  intros (row & count & Hrow & Hin & Hpos). exists count. split; [| exact Hpos].
  unfold entry. rewrite Hrow. apply dict_get_In_NoDup; [| exact Hin].
  rewrite (get_dependency_matrix_square db repo_id a row)
    by (apply dict_get_Some_In, Hrow).
  apply get_dependency_matrix_keys_NoDup.
Qed.

Lemma count_where_pos {A} (p : A -> bool) (l : list A) :
  0 < count_where p l -> exists x, In x l /\ p x = true.
Proof.
  unfold count_where. induction l as [|x l IH]; simpl; [lia |].
  destruct (p x) eqn:Hp.
  - intros _. exists x. auto.
  - intros Hpos. destruct (IH Hpos) as (y & Hy & Hpy). exists y. auto.
Qed.

Lemma edge_imported_by (db : Database) (repo_id : Z) (a b : string) :
  edge (get_dependency_matrix db repo_id) a b -> imported_by db repo_id a b.
Proof.
  intros Hedge. destruct (edge_entry db repo_id a b Hedge) as (count & Hentry & Hpos).
  rewrite get_dependency_matrix_entry in Hentry.
  case_bool_decide as Hpaths; [| discriminate]. injection Hentry as <-.
  destruct Hpaths as [Ha Hb]. split; [exact Ha |]. split; [exact Hb |].
  apply count_where_pos, Hpos.
Qed.

End MatrixKeys.


(** X8: whatever the matrix, every cycle that the search returns is a
    walk along positive entries of the matrix that ends in the node it
    starts from and passes through no node twice on the way; and no
    cycle is returned twice. *)
Theorem find_cycles_reports_simple_cycles
    (matrix : list (string * list (string * nat))) (found : list (list string)) :
  Detector.find_cycles matrix = Ok found ->
  Forall (GraphSpec.simple_cycle matrix) found /\ NoDup found.
Proof. apply find_cycles_Sound. Qed.

Lemma find_cycles_reports_simple_cycles_witness :
  Forall (GraphSpec.simple_cycle Fixtures.mutual_imports)
    [["a.py"; "b.py"; "a.py"]]
  /\ NoDup [["a.py"; "b.py"; "a.py"]].
Proof.
  apply (find_cycles_reports_simple_cycles Fixtures.mutual_imports).
  vm_compute. reflexivity.
Defined.

(** X9: every step of a circular dependency reported for a repository is
    backed by the database: the two files are files of the repository
    and a stored import relationship names them as source file and
    target file. *)
Theorem circular_dependencies_follow_imports
    (db : Database) (repo_id : Z) (found : list (list string)) :
  Detector.detect_circular_dependencies db repo_id = Ok found ->
  Forall (GraphSpec.closed_walk (GraphSpec.imported_by db repo_id)) found.
Proof.
  intros Hrun. apply find_cycles_Sound in Hrun as [Hcycles _].
  eapply Forall_impl; [exact Hcycles |].
  intros cyc (x & mid & Hshape & Hnodup & Hchain).
  exists x, mid. split; [exact Hshape |]. split; [exact Hnodup |].
  eapply chain_impl; [| exact Hchain].
  intros a b. apply edge_imported_by.
Qed.

Lemma circular_dependencies_follow_imports_witness :
  Forall (GraphSpec.closed_walk (GraphSpec.imported_by Fixtures.mutual_import_db 1))
    [["a.py"; "b.py"; "a.py"]].
Proof.
  apply (circular_dependencies_follow_imports Fixtures.mutual_import_db 1).
  vm_compute. reflexivity.
Defined.

(** ** The relationships that the detector creates *)

Section NameMap.
Import Re Detector.

Lemma last_cons_some {A} (x : A) (l : list A) :
  last (x :: l) = match last l with Some y => Some y | None => Some x end.
Proof.
  destruct l as [|y l]; [reflexivity |].
  change (last (x :: y :: l)) with (last (y :: l)).
  destruct (last (y :: l)) eqn:Hl; [reflexivity |].
  apply last_None in Hl. discriminate Hl.
Qed.

(** The name map gives, for a name, the last entity of that name. *)
Lemma build_entity_map_lookup (entities : list Entity) (name : string) :
  build_entity_map entities !! name
  = last (List.filter (fun e => String.eqb (entity_name e) name) entities).
Proof.
  unfold build_entity_map.
  assert (forall (l : list Entity) (m : gmap string Entity),
             fold_left (fun m entity => <[entity_name entity := entity]> m) l m
               !! name
             = match last (List.filter (fun e => String.eqb (entity_name e) name) l)
               with
               | Some e => Some e
               | None => m !! name
               end) as Hgen.
  { induction l as [|x l IH]; intros m; [reflexivity |].
    cbn [fold_left List.filter]. rewrite IH.
    destruct (String.eqb_spec (entity_name x) name) as [Heq | Hne].
    - rewrite last_cons_some.
      destruct (last (List.filter _ l)); [reflexivity |].
      rewrite <- Heq. apply lookup_insert_eq.
    - destruct (last (List.filter _ l)); [reflexivity |].
      apply lookup_insert_ne, Hne. }
  rewrite Hgen, lookup_empty.
  destruct (last (List.filter _ entities)); reflexivity.
Qed.

Lemma build_entity_map_name (entities : list Entity) (name : string) (e : Entity) :
  build_entity_map entities !! name = Some e -> entity_name e = name.
Proof.
  rewrite build_entity_map_lookup. intros Hlast.
  assert (In e (List.filter (fun e => String.eqb (entity_name e) name) entities))
    as Hin.
  { apply list_elem_of_In. apply last_Some in Hlast as [l' ->].
    apply elem_of_app. right. apply list_elem_of_singleton. reflexivity. }
  apply filter_In in Hin as [_ Heq]. apply String.eqb_eq, Heq.
Qed.

Lemma edges_to_kept (entity_map : gmap string Entity) (entity : Entity)
    (kind : RelationshipType) (keep : string -> bool) (names : gset string)
    (rel : Relationship) :
  In rel (edges_to entity_map entity kind keep names) ->
  exists name target,
    entity_map !! name = Some target /\ keep name = true
    /\ rel = new_relationship entity target kind.
Proof.
  unfold edges_to. rewrite in_flat_map. intros (name & _ & Hrel).
  destruct (entity_map !! name) as [target|] eqn:Hm; [| destruct Hrel].
  destruct (keep name) eqn:Hkeep; [| destruct Hrel].
  destruct Hrel as [<- | []]. exists name, target. auto.
Qed.

Lemma entity_relationships_kept `{Engine} `{Identifiers}
    (entity_map : gmap string Entity) (entity : Entity) (rel : Relationship) :
  In rel (entity_relationships entity_map entity) ->
  exists name target kind,
    entity_map !! name = Some target
    /\ rel = new_relationship entity target kind
    /\ (kind = CALLS -> name <> entity_name entity).
Proof.
  unfold entity_relationships.
  destruct (code_snippet entity) as [code|]; [| intros []].
  destruct (negb (truthy_str code)); [intros [] |].
  rewrite !in_app_iff. intros [Hc | [Hc | Hc]].
  - apply edges_to_kept in Hc as (name & target & Hm & Hkeep & ->).
    exists name, target, CALLS. split; [exact Hm |]. split; [reflexivity |].
    intros _ Heq. rewrite Heq, String.eqb_refl in Hkeep. discriminate Hkeep.
  - destruct (bool_decide (entity_type entity = CLASS)); [| destruct Hc].
    apply edges_to_kept in Hc as (name & target & Hm & _ & ->).
    exists name, target, CONTAINS. split; [exact Hm |]. split; [reflexivity |].
    discriminate.
  - destruct (bool_decide (entity_type entity = CLASS)); [| destruct Hc].
    apply edges_to_kept in Hc as (name & target & Hm & _ & ->).
    exists name, target, INHERITS. split; [exact Hm |]. split; [reflexivity |].
    discriminate.
Qed.

End NameMap.

Section ImportFacts.
Import Re Detector GraphSpec ImportMatch.

Lemma dict_set_keys_sub {V} (d : list (string * V)) k v k' :
  In k' (Dict.keys (Dict.set k v d)) -> k' = k \/ In k' (Dict.keys d).
Proof.
  destruct (in_dec string_dec k (Dict.keys d)) as [Hin | Hout].
  - rewrite dict_keys_set_in by exact Hin. auto.
  - rewrite dict_keys_set_notin by exact Hout. rewrite in_app_iff.
    intros [Hk | [<- | []]]; auto.
Qed.

Lemma file_map_keys_paths (fs : list File) (k : string) :
  In k (file_map_keys fs) -> In k (map file_path fs).
Proof.
  unfold file_map_keys.
  assert (forall (l : list File) (d : list (string * File)),
             In k (Dict.keys (fold_left (fun m file => Dict.set (file_path file) file m)
                                l d)) ->
             In k (Dict.keys d) \/ In k (map file_path l)) as Hgen.
  { induction l as [|f l IH]; intros d Hk; simpl in *; [auto |].
    destruct (IH _ Hk) as [Hd | Hl]; [| auto].
    apply dict_set_keys_sub in Hd as [-> | Hd]; auto. }
  intros Hk. destruct (Hgen _ _ Hk) as [[] | Hin]. exact Hin.
Qed.

Lemma entity_imports_inv `{Engine} (paths : list string) (file : File)
    (entity : Entity) (rel : Relationship) :
  In rel (entity_imports paths file entity) ->
  exists imported target,
    rel = import_relationship entity file target imported
    /\ In target paths /\ _is_import_match imported target = true.
Proof.
  unfold entity_imports.
  destruct (code_snippet entity) as [code|]; [| intros []].
  destruct (negb (truthy_str code)); [intros [] |].
  rewrite in_flat_map. intros (imported & _ & Hrel).
  destruct (first_match imported paths) as [target|] eqn:Hfirst; [| destruct Hrel].
  destruct Hrel as [<- | []].
  apply find_some in Hfirst as [Hin Hmatch].
  exists imported, target. auto.
Qed.

End ImportFacts.

(** X10: a relationship between two entities always ends at the last
    entity of the repository that bears the name found in the code, so
    that of several entities of one name only the last one is ever a
    target; and a call never links an entity to an entity of its own
    name. *)
Theorem relationships_resolve_to_last_of_name `{Re.Engine} `{Detector.Identifiers}
    (db : Database) (repo_id : Z) (rel : Relationship) :
  In rel (Detector.entity_level_relationships db repo_id) ->
  exists source target,
    In source (Detector.repo_entities db repo_id)
    /\ source_entity_id rel = Some (entity_id source)
    /\ target_entity_id rel = Some (entity_id target)
    /\ last (List.filter
               (fun e => String.eqb (entity_name e) (entity_name target))
               (Detector.repo_entities db repo_id)) = Some target
    /\ (relationship_type rel = CALLS ->
        entity_name target <> entity_name source).
Proof.
  unfold Detector.entity_level_relationships. rewrite in_flat_map.
  intros (source & Hsource & Hrel).
  apply entity_relationships_kept in Hrel
    as (name & target & kind & Hm & -> & Hcalls).
  pose proof (build_entity_map_name _ _ _ Hm) as Hname.
  exists source, target. split; [exact Hsource |].
  split; [reflexivity |]. split; [reflexivity |]. split.
  - rewrite Hname, <- build_entity_map_lookup. exact Hm.
  - simpl. intros Hkind. rewrite Hname. apply Hcalls, Hkind.
Qed.

Lemma relationships_resolve_to_last_of_name_witness :
  exists source target,
    In source (Detector.repo_entities Fixtures.two_repositories 1)
    /\ entity_id source = 2%Z /\ entity_id target = 1%Z
    /\ entity_name target <> entity_name source.
Proof.
  destruct (@relationships_resolve_to_last_of_name
              Fixtures.main_calls_helper Fixtures.ascii_identifiers
              Fixtures.two_repositories 1%Z (Fixtures.call 2 1))
    as (source & target & Hs & Hsrc & Htgt & _ & Hne).
  - vm_compute. left. reflexivity.
  - exists source, target. simpl in Hsrc, Htgt.
    split; [exact Hs |]. split; [congruence |]. split; [congruence |].
    apply Hne. reflexivity.
Defined.

(** X11: an import relationship is recorded for an entity of a file of
    the repository, has no target entity, and names as target file the
    path of a file of the same repository that the import matches. *)
Theorem import_relationship_names_matching_file `{Re.Engine}
    (db : Database) (repo_id : Z) (rel : Relationship) :
  In rel (Detector._detect_imports db repo_id) ->
  exists file entity imported target,
    In file (files db) /\ file_repo_id file = repo_id
    /\ In entity (entities db) /\ entity_file_id entity = file_id file
    /\ rel = Detector.import_relationship entity file target imported
    /\ In target (GraphSpec.repo_paths db repo_id)
    /\ ImportMatch._is_import_match imported target = true.
Proof.
  unfold Detector._detect_imports. rewrite in_flat_map.
  intros (file & Hfile & Hrel).
  apply filter_In in Hfile as [Hfile Hrepo]. apply bool_decide_eq_true in Hrepo.
  apply in_flat_map in Hrel as (entity & Hentity & Hrel).
  apply filter_In in Hentity as [Hentity Hfid]. apply bool_decide_eq_true in Hfid.
  apply entity_imports_inv in Hrel as (imported & target & -> & Htarget & Hmatch).
  exists file, entity, imported, target.
  repeat (split; [assumption || reflexivity |]).
  split; [| exact Hmatch]. apply file_map_keys_paths, Htarget.
Qed.

Lemma import_relationship_names_matching_file_witness :
  exists file entity imported target,
    In file (files Fixtures.importing_db)
    /\ In entity (entities Fixtures.importing_db)
    /\ In target (GraphSpec.repo_paths Fixtures.importing_db 1)
    /\ ImportMatch._is_import_match imported target = true.
Proof.
  destruct (@import_relationship_names_matching_file Fixtures.finds_import
              Fixtures.importing_db 1%Z
              (Fixtures.import_edge 7 "main.py" "pkg/util.py" "pkg.util"))
    as (file & entity & imported & target & Hf & _ & He & _ & _ & Ht & Hm).
  - vm_compute. left. reflexivity.
  - exists file, entity, imported, target. auto.
Defined.

(** X12: detection does not look at the relationships already stored:
    run a second time on the same repository it appends the same
    relationships once more and returns the same number. *)
Theorem detect_all_relationships_twice `{Re.Engine} `{Detector.Identifiers}
    (db : Database) (repo_id : Z) :
  let created := Detector.entity_level_relationships db repo_id
                 ++ Detector._detect_imports db repo_id in
  let once := Detector.detect_all_relationships db repo_id in
  let twice := Detector.detect_all_relationships (fst once) repo_id in
  relationships (fst once) = relationships db ++ created
  /\ relationships (fst twice) = relationships db ++ created ++ created
  /\ snd twice = snd once.
Proof.
  cbv zeta. unfold Detector.detect_all_relationships.
  cbn [fst snd relationships].
  split; [reflexivity |]. split; [| reflexivity].
  rewrite <- !app_assoc. reflexivity.
Qed.

(** X13: the call graph has no isolated node: every node is a stored
    entity that is the source or the target of at least one call; and
    the graph has exactly one edge for each stored call. *)
Theorem call_graph_nodes_have_edges (db : Database) (repo_id : Z) :
  Forall (fun n =>
            1 <= Detector.in_degree n + Detector.out_degree n
            /\ exists e, In e (entities db)
                         /\ Detector.node_id n = entity_id e
                         /\ Detector.node_name n = entity_name e)
    (Detector.nodes (Detector.get_call_graph db repo_id))
  /\ length (Detector.edges (Detector.get_call_graph db repo_id))
     = Detector.count_where
         (fun r => bool_decide (relationship_type r = CALLS)) (relationships db).
Proof.
  unfold Detector.get_call_graph. cbn [Detector.nodes Detector.edges].
  split; [| rewrite length_map; reflexivity].
  apply Forall_forall. intros n Hn. apply list_elem_of_In in Hn.
  apply in_map_iff in Hn as (e & <- & He).
  apply filter_In in He as [He Hid]. apply bool_decide_eq_true in Hid.
  cbn [Detector.in_degree Detector.out_degree Detector.node_id Detector.node_name].
  split; [| exists e; auto].
  apply entity_ids_spec in Hid as [Hempty | (rel & Hrel & Hend)];
    [set_solver |].
  unfold Detector.count_where.
  destruct Hend as [Hsrc | Htgt].
  - assert (In rel (List.filter
                      (fun r => bool_decide (source_entity_id r = Some (entity_id e)))
                      (List.filter
                         (fun r => bool_decide (relationship_type r = CALLS))
                         (relationships db)))) as Hin
      by (apply filter_In; split; [exact Hrel | apply bool_decide_eq_true, Hsrc]).
    destruct (List.filter
                (fun r => bool_decide (source_entity_id r = Some (entity_id e))) _);
      [destruct Hin | simpl; lia].
  - assert (In rel (List.filter
                      (fun r => bool_decide (target_entity_id r = Some (entity_id e)))
                      (List.filter
                         (fun r => bool_decide (relationship_type r = CALLS))
                         (relationships db)))) as Hin
      by (apply filter_In; split; [exact Hrel | apply bool_decide_eq_true, Htgt]).
    destruct (List.filter
                (fun r => bool_decide (target_entity_id r = Some (entity_id e))) _);
      [destruct Hin | simpl; lia].
Qed.

(** ** What the extraction returns *)

Section ExtractionFacts.
Import Re Parser ParserSpec.
Context `{Engine}.

Lemma entity_of_node_type (kind content : string) (child : Node)
    (e : CandidateEntity) :
  In e (entity_of_node kind content child) -> ce_type e = kind.
Proof.
  unfold entity_of_node. destruct (name_node child) as [[a b]|]; [| intros []].
  intros [<- | []]. reflexivity.
Qed.

Lemma extract_python_types (children : list Node) (content : string)
    (e : CandidateEntity) :
  In e (_extract_python_entities children content) ->
  ce_type e = "function" \/ ce_type e = "class".
Proof.
  unfold _extract_python_entities. rewrite in_flat_map. intros (child & _ & He).
  destruct (String.eqb (node_type child) "function_definition");
    [left; exact (entity_of_node_type _ _ _ _ He) |].
  destruct (String.eqb (node_type child) "class_definition");
    [right; exact (entity_of_node_type _ _ _ _ He) | destruct He].
Qed.

Lemma extract_js_types (children : list Node) (content : string)
    (e : CandidateEntity) :
  In e (_extract_js_entities children content) ->
  ce_type e = "function" \/ ce_type e = "class".
Proof.
  unfold _extract_js_entities. rewrite in_flat_map. intros (child & _ & He).
  destruct (String.eqb (node_type child) "function_declaration"
            || String.eqb (node_type child) "method_definition");
    [left; exact (entity_of_node_type _ _ _ _ He) |].
  destruct (String.eqb (node_type child) "class_declaration");
    [right; exact (entity_of_node_type _ _ _ _ He) | destruct He].
Qed.

Lemma fallback_python_line_inv (il : Z * string) (e : CandidateEntity) :
  In e (fallback_python_line il) -> of_line il e.
Proof.
  destruct il as [i line]. unfold fallback_python_line, of_line, line_entity.
  destruct (re_match def_pattern line) as [name|].
  - intros [<- | []]. unfold declared_kind. simpl. auto.
  - destruct (re_match class_pattern line) as [name|]; [| intros []].
    intros [<- | []]. unfold declared_kind. simpl. auto.
Qed.

Lemma fallback_js_line_inv (il : Z * string) (e : CandidateEntity) :
  In e (fallback_js_line il) -> of_line il e.
Proof.
  destruct il as [i line]. unfold fallback_js_line, of_line, line_entity.
  rewrite in_app_iff. intros [He | He].
  - destruct (first_search _ line) as [name|]; [| destruct He].
    destruct He as [<- | []]. unfold declared_kind. simpl. auto.
  - destruct (re_match class_pattern line) as [name|]; [| destruct He].
    destruct He as [<- | []]. unfold declared_kind. simpl. auto.
Qed.

Lemma fallback_extract_inv (content language : string) (e : CandidateEntity) :
  In e (_fallback_extract content language) ->
  exists (i : nat) (line : string),
    PyStr.split PyStr.nl content !! i = Some line
    /\ of_line (Z.of_nat (S i), line) e.
Proof.
  unfold _fallback_extract.
  assert (forall il, In il (enumerate1 (PyStr.split PyStr.nl content)) ->
                     exists (i : nat) (line : string),
                       PyStr.split PyStr.nl content !! i = Some line
                       /\ il = (Z.of_nat (S i), line)) as Hlines.
  { intros il Hil. apply list_elem_of_In in Hil. unfold enumerate1 in Hil.
    apply elem_of_lookup_imap in Hil as (i & line & -> & Hline).
    exists i, line. auto. }
  destruct (String.eqb language "python"); rewrite in_flat_map;
    intros (il & Hil & He); destruct (Hlines il Hil) as (i & line & Hline & ->);
    exists i, line; (split; [exact Hline |]).
  - apply fallback_python_line_inv, He.
  - apply fallback_js_line_inv, He.
Qed.

Lemma parse_file_declared_kind `{TreeSitter} (content language : string) :
  Forall declared_kind (parse_file content language).
Proof.
  assert (Forall declared_kind (_fallback_extract content language)) as Hfallback.
  { apply Forall_forall. intros e He. apply list_elem_of_In in He.
    apply fallback_extract_inv in He as (i & line & _ & _ & _ & _ & Hk).
    exact Hk. }
  unfold parse_file.
  destruct (negb (bool_decide (language ∈ supported_languages)));
    [constructor |].
  destruct (tree_sitter_ok && bool_decide (language ∈ parsers));
    [| exact Hfallback].
  destruct (parse language content) as [children | e]; [| exact Hfallback].
  apply Forall_forall. intros e He. apply list_elem_of_In in He.
  destruct (String.eqb language "python");
    [exact (extract_python_types _ _ _ He) | exact (extract_js_types _ _ _ He)].
Qed.

End ExtractionFacts.

(** X14: whatever the text, the language and the behaviour of the
    grammar-based parser, every entity that the extraction returns is
    declared a function or a class, so that the conversion of its type
    into an entity type of the database cannot fail. *)
Theorem parse_file_entity_types `{Re.Engine} `{Parser.TreeSitter}
    (content language : string) :
  Forall (fun e => ParserSpec.declared_kind e
                   /\ exists kind,
                        Analysis.entity_type_of_value (Parser.ce_type e) = Ok kind
                        /\ (kind = FUNCTION \/ kind = CLASS))
    (Parser.parse_file content language).
Proof.
  assert (forall e, ParserSpec.declared_kind e ->
                    ParserSpec.declared_kind e
                    /\ exists kind,
                         Analysis.entity_type_of_value (Parser.ce_type e) = Ok kind
                         /\ (kind = FUNCTION \/ kind = CLASS)) as Hkind.
  { intros e He. split; [exact He |].
    destruct He as [-> | ->]; eexists; (split; [reflexivity | auto]). }
  eapply Forall_impl; [| exact Hkind].
  apply parse_file_declared_kind.
Qed.

(** X15: every entity found by the line patterns is one line of the
    text: its first and last line are the number of that line, counted
    from one, and its code is that line without the surrounding white
    space. *)
Theorem fallback_extract_one_line_entities `{Re.Engine}
    (content language : string) :
  Forall (fun e =>
            exists (i : nat) (line : string),
              PyStr.split PyStr.nl content !! i = Some line
              /\ Parser.ce_start_line e = Z.of_nat (S i)
              /\ Parser.ce_end_line e = Z.of_nat (S i)
              /\ Parser.ce_code e = PyStr.strip line)
    (Parser._fallback_extract content language).
Proof.
  apply Forall_forall. intros e He. apply list_elem_of_In in He.
  apply fallback_extract_inv in He as (i & line & Hline & Hs & He' & Hc & _).
  exists i, line. auto.
Qed.

(** ** What a run leaves alone *)

Section KeepFacts.
Import Analysis RunSpec.
Local Open Scope M_scope.
Context `{Collaborators} `{LLM.Client} `{Re.Engine} `{Parser.TreeSitter}
  `{Detector.Identifiers}.
Variable settings : Settings.
Variable repo_id : Z.

(** A relation between the session before and after, kept by every
    change that a run on [repo_id] can make. *)
Variable R : Database -> Database -> Prop.
Hypothesis R_refl : forall db, R db db.
Hypothesis R_trans : forall a b c, R a b -> R b c -> R a c.
Hypothesis R_repository :
  forall db (f : Repository -> Repository),
    R db (with_repositories (alter f repo_id) db).
Hypothesis R_files :
  forall db (fs : list File),
    (exists extra, map file_key fs = map file_key (files db) ++ extra) ->
    R db {| repositories := repositories db; files := fs;
            entities := entities db; relationships := relationships db |}.
Hypothesis R_entities :
  forall db (es : list Entity),
    R db {| repositories := repositories db; files := files db;
            entities := entities db ++ es; relationships := relationships db |}.
Hypothesis R_detect :
  ENABLE_RELATIONSHIP_DETECTION settings = true ->
  forall db, R db (fst (Detector.detect_all_relationships db repo_id)).

Lemma keeps_same {A} (m : M A) :
  (forall w, session (snd (m w)) = session w) -> keeps R m.
Proof.
  intros Hm w r w' Hrun. specialize (Hm w). rewrite Hrun in Hm. simpl in Hm.
  rewrite Hm. apply R_refl.
Qed.

Lemma keeps_ret {A} (a : A) : keeps R (ret a).
Proof. apply keeps_same. reflexivity. Qed.

Lemma keeps_raise {A} (e : Exception) : keeps R (@raise A e).
Proof. apply keeps_same. reflexivity. Qed.

Lemma keeps_lift {A} (x : Result A) : keeps R (lift x).
Proof. apply keeps_same. reflexivity. Qed.

Lemma keeps_emit (ev : Event) : keeps R (emit ev).
Proof. apply keeps_same. reflexivity. Qed.

Lemma keeps_call {A} (operation : string) (oracle : list Event -> Result A) :
  keeps R (call operation oracle).
Proof. apply keeps_same. reflexivity. Qed.

Lemma keeps_commit : keeps R commit.
Proof. apply keeps_same. reflexivity. Qed.

Lemma keeps_db_get (id : Z) : keeps R (db_get id).
Proof. apply keeps_same. reflexivity. Qed.

Lemma keeps_execute {A} (rows : Database -> A) : keeps R (execute rows).
Proof.
  apply keeps_same. intros w. unfold execute.
  destruct (execute_fault (trace w)); reflexivity.
Qed.

Lemma keeps_bind {A B} (m : M A) (k : A -> M B) :
  keeps R m -> (forall a, keeps R (k a)) -> keeps R (bind m k).
Proof.
  intros Hm Hk w r w' Hrun. unfold bind in Hrun.
  destruct (m w) as [[a | e] wm] eqn:Hmw.
  - eapply R_trans; [exact (Hm _ _ _ Hmw) | exact (Hk a _ _ _ Hrun)].
  - injection Hrun as <- <-. exact (Hm _ _ _ Hmw).
Qed.

Lemma keeps_try_except {A} (body : M A) (handler : Exception -> M A) :
  keeps R body -> (forall e, keeps R (handler e)) ->
  keeps R (try_except body handler).
Proof.
  intros Hb Hh w r w' Hrun. unfold try_except in Hrun.
  destruct (body w) as [[a | e] wb] eqn:Hbw.
  - injection Hrun as <- <-. exact (Hb _ _ _ Hbw).
  - eapply R_trans; [exact (Hb _ _ _ Hbw) | exact (Hh e _ _ _ Hrun)].
Qed.

Lemma keeps_try_finally {A} (body : M A) (final : M unit) :
  keeps R body -> keeps R final -> keeps R (try_finally body final).
Proof.
  intros Hb Hf w r w' Hrun. unfold try_finally in Hrun.
  destruct (body w) as [rb wb] eqn:Hbw.
  destruct (final wb) as [[[] | e] wf] eqn:Hfw; injection Hrun as <- <-;
    (eapply R_trans; [exact (Hb _ _ _ Hbw) | exact (Hf _ _ _ Hfw)]).
Qed.

Lemma keeps_modify (f : Database -> Database) :
  (forall db, R db (f db)) -> keeps R (modify_session f).
Proof. intros Hf w r w' [= <- <-]. apply Hf. Qed.

Lemma keeps_mfor {A} (l : list A) (body : A -> M unit) :
  (forall a, keeps R (body a)) -> keeps R (mfor l body).
Proof.
  intros Hbody. induction l as [|a l IH]; simpl; [apply keeps_ret |].
  apply keeps_bind; [apply Hbody | intros _; exact IH].
Qed.

Lemma keeps_mfold {A S} (l : list A) (body : S -> A -> M S) (s : S) :
  (forall s a, keeps R (body s a)) -> keeps R (mfold l body s).
Proof.
  intros Hbody. revert s. induction l as [|a l IH]; intros s; simpl;
    [apply keeps_ret |].
  apply keeps_bind; [apply Hbody | intros s'; apply IH].
Qed.

Lemma keeps_update_repo (f : Repository -> Repository) :
  keeps R (update_repo repo_id f).
Proof. apply keeps_modify. intros db. apply R_repository. Qed.

Lemma keeps_update_file (id : Z) (f : File -> File) :
  (forall file, file_key (f file) = file_key file) ->
  keeps R (update_file id f).
Proof.
  intros Hkey. apply keeps_modify. intros db. apply R_files. exists [].
  rewrite app_nil_r, map_map. apply map_ext. intros file.
  destruct (bool_decide (file_id file = id)); [apply Hkey | reflexivity].
Qed.

Lemma keeps_add_file (info : ScannedFile) : keeps R (add_file repo_id info).
Proof.
  apply keeps_modify. intros db. apply R_files. eexists.
  rewrite map_app. reflexivity.
Qed.

#[local] Hint Resolve keeps_ret keeps_raise keeps_lift keeps_emit keeps_call
  keeps_commit keeps_db_get keeps_execute keeps_update_repo keeps_add_file
  : frame.

Ltac keep_step :=
  first
    [ apply keeps_bind; [| intros ?]
    | apply keeps_mfor; intros ?
    | apply keeps_mfold; intros ? ?
    | apply keeps_update_file; intros ?; reflexivity
    | solve [auto with frame] ].

Lemma keeps_get_repo_and_say (msg : string) :
  keeps R (get_repo_and_say repo_id msg).
Proof.
  unfold get_repo_and_say. apply keeps_bind; [apply keeps_db_get |].
  intros [r|]; repeat keep_step.
Qed.

Lemma keeps_clone_and_scan : keeps R (_clone_and_scan repo_id).
Proof.
  unfold _clone_and_scan.
  apply keeps_bind; [apply keeps_get_repo_and_say | intros repo].
  repeat keep_step.
Qed.

Lemma keeps_collect_file (repo_path : string)
    (acc : list FileForSummary * list EntityForExplanation) (file_record : File) :
  keeps R (collect_file repo_path acc file_record).
Proof.
  unfold collect_file. destruct acc as [fs es].
  destruct (file_language file_record) as [language|]; [| repeat keep_step].
  destruct (negb (truthy_str language)); [repeat keep_step |].
  apply keeps_bind; [repeat keep_step | intros content].
  destruct (truthy (Parser.parse_file content language)); repeat keep_step.
Qed.

Lemma keeps_add_entity (ie : EntityForExplanation * string) :
  keeps R (add_entity repo_id ie).
Proof.
  unfold add_entity. destruct ie as [e_info explanation].
  apply keeps_bind; [apply keeps_lift | intros kind].
  apply keeps_modify. intros db. apply R_entities.
Qed.

Lemma keeps_parse_entities (repo_path : string) :
  keeps R (_parse_entities settings repo_id repo_path).
Proof.
  unfold _parse_entities.
  apply keeps_bind; [apply keeps_get_repo_and_say | intros repo].
  apply keeps_bind; [repeat keep_step | intros _].
  apply keeps_bind; [repeat keep_step | intros files].
  apply keeps_bind.
  { apply keeps_mfold. intros s a. apply keeps_collect_file. }
  intros [files_for_summary all_entities].
  apply keeps_bind.
  { destruct (truthy files_for_summary); repeat keep_step. }
  intros _. apply keeps_bind; [| intros _; repeat keep_step].
  destruct (truthy all_entities); [| repeat keep_step].
  repeat (apply keeps_bind; [repeat keep_step | intros ?]).
  apply keeps_mfor. intros ie. apply keeps_add_entity.
Qed.

Lemma keeps_detect :
  ENABLE_RELATIONSHIP_DETECTION settings = true -> keeps R (detect repo_id).
Proof.
  intros Hon. unfold detect. apply keeps_bind; [repeat keep_step | intros _].
  apply keeps_bind; [| intros n; repeat keep_step].
  intros w r w' [= <- <-]. simpl. apply R_detect, Hon.
Qed.

Lemma keeps_detect_relationships :
  ENABLE_RELATIONSHIP_DETECTION settings = true ->
  keeps R (_detect_relationships repo_id).
Proof.
  intros Hon. unfold _detect_relationships.
  apply keeps_bind; [apply keeps_get_repo_and_say | intros repo].
  apply keeps_bind; [repeat keep_step | intros _].
  apply keeps_bind; [apply keeps_detect, Hon | intros n].
  repeat keep_step.
Qed.

Lemma keeps_generate_embeddings :
  keeps R (_generate_embeddings settings repo_id).
Proof.
  unfold _generate_embeddings.
  apply keeps_bind; [apply keeps_get_repo_and_say | intros repo].
  repeat keep_step.
Qed.

Lemma keeps_pipeline : keeps R (pipeline settings repo_id).
Proof.
  unfold pipeline.
  apply keeps_bind; [apply keeps_emit | intros _].
  apply keeps_bind; [apply keeps_clone_and_scan | intros repo_path].
  apply keeps_bind; [apply keeps_emit | intros _].
  apply keeps_bind; [apply keeps_parse_entities | intros _].
  apply keeps_bind.
  { pose proof keeps_detect_relationships as Hdetect.
    destruct (ENABLE_RELATIONSHIP_DETECTION settings); [| apply keeps_emit].
    apply keeps_bind; [apply keeps_emit | intros _].
    apply Hdetect. reflexivity. }
  intros _. apply keeps_bind; [apply keeps_emit | intros _].
  apply keeps_generate_embeddings.
Qed.

(** Every change that a run makes to the session follows [R]. *)
Lemma keeps_analyze_repository : keeps R (analyze_repository settings repo_id).
Proof.
  unfold analyze_repository.
  apply keeps_bind; [apply keeps_db_get | intros [repo|]]; [| apply keeps_raise].
  apply keeps_bind; [unfold mark_in_progress; repeat keep_step | intros _].
  apply keeps_try_finally; [| apply keeps_emit].
  apply keeps_try_except.
  - unfold run_phases. apply keeps_bind; [apply keeps_pipeline | intros _].
    unfold complete. repeat keep_step.
  - intros e. unfold on_failure. repeat keep_step.
Qed.

End KeepFacts.

Section RunFacts.
Import Analysis RunSpec.
Local Open Scope M_scope.
Context `{Collaborators} `{LLM.Client} `{Re.Engine} `{Parser.TreeSitter}
  `{Detector.Identifiers}.
Variable settings : Settings.

(** The last thing a run on an existing repository does to the session
    is a commit. *)
Lemma analyze_commits_last (repo_id : Z) (w : World) (repo : Repository) :
  repositories (session w) !! repo_id = Some repo ->
  stored (snd (analyze_repository settings repo_id w))
  = session (snd (analyze_repository settings repo_id w)).
Proof.
  intros Hrepo. rewrite (analyze_found settings repo_id w repo Hrepo).
  unfold try_finally, try_except, run_phases, bind.
  destruct (pipeline settings repo_id _) as [[[] | e] w2]; reflexivity.
Qed.

Lemma grows_refl (db : Database) : grows db db.
Proof. repeat split; exists []; rewrite app_nil_r; reflexivity. Qed.

Lemma grows_trans (a b c : Database) : grows a b -> grows b c -> grows a c.
Proof.
  intros ([fs1 Hf1] & [es1 He1] & [rs1 Hr1]) ([fs2 Hf2] & [es2 He2] & [rs2 Hr2]).
  split; [| split].
  - exists (fs1 ++ fs2). rewrite Hf2, Hf1, app_assoc. reflexivity.
  - exists (es1 ++ es2). rewrite He2, He1, app_assoc. reflexivity.
  - exists (rs1 ++ rs2). rewrite Hr2, Hr1, app_assoc. reflexivity.
Qed.

End RunFacts.



(** X17: a run never removes a row and never changes the key of a file:
    after it, returned or raised, the files of the session are the
    files from before, in their order and with their identifier,
    repository and path, followed by new ones, and the entities and the
    relationships are those from before followed by new ones. *)
Theorem analyze_only_adds_rows
    `{Analysis.Collaborators} `{LLM.Client} `{Re.Engine} `{Parser.TreeSitter}
    `{Detector.Identifiers}
    (settings : Settings) (repo_id : Z) (w : Analysis.World) :
  RunSpec.grows (Analysis.session w)
    (Analysis.session (snd (Analysis.analyze_repository settings repo_id w))).
Proof.
  apply (keeps_analyze_repository settings repo_id RunSpec.grows)
    with (w := w) (r := fst (Analysis.analyze_repository settings repo_id w)).
  - apply grows_refl.
  - apply grows_trans.
  - intros db f. repeat split; exists []; rewrite app_nil_r; reflexivity.
  - intros db fs Hfs. split; [exact Hfs |].
    split; exists []; rewrite app_nil_r; reflexivity.
  - intros db es. split; [exists []; rewrite app_nil_r; reflexivity |].
    split; [exists es; reflexivity | exists []; rewrite app_nil_r; reflexivity].
  - intros _ db. split; [exists []; rewrite app_nil_r; reflexivity |].
    split; [exists []; rewrite app_nil_r; reflexivity |].
    eexists. reflexivity.
  - destruct (Analysis.analyze_repository settings repo_id w). reflexivity.
Qed.

(** X18: when the detection of relationships is switched off, a run
    leaves the relationships as they are, whether it returns or
    raises. *)
Theorem analyze_without_detection_keeps_relationships
    `{Analysis.Collaborators} `{LLM.Client} `{Re.Engine} `{Parser.TreeSitter}
    `{Detector.Identifiers}
    (settings : Settings) (repo_id : Z) (w : Analysis.World) :
  ENABLE_RELATIONSHIP_DETECTION settings = false ->
  relationships
    (Analysis.session (snd (Analysis.analyze_repository settings repo_id w)))
  = relationships (Analysis.session w).
Proof.
  intros Hoff.
  apply (keeps_analyze_repository settings repo_id RunSpec.same_relationships)
    with (w := w) (r := fst (Analysis.analyze_repository settings repo_id w)).
  - intros db. reflexivity.
  - unfold RunSpec.same_relationships. intros a b c Hab Hbc. congruence.
  - intros db f. reflexivity.
  - intros db fs _. reflexivity.
  - intros db es. reflexivity.
  - intros Hon. congruence.
  - destruct (Analysis.analyze_repository settings repo_id w). reflexivity.
Qed.

Lemma analyze_without_detection_keeps_relationships_witness :
  relationships
    (Analysis.session
       (snd (@Analysis.analyze_repository Fixtures.empty_checkout
               Fixtures.first_task_fails Fixtures.main_calls_helper
               Fixtures.no_grammar Fixtures.ascii_identifiers
               Fixtures.no_detection 1 Fixtures.fresh_session)))
  = relationships (Analysis.session Fixtures.fresh_session).
Proof.
  apply (@analyze_without_detection_keeps_relationships Fixtures.empty_checkout
           Fixtures.first_task_fails Fixtures.main_calls_helper
           Fixtures.no_grammar Fixtures.ascii_identifiers
           Fixtures.no_detection 1%Z Fixtures.fresh_session).
  reflexivity.
Defined.

(** ** The status of a run and its report *)

Section StatusFacts.
Import Analysis Report RunSpec.
Local Open Scope M_scope.
Context `{Collaborators} `{LLM.Client} `{Re.Engine} `{Parser.TreeSitter}
  `{Detector.Identifiers}.
Variable settings : Settings.

(** The row of the repository when the pipeline is over. *)
Lemma pipeline_row (repo_id : Z) (w w2 : World) (repo : Repository)
    (r : Result unit) :
  repositories (session w) !! repo_id = Some repo ->
  pipeline settings repo_id (snd (mark_in_progress repo_id w)) = (r, w2) ->
  exists row, repositories (session w2) !! repo_id = Some row
              /\ status row = IN_PROGRESS.
Proof.
  intros Hrepo Hpipe.
  destruct (mark_in_progress_world repo_id w repo Hrepo) as (_ & _ & Hin).
  destruct (pipeline_trace settings repo_id _ _ _ Hpipe) as [Hs _].
  rewrite <- Hs in Hin. unfold statuses in Hin. rewrite lookup_fmap in Hin.
  destruct (repositories (session w2) !! repo_id) as [row|]; [| discriminate].
  exists row. split; [reflexivity |]. simpl in Hin. congruence.
Qed.

(** The row of the repository when the run is over. *)
Lemma analyze_final_row (repo_id : Z) (w : World) (repo : Repository) :
  repositories (session w) !! repo_id = Some repo ->
  let run := analyze_repository settings repo_id w in
  exists row,
    repositories (session (snd run)) !! repo_id = Some row
    /\ match fst run with
       | Ok _ => status row = COMPLETED
                 /\ status_message row = Some "Analysis complete"
       | Raise e => status row = FAILED
                    /\ status_message row
                       = Some ("Analysis failed: " +:+ exc_str e)
       end.
Proof.
  intros Hrepo. cbv zeta.
  rewrite (analyze_found settings repo_id w repo Hrepo).
  unfold try_finally, try_except, run_phases, bind.
  destruct (pipeline settings repo_id _) as [[[] | e] w2] eqn:Hpipe;
    destruct (pipeline_row repo_id w w2 repo _ Hrepo Hpipe) as (row & Hrow & _);
    simpl; rewrite !lookup_alter_eq, Hrow; simpl;
    eexists; (split; [reflexivity |]); split; reflexivity.
Qed.

Lemma breakdown_fold (files : list ScannedFile) (m : gmap string Z)
    (lang : string) :
  fold_left
    (fun breakdown file =>
       <[language_or_other file :=
           (default 0 (breakdown !! language_or_other file) + 1)%Z]> breakdown)
    files m !! lang
  = let n := Detector.count_where
               (fun file => String.eqb (language_or_other file) lang) files in
    if (n =? 0)%nat then m !! lang
    else Some (default 0 (m !! lang) + Z.of_nat n)%Z.
Proof.
  revert m. induction files as [|file files IH]; intros m; [reflexivity |].
  cbn [fold_left]. rewrite IH. unfold Detector.count_where. cbn [List.filter].
  destruct (String.eqb_spec (language_or_other file) lang) as [Heq | Hne].
  - rewrite Heq, lookup_insert_eq. cbn [length default].
    destruct (length (List.filter _ files)) as [|n] eqn:Hn; cbn [Nat.eqb].
    + reflexivity.
    + f_equal. unfold id. lia.
  - rewrite lookup_insert_ne by exact Hne. reflexivity.
Qed.

End StatusFacts.





(** X21: a repository that does not exist: the analysis and the status
    report both raise the ValueError that names it, and nothing happens:
    no row is written, nothing is committed, no phase starts and the
    ingester is not cleaned up. *)
Theorem missing_repository_is_reported
    `{Analysis.Collaborators} `{LLM.Client} `{Re.Engine} `{Parser.TreeSitter}
    `{Detector.Identifiers}
    (settings : Settings) (repo_id : Z) (w : Analysis.World) :
  repositories (Analysis.session w) !! repo_id = None ->
  Analysis.analyze_repository settings repo_id w
  = (Raise (ValueError ("Repository " +:+ pretty repo_id +:+ " not found")), w)
  /\ Report.get_analysis_status repo_id w
     = (Raise (ValueError ("Repository " +:+ pretty repo_id +:+ " not found")), w).
Proof.
  intros Hnone. split; [apply analyze_not_found, Hnone |].
  unfold Report.get_analysis_status, Analysis.bind, Analysis.db_get.
  rewrite Hnone. reflexivity.
Qed.

Lemma missing_repository_is_reported_witness :
  @Analysis.analyze_repository Fixtures.clone_fails Fixtures.first_task_fails
    Fixtures.main_calls_helper Fixtures.no_grammar Fixtures.ascii_identifiers
    default_settings 7 Fixtures.fresh_session
  = (Raise (ValueError "Repository 7 not found"), Fixtures.fresh_session).
Proof.
  apply (@missing_repository_is_reported Fixtures.clone_fails
           Fixtures.first_task_fails Fixtures.main_calls_helper
           Fixtures.no_grammar Fixtures.ascii_identifiers default_settings
           7%Z Fixtures.fresh_session).
  reflexivity.
Defined.

(** X22: the language breakdown gives each language the number of
    scanned files of that language, the files without a language being
    counted under other; a language without a file is not a key. *)
Theorem language_breakdown_counts
    (files : list Analysis.ScannedFile) (lang : string) :
  Analysis.get_language_breakdown files !! lang
  = let n := Detector.count_where
               (fun file => String.eqb (RunSpec.language_or_other file) lang)
               files in
    if (n =? 0)%nat then None else Some (Z.of_nat n).
Proof.
  unfold Analysis.get_language_breakdown.
  change (fold_left _ files ∅) with
    (fold_left
       (fun breakdown file =>
          <[RunSpec.language_or_other file :=
              (default 0 (breakdown !! RunSpec.language_or_other file) + 1)%Z]>
            breakdown)
       files (∅ : gmap string Z)).
  rewrite breakdown_fold. cbv zeta. rewrite lookup_empty.
  destruct (Nat.eqb _ 0); reflexivity.
Qed.

(** ** Phase 1: the files of a repository *)

Section PhaseOneFacts.
Import Analysis RunSpec.
Local Open Scope M_scope.
Context `{Collaborators}.

Lemma bind_Ok {A B} (m : M A) (k : A -> M B) (w w' : World) (b : B) :
  bind m k w = (Ok b, w') ->
  exists a w1, m w = (Ok a, w1) /\ k a w1 = (Ok b, w').
Proof.
  unfold bind. destruct (m w) as [[a | e] w1]; [| discriminate].
  intros Hk. exists a, w1. auto.
Qed.

(** The rows added for a list of scanned files. *)
Lemma mfor_add_file (repo_id : Z) (scanned : list ScannedFile) (w : World) :
  exists new_files,
    mfor scanned (add_file repo_id) w
    = (Ok tt,
       {| session :=
            {| repositories := repositories (session w);
               files := files (session w) ++ new_files;
               entities := entities (session w);
               relationships := relationships (session w) |};
          stored := stored w;
          trace := trace w |})
    /\ map file_path new_files = map sf_path scanned
    /\ map file_language new_files = map sf_language scanned
    /\ Forall (fun f => file_repo_id f = repo_id) new_files.
Proof.
  revert w. induction scanned as [|info scanned IH]; intros w.
  - exists []. split; [| repeat split; constructor].
    destruct w as [[rs fs es rels] st tr]. simpl. rewrite app_nil_r. reflexivity.
  - cbn [mfor]. unfold bind at 1. unfold add_file at 1, modify_session.
    match goal with
    | |- context [mfor scanned (add_file repo_id) ?w1] =>
        destruct (IH w1) as (new_files & Hrun & Hpaths & Hlangs & Hrepo)
    end.
    eexists (_ :: new_files). rewrite Hrun. cbn [session stored trace
      repositories files entities relationships].
    rewrite <- app_assoc. split; [reflexivity |].
    split; [cbn [map file_path]; rewrite Hpaths; reflexivity |].
    split; [cbn [map file_language]; rewrite Hlangs; reflexivity |].
    constructor; [reflexivity | exact Hrepo].
Qed.

End PhaseOneFacts.

(** X23: when the first phase returns, the session holds the files from
    before followed by one new file row for each scanned file, in the
    order of the scan, with the path and the language of the scan and the
    identifier of the repository; the row of the repository counts these
    files and holds their language breakdown; entities and relationships
    are as before, and all of this is committed. *)
Theorem clone_and_scan_records_files `{Analysis.Collaborators}
    (repo_id : Z) (w w' : Analysis.World) (repo_path : string) :
  Analysis._clone_and_scan repo_id w = (Ok repo_path, w') ->
  exists scanned new_files row,
    files (Analysis.session w') = files (Analysis.session w) ++ new_files
    /\ map file_path new_files = map Analysis.sf_path scanned
    /\ map file_language new_files = map Analysis.sf_language scanned
    /\ Forall (fun f => file_repo_id f = repo_id) new_files
    /\ repositories (Analysis.session w') !! repo_id = Some row
    /\ file_count row = Z.of_nat (length scanned)
    /\ language_breakdown row = Analysis.get_language_breakdown scanned
    /\ entities (Analysis.session w') = entities (Analysis.session w)
    /\ relationships (Analysis.session w') = relationships (Analysis.session w)
    /\ Analysis.stored w' = Analysis.session w'.
Proof.
  intros Hrun. unfold Analysis._clone_and_scan in Hrun.
  apply bind_Ok in Hrun as (repo & w1 & Hsay & Hrun).
  unfold Analysis.get_repo_and_say, Analysis.bind, Analysis.db_get in Hsay.
  destruct (repositories (Analysis.session w) !! repo_id) as [r|] eqn:Hr;
    [| discriminate Hsay].
  cbn in Hsay. injection Hsay as <- <-.
  apply bind_Ok in Hrun as ([] & w2 & [= <-] & Hrun).
  apply bind_Ok in Hrun as (path & w3 & Hclone & Hrun).
  unfold Analysis.call in Hclone. injection Hclone as _ <-.
  apply bind_Ok in Hrun as ([] & w4 & [= <-] & Hrun).
  apply bind_Ok in Hrun as ([] & w5 & [= <-] & Hrun).
  apply bind_Ok in Hrun as (scanned & w6 & Hscan & Hrun).
  unfold Analysis.call in Hscan. injection Hscan as _ <-.
  apply bind_Ok in Hrun as ([] & w7 & Hadd & Hrun).
  match type of Hadd with
  | Analysis.mfor _ _ ?w0 = _ =>
      destruct (mfor_add_file repo_id scanned w0)
        as (new_files & Hfiles & Hpaths & Hlangs & Hrepo)
  end.
  rewrite Hfiles in Hadd. injection Hadd as <-.
  apply bind_Ok in Hrun as ([] & w8 & [= <-] & Hrun).
  apply bind_Ok in Hrun as ([] & w9 & [= <-] & Hrun).
  apply bind_Ok in Hrun as ([] & w10 & [= <-] & Hrun).
  injection Hrun as _ <-.
  exists scanned, new_files. eexists.
  cbn [Analysis.session Analysis.stored Analysis.trace Analysis.with_repositories
       repositories files entities relationships].
  split; [reflexivity |]. split; [exact Hpaths |]. split; [exact Hlangs |].
  split; [exact Hrepo |].
  split; [rewrite !lookup_alter_eq, Hr; reflexivity |].
  repeat split.
Qed.

Lemma clone_and_scan_records_files_witness :
  let run := @Analysis._clone_and_scan Fixtures.two_file_checkout 1
               Fixtures.fresh_session in
  exists new_files row,
    files (Analysis.session (snd run)) = new_files
    /\ map file_path new_files = ["app.py"; "LICENSE"]
    /\ repositories (Analysis.session (snd run)) !! 1%Z = Some row
    /\ file_count row = 2%Z.
Proof.
  intros run.
  assert (run = (Ok "/tmp/codearch_demo", snd run)) as Hrun
    by (vm_compute; reflexivity).
  destruct (@clone_and_scan_records_files Fixtures.two_file_checkout 1%Z
              Fixtures.fresh_session (snd run) "/tmp/codearch_demo" Hrun)
    as (scanned & new_files & row & Hfiles & Hpaths & _ & _ & Hrow & Hcount
        & Hbreak & _).
  exists new_files, row. split; [exact Hfiles |].
  assert (map file_path new_files = ["app.py"; "LICENSE"]) as Hnames.
  { change (files (Analysis.session (snd run)) = new_files) in Hfiles.
    rewrite <- Hfiles. vm_compute. reflexivity. }
  split; [exact Hnames |]. split; [exact Hrow |].
  rewrite Hcount. rewrite <- (length_map Analysis.sf_path), <- Hpaths, Hnames.
  reflexivity.
Defined.

(** ** The items of a numbered list *)

Section DecoderFacts.
Import LLM DecoderSpec.

Lemma truthy_snoc {A} (l : list A) (x : A) : truthy (l ++ [x]) = true.
Proof. destruct l; reflexivity. Qed.

Lemma parse_line_count (st : ParseState) (line : string) :
  item_count (parse_line st line)
  = item_count st + (if numbered line then 1 else 0).
Proof.
  unfold parse_line, numbered, item_count.
  destruct (match_numbered line) as [ds|]; cbn [items current_item truthy].
  - destruct (truthy (current_item st)); [rewrite length_app; simpl |]; lia.
  - destruct (truthy (current_item st)) eqn:Hopen;
      cbn [items current_item]; [rewrite truthy_snoc | rewrite Hopen]; lia.
Qed.

Lemma parse_lines_count (lines : list string) (st : ParseState) :
  item_count (fold_left parse_line lines st)
  = item_count st + Detector.count_where numbered lines.
Proof.
  revert st. induction lines as [|line lines IH]; intros st; simpl.
  - unfold Detector.count_where. simpl. lia.
  - rewrite IH, parse_line_count. unfold Detector.count_where. simpl.
    destruct (numbered line); simpl; lia.
Qed.

End DecoderFacts.


(** ** Calls and keywords *)

Section KeywordFacts.
Import Re Detector.

Lemma add_non_keywords_inv (names : list string) (calls : gset string)
    (x : string) :
  x ∈ add_non_keywords names calls -> x ∈ calls \/ x ∉ keywords.
Proof.
  unfold add_non_keywords. revert calls.
  induction names as [|name names IH]; intros calls; simpl; [auto |].
  intros Hx. apply IH in Hx as [Hx | Hx]; [| auto].
  case_bool_decide as Hkey; [| auto].
  apply elem_of_union in Hx as [Hx | Hx]; [| auto].
  apply elem_of_singleton in Hx as ->. auto.
Qed.

Lemma extract_function_calls_no_keyword `{Engine} (code x : string) :
  x ∈ _extract_function_calls code -> x ∉ keywords.
Proof.
  unfold _extract_function_calls. intros Hx.
  apply add_non_keywords_inv in Hx as [Hx | Hx]; [| exact Hx].
  apply add_non_keywords_inv in Hx as [Hx | Hx]; [| exact Hx].
  set_solver.
Qed.

Lemma edges_to_named (entity_map : gmap string Entity) (entity : Entity)
    (kind : RelationshipType) (keep : string -> bool) (names : gset string)
    (rel : Relationship) :
  In rel (edges_to entity_map entity kind keep names) ->
  exists name target,
    name ∈ names /\ entity_map !! name = Some target
    /\ rel = new_relationship entity target kind.
Proof.
  unfold edges_to. rewrite in_flat_map. intros (name & Hname & Hrel).
  apply list_elem_of_In, elem_of_elements in Hname.
  destruct (entity_map !! name) as [target|] eqn:Hm; [| destruct Hrel].
  destruct (keep name); [| destruct Hrel].
  destruct Hrel as [<- | []]. exists name, target. auto.
Qed.

Lemma entity_relationships_calls `{Engine} `{Identifiers}
    (entity_map : gmap string Entity) (entity : Entity) (rel : Relationship) :
  In rel (entity_relationships entity_map entity) ->
  relationship_type rel = CALLS ->
  exists name target,
    (name ∉ keywords) /\ entity_map !! name = Some target
    /\ rel = new_relationship entity target CALLS.
Proof.
  unfold entity_relationships.
  destruct (code_snippet entity) as [code|]; [| intros []].
  destruct (negb (truthy_str code)); [intros [] |].
  rewrite !in_app_iff. intros [Hc | [Hc | Hc]] Hkind.
  - apply edges_to_named in Hc as (name & target & Hname & Hm & ->).
    exists name, target. split; [| auto].
    exact (extract_function_calls_no_keyword code name Hname).
  - destruct (bool_decide (entity_type entity = CLASS)); [| destruct Hc].
    apply edges_to_named in Hc as (name & target & _ & _ & ->).
    discriminate Hkind.
  - destruct (bool_decide (entity_type entity = CLASS)); [| destruct Hc].
    apply edges_to_named in Hc as (name & target & _ & _ & ->).
    discriminate Hkind.
Qed.

End KeywordFacts.

(** X25: no call ends at an entity whose name is one of the keywords
    that the detector sets apart ([if], [for], [function], [delete] and
    the like): such an entity is never the target of a call. *)
Theorem calls_never_target_keywords `{Re.Engine} `{Detector.Identifiers}
    (db : Database) (repo_id : Z) (rel : Relationship) :
  In rel (Detector.entity_level_relationships db repo_id) ->
  relationship_type rel = CALLS ->
  exists target,
    In target (Detector.repo_entities db repo_id)
    /\ target_entity_id rel = Some (entity_id target)
    /\ (entity_name target ∉ Detector.keywords).
Proof.
  unfold Detector.entity_level_relationships. rewrite in_flat_map.
  intros (source & _ & Hrel) Hkind.
  apply entity_relationships_calls in Hrel as (name & target & Hkey & Hm & ->);
    [| exact Hkind].
  exists target. split; [exact (build_entity_map_from _ _ _ Hm) |].
  split; [reflexivity |].
  rewrite (build_entity_map_name _ _ _ Hm). exact Hkey.
Qed.

Lemma calls_never_target_keywords_witness :
  exists target,
    In target (Detector.repo_entities Fixtures.two_repositories 1)
    /\ entity_id target = 1%Z
    /\ (entity_name target ∉ Detector.keywords).
Proof.
  destruct (@calls_never_target_keywords
              Fixtures.main_calls_helper Fixtures.ascii_identifiers
              Fixtures.two_repositories 1%Z (Fixtures.call 2 1))
    as (target & Hin & Hid & Hkey).
  - vm_compute. left. reflexivity.
  - reflexivity.
  - exists target. simpl in Hid. split; [exact Hin |].
    split; [congruence | exact Hkey].
Defined.

(** ** Imports and upper-case letters *)

Section CaseFacts.
Import PyStr ImportMatch.

Lemma lower_char_idempotent (c : ascii) :
  lower_char (lower_char c) = lower_char c.
Proof.
  destruct c as [b0 b1 b2 b3 b4 b5 b6 b7].
  destruct b0, b1, b2, b3, b4, b5, b6, b7; vm_compute; reflexivity.
Qed.

Lemma mem_char_append (c : ascii) (a b : string) :
  mem_char c (a +:+ b) = mem_char c a || mem_char c b.
Proof.
  induction a as [|x a IH]; [reflexivity |].
  rewrite append_String. simpl. rewrite IH, orb_assoc. reflexivity.
Qed.

Lemma mem_char_rev_app (c : ascii) (s1 s2 : string) :
  mem_char c (String.rev_app s1 s2) = mem_char c s1 || mem_char c s2.
Proof.
  revert s2. induction s1 as [|x s1 IH]; intros s2; [reflexivity |].
  cbn [String.rev_app]. rewrite IH. simpl.
  destruct (Ascii.eqb x c), (mem_char c s1); reflexivity.
Qed.

Lemma mem_char_rev (c : ascii) (s : string) :
  mem_char c (String.rev s) = mem_char c s.
Proof.
  unfold String.rev. rewrite mem_char_rev_app. simpl. apply orb_false_r.
Qed.

Lemma mem_char_lower (c : ascii) (s : string) :
  mem_char c (lower s) = true -> lower_char c = c.
Proof.
  induction s as [|x s IH]; simpl; [discriminate |].
  intros [Hx | Hs]%orb_true_iff; [| exact (IH Hs)].
  apply Ascii.eqb_eq in Hx as <-. apply lower_char_idempotent.
Qed.

Lemma mem_char_replace_from (c : ascii) (old new : string) (s : string) :
  forall skip,
    mem_char c (replace_from old new skip s) = true ->
    mem_char c new = true \/ mem_char c s = true.
Proof.
  induction s as [|x s IH]; intros skip; cbn [replace_from];
    [simpl; discriminate |].
  assert (forall k, mem_char c (replace_from old new k s) = true ->
                    mem_char c new = true \/ mem_char c (String x s) = true)
    as Hrest.
  { intros k Hr. destruct (IH _ Hr) as [Hn | Hs]; [auto |].
    right. cbn [mem_char]. rewrite Hs. apply orb_true_r. }
  destruct skip as [|k]; [| apply Hrest].
  destruct (String.prefix old (String x s)).
  - rewrite mem_char_append. intros [Hn | Hr]%orb_true_iff; [auto |].
    exact (Hrest _ Hr).
  - cbn [mem_char]. intros [Hx | Hr]%orb_true_iff.
    + right. rewrite Hx. reflexivity.
    + exact (Hrest _ Hr).
Qed.

Lemma mem_char_before_last (c sep : ascii) (s h : string) :
  before_last sep s = Some h -> mem_char c h = true -> mem_char c s = true.
Proof.
  revert h. induction s as [|x s IH]; intros h; simpl; [discriminate |].
  destruct (before_last sep s) as [h'|].
  - intros [= <-]. simpl. intros [Hx | Hh]%orb_true_iff.
    + rewrite Hx. reflexivity.
    + rewrite (IH h' eq_refl Hh). apply orb_true_r.
  - destruct (Ascii.eqb x sep); [| discriminate].
    intros [= <-]. discriminate.
Qed.

Lemma mem_char_prefix (c : ascii) (p s : string) :
  String.prefix p s = true -> mem_char c p = true -> mem_char c s = true.
Proof.
  intros [rest ->]%prefix_iff_app Hp. rewrite mem_char_append, Hp. reflexivity.
Qed.

(** Every character of the base of a file path is in lower case. *)
Lemma file_base_lower (file_path : string) (c : ascii) :
  mem_char c (file_base file_path) = true -> lower_char c = c.
Proof.
  unfold file_base, file_normalized.
  set (normalized := lower (replace "\" "/" file_path)).
  assert (mem_char c (rsplit1_head "." normalized) = true -> lower_char c = c)
    as Hhead.
  { unfold rsplit1_head.
    destruct (before_last "." normalized) as [h|] eqn:Hh.
    - intros Hc. apply (mem_char_lower c (replace "\" "/" file_path)).
      exact (mem_char_before_last c "." normalized h Hh Hc).
    - apply mem_char_lower. }
  destruct (endswith (rsplit1_head "." normalized) "/__init__"); [| exact Hhead].
  intros Hc. apply mem_char_replace_from in Hc as [Hc | Hc];
    [discriminate Hc | exact (Hhead Hc)].
Qed.

Lemma mem_char_lstrip (p : ascii -> bool) (c : ascii) (s : string) :
  p c = false -> mem_char c s = true -> mem_char c (lstrip_by p s) = true.
Proof.
  intros Hp. induction s as [|x s IH]; simpl; [discriminate |].
  destruct (p x) eqn:Hx; [| simpl; auto].
  intros [Hxc | Hs]%orb_true_iff; [| exact (IH Hs)].
  apply Ascii.eqb_eq in Hxc. congruence.
Qed.

Lemma mem_char_strip (p : ascii -> bool) (c : ascii) (s : string) :
  p c = false -> mem_char c s = true -> mem_char c (strip_by p s) = true.
Proof.
  intros Hp Hs. unfold strip_by, rstrip_by.
  rewrite mem_char_rev. apply mem_char_lstrip; [exact Hp |].
  rewrite mem_char_rev. apply mem_char_lstrip; assumption.
Qed.

Lemma mem_char_replace_dot (c : ascii) (s : string) :
  Ascii.eqb "." c = false -> mem_char c s = true ->
  mem_char c (replace_from "." "/" 0 s) = true.
Proof.
  intros Hdot. induction s as [|x s IH]; [discriminate |].
  cbn [replace_from mem_char].
  assert (String.prefix "." (String x s)
          = if ascii_dec "." x then true else false) as ->
    by (cbn [String.prefix]; destruct (ascii_dec "." x);
        [destruct s |]; reflexivity).
  change (String.length "." - 1) with 0.
  destruct (ascii_dec "." x) as [<- | Hne].
  - rewrite Hdot. cbn [orb]. intros Hs.
    rewrite mem_char_append, (IH Hs). apply orb_true_r.
  - cbn [mem_char]. intros [Hx | Hs]%orb_true_iff.
    + rewrite Hx. reflexivity.
    + rewrite (IH Hs). apply orb_true_r.
Qed.

(** A character that [lower] changes survives the normalisation of the
    import path. *)
Lemma import_normalized_keeps (import_path : string) (c : ascii) :
  lower_char c <> c -> mem_char c import_path = true ->
  mem_char c (import_normalized import_path) = true.
Proof.
  intros Hcase Hc. unfold import_normalized, strip_chars.
  assert (mem_char c "./ " = false) as Hout.
  { destruct (mem_char c "./ ") eqn:Hm; [| reflexivity]. exfalso. apply Hcase.
    cbn [mem_char] in Hm. rewrite orb_false_r in Hm.
    apply orb_true_iff in Hm as [Hm | Hm];
      [| apply orb_true_iff in Hm as [Hm | Hm]];
      apply Ascii.eqb_eq in Hm as <-; reflexivity. }
  apply mem_char_strip; [exact Hout |].
  apply mem_char_replace_dot; [| exact Hc].
  cbn [mem_char] in Hout. apply orb_false_iff in Hout as [Hdot _]. exact Hdot.
Qed.

End CaseFacts.

(** X26: the file path is put in lower case before the comparison and
    the import path is not: an import path that holds an upper-case
    letter, or any character that [lower] changes, matches no file
    path. *)
Theorem import_match_needs_lower_case (import_path file_path : string)
    (c : ascii) :
  PyStr.mem_char c import_path = true ->
  PyStr.lower_char c <> c ->
  ImportMatch._is_import_match import_path file_path = false.
Proof.
  intros Hc Hcase.
  pose proof (import_normalized_keeps import_path c Hcase Hc) as Himp.
  unfold ImportMatch._is_import_match.
  destruct (String.eqb_spec (ImportMatch.file_base file_path)
              (ImportMatch.import_normalized import_path)) as [Heq | _].
  { exfalso. apply Hcase, (file_base_lower file_path). rewrite Heq. exact Himp. }
  destruct (PyStr.startswith (ImportMatch.file_base file_path)
              (ImportMatch.import_normalized import_path +:+ "/")) eqn:Hpre;
    [| reflexivity].
  exfalso. apply Hcase, (file_base_lower file_path).
  apply (mem_char_prefix c _ _ Hpre).
  rewrite mem_char_append, Himp. reflexivity.
Qed.

Lemma import_match_needs_lower_case_witness :
  ImportMatch._is_import_match "Utils.helpers" "Utils/helpers.py" = false.
Proof.
  apply (import_match_needs_lower_case "Utils.helpers" "Utils/helpers.py" "U").
  - reflexivity.
  - discriminate.
Defined.

(** ** Phase 3: what the message counts *)

(** X27: when the third phase returns, the relationships between
    entities and the import relationships found on the rows of the
    session have been appended and committed, and the message of the
    repository gives the number of the relationships between entities
    only: the import relationships are stored but not counted. *)
Theorem detect_relationships_message_counts_entity_level
    `{Analysis.Collaborators} `{Re.Engine} `{Detector.Identifiers}
    (repo_id : Z) (w w' : Analysis.World) :
  Analysis._detect_relationships repo_id w = (Ok tt, w') ->
  let created := Detector.entity_level_relationships (Analysis.session w) repo_id in
  let imports := Detector._detect_imports (Analysis.session w) repo_id in
  relationships (Analysis.session w')
  = relationships (Analysis.session w) ++ created ++ imports
  /\ status_message <$> repositories (Analysis.session w') !! repo_id
     = Some (Some ("Detected " +:+ pretty (Z.of_nat (length created))
                   +:+ " relationships"))
  /\ Analysis.stored w' = Analysis.session w'.
Proof.
  intros Hrun. unfold Analysis._detect_relationships in Hrun.
  apply bind_Ok in Hrun as (repo & w1 & Hsay & Hrun).
  unfold Analysis.get_repo_and_say, Analysis.bind, Analysis.db_get in Hsay.
  destruct (repositories (Analysis.session w) !! repo_id) as [r|] eqn:Hr;
    [| discriminate Hsay].
  cbn in Hsay. injection Hsay as <- <-.
  apply bind_Ok in Hrun as ([] & w2 & [= <-] & Hrun).
  apply bind_Ok in Hrun as (n & w3 & Hdetect & Hrun).
  unfold Analysis.detect in Hdetect.
  apply bind_Ok in Hdetect as ([] & wa & Hexec & Hdetect).
  unfold Analysis.execute in Hexec.
  destruct (Analysis.execute_fault _); [discriminate Hexec |].
  injection Hexec as <-.
  apply bind_Ok in Hdetect as (n' & wb & [= <- <-] & Hdetect).
  apply bind_Ok in Hdetect as ([] & wc & [= <-] & Hdetect).
  injection Hdetect as <- <-.
  apply bind_Ok in Hrun as ([] & w4 & [= <-] & Hrun).
  injection Hrun as <-.
  cbv zeta.
  cbn [Analysis.session Analysis.stored Analysis.trace Analysis.with_repositories
       Detector.detect_all_relationships fst snd
       repositories files entities relationships].
  split; [reflexivity |]. split; [| reflexivity].
  rewrite !lookup_alter_eq, Hr. reflexivity.
Qed.

Lemma detect_relationships_message_counts_entity_level_witness :
  let run := @Analysis._detect_relationships Fixtures.empty_checkout
               Fixtures.main_calls_helper Fixtures.ascii_identifiers 1
               Fixtures.parsed_session in
  status_message <$> repositories (Analysis.session (snd run)) !! 1%Z
  = Some (Some "Detected 1 relationships").
Proof.
  intros run.
  assert (run = (Ok tt, snd run)) as Hrun by (vm_compute; reflexivity).
  destruct (@detect_relationships_message_counts_entity_level
              Fixtures.empty_checkout Fixtures.main_calls_helper
              Fixtures.ascii_identifiers 1%Z Fixtures.parsed_session
              (snd run) Hrun)
    as (_ & Hmessage & _).
  rewrite Hmessage. vm_compute. reflexivity.
Defined.

(** ** Phase 2: failures that are absorbed *)

Section ReturnFacts.
Import Analysis RunSpec ParserSpec.
Local Open Scope M_scope.
Context `{Collaborators} `{LLM.Client} `{Re.Engine} `{Parser.TreeSitter}.
Variable settings : Settings.
Variable repo_id : Z.
Variable before : list Entity.

Hypothesis no_fault : forall t, execute_fault t = None.
Hypothesis batch_size_positive : (0 < LLM_BATCH_SIZE settings)%Z.

Local Abbreviation Inv := (parsing repo_id before).

Lemma returns_bind {A B} (P : World -> Prop) (m : M A) (Q : A -> World -> Prop)
    (k : A -> M B) (R : B -> World -> Prop) :
  returns P m Q -> (forall a, returns (Q a) (k a) R) -> returns P (bind m k) R.
Proof.
  intros Hm Hk w Hw. destruct (Hm w Hw) as (a & w1 & Hrun & Hq).
  destruct (Hk a w1 Hq) as (b & w2 & Hrun2 & Hr).
  exists b, w2. unfold bind. rewrite Hrun. auto.
Qed.

Lemma returns_assume {A} (F : Prop) (P : World -> Prop) (m : M A)
    (Q : A -> World -> Prop) :
  (F -> returns P m Q) -> returns (fun w => F /\ P w) m Q.
Proof. intros Hm w [Hf Hw]. exact (Hm Hf w Hw). Qed.

Lemma returns_ret {A} (P : World -> Prop) (a : A) :
  returns P (ret a) (fun _ => P).
Proof. intros w Hw. exists a, w. auto. Qed.

(** A step that leaves the session as it is. *)
Lemma returns_same {A} (m : M A) (Q : A -> Prop) :
  (forall w, exists a, fst (m w) = Ok a /\ Q a
                       /\ session (snd (m w)) = session w) ->
  returns Inv m (fun a w => Q a /\ Inv w).
Proof.
  intros Hm w Hw. destruct (Hm w) as (a & Hres & Hq & Hs).
  exists a, (snd (m w)). split; [rewrite <- Hres; apply surjective_pairing |].
  split; [exact Hq |]. unfold parsing. rewrite Hs. exact Hw.
Qed.

Lemma returns_commit : returns Inv commit (fun _ => Inv).
Proof. intros w Hw. eexists _, _. split; [reflexivity | exact Hw]. Qed.

Lemma returns_call {A} (operation : string) (oracle : list Event -> Result A)
    (Q : A -> Prop) :
  (forall t, exists a, oracle t = Ok a /\ Q a) ->
  returns Inv (call operation oracle) (fun a w => Q a /\ Inv w).
Proof.
  intros Horacle. apply returns_same. intros w.
  destruct (Horacle (trace w)) as (a & Ha & Hq). exists a.
  unfold call. simpl. auto.
Qed.

Lemma returns_execute {A} (rows : Database -> A) :
  returns Inv (execute rows) (fun _ => Inv).
Proof.
  intros w Hw. unfold execute. rewrite no_fault.
  eexists _, _. split; [reflexivity | exact Hw].
Qed.

Lemma returns_update_repo (f : Repository -> Repository) :
  returns Inv (update_repo repo_id f) (fun _ => Inv).
Proof.
  intros w [[r Hr] Hnew]. eexists _, _. split; [reflexivity |].
  split; [| exact Hnew]. simpl. rewrite lookup_alter_eq, Hr. eexists. reflexivity.
Qed.

Lemma returns_update_file (id : Z) (f : File -> File) :
  returns Inv (update_file id f) (fun _ => Inv).
Proof. intros w Hw. eexists _, _. split; [reflexivity | exact Hw]. Qed.

Lemma returns_get_repo_and_say (msg : string) :
  returns Inv (get_repo_and_say repo_id msg) (fun _ => Inv).
Proof.
  intros w Hw. pose proof Hw as [[r Hr] _].
  destruct (returns_update_repo (set_status_message msg) w Hw)
    as ([] & w1 & Hrun & Hw1).
  exists r, w1. split; [| exact Hw1].
  unfold get_repo_and_say, bind, db_get. rewrite Hr, Hrun. reflexivity.
Qed.

Lemma returns_mfor {A} (P : A -> Prop) (l : list A) (body : A -> M unit) :
  (forall a, P a -> returns Inv (body a) (fun _ => Inv)) ->
  Forall P l -> returns Inv (mfor l body) (fun _ => Inv).
Proof.
  intros Hbody Hl. induction Hl as [|a rest Ha Hrest IH]; simpl.
  - apply returns_ret.
  - eapply returns_bind; [apply Hbody, Ha | intros ?; exact IH].
Qed.

Lemma returns_mfold {A S} (J : S -> Prop) (l : list A) (body : S -> A -> M S) :
  (forall s a, J s -> returns Inv (body s a) (fun s' w => J s' /\ Inv w)) ->
  forall s, J s -> returns Inv (mfold l body s) (fun s' w => J s' /\ Inv w).
Proof.
  intros Hbody. induction l as [|a l IH]; intros s Hs; simpl.
  - intros w Hw. exists s, w. auto.
  - eapply returns_bind; [apply Hbody, Hs |].
    intros s' w [Hs' Hw]. exact (IH s' Hs' w Hw).
Qed.

Lemma returns_collect_file (repo_path : string)
    (acc : list FileForSummary * list EntityForExplanation) (file_record : File) :
  collected acc ->
  returns Inv (collect_file repo_path acc file_record)
    (fun acc' w => collected acc' /\ Inv w).
Proof.
  intros Hacc. unfold collect_file. destruct acc as [fs es].
  destruct (file_language file_record) as [language|];
    [| intros w Hw; eexists _, _; split; [reflexivity | auto]].
  destruct (negb (truthy_str language));
    [intros w Hw; eexists _, _; split; [reflexivity | auto] |].
  eapply returns_bind.
  { apply (returns_call _ _ (fun _ => True)). intros t. eexists. auto. }
  intros content. cbv beta.
  assert (collected
            (fs, es ++ map (fun entity_data =>
                              {| ee_entity_data := entity_data;
                                 ee_language := language;
                                 ee_file_id := file_id file_record |})
                         (Parser.parse_file content language))) as Hmore.
  { unfold collected. cbn [snd]. apply Forall_app. split; [exact Hacc |].
    apply Forall_map. cbn [ee_entity_data].
    apply parse_file_declared_kind. }
  destruct (truthy (Parser.parse_file content language)).
  - intros w [_ Hw].
    destruct (returns_update_file (file_id file_record)
                (set_line_count
                   (Z.of_nat (length (PyStr.split PyStr.nl content)))) w Hw)
      as ([] & w1 & Hrun & Hw1).
    eexists _, w1. unfold bind. rewrite Hrun. split; [reflexivity |].
    split; [exact Hmore | exact Hw1].
  - intros w [_ Hw]. eexists _, w. split; [reflexivity |].
    split; [exact Hmore | exact Hw].
Qed.

Lemma returns_add_entity (ie : EntityForExplanation * string) :
  declared_kind (ee_entity_data (fst ie)) ->
  returns Inv (add_entity repo_id ie) (fun _ => Inv).
Proof.
  destruct ie as [e_info explanation]. cbn [fst]. intros Hkind w [Hrow Hnew].
  destruct Hnew as (new & Hentities & Hgood).
  unfold add_entity, bind, lift.
  assert (exists kind,
             entity_type_of_value (Parser.ce_type (ee_entity_data e_info)) = Ok kind
             /\ (kind = FUNCTION \/ kind = CLASS)) as (kind & Hvalue & Hfc).
  { destruct Hkind as [-> | ->]; eexists; (split; [reflexivity | auto]). }
  rewrite Hvalue. eexists _, _. split; [reflexivity |].
  split; [exact Hrow |]. cbn [session entities].
  eexists (new ++ [_]). rewrite Hentities, <- app_assoc.
  split; [reflexivity |]. apply Forall_app. split; [exact Hgood |].
  constructor; [| constructor].
  repeat split; cbn; eauto.
Qed.

Lemma Forall_combine_fst {A B} (P : A -> Prop) (l : list A) (l' : list B) :
  Forall P l -> Forall (fun ab => P (fst ab)) (combine l l').
Proof.
  intros Hl. revert l'. induction Hl as [|a rest Ha Hrest IH]; intros [|b l'];
    simpl; constructor; auto.
Qed.

Lemma returns_parse_entities (repo_path : string) :
  returns Inv (_parse_entities settings repo_id repo_path) (fun _ => Inv).
Proof.
  unfold _parse_entities.
  eapply returns_bind; [apply returns_get_repo_and_say | intros repo].
  eapply returns_bind; [apply returns_commit | intros ?].
  eapply returns_bind; [apply returns_execute | intros files].
  eapply returns_bind.
  { apply (returns_mfold collected); [intros acc file; apply returns_collect_file |].
    constructor. }
  intros [files_for_summary all_entities].
  apply (returns_assume (collected (files_for_summary, all_entities))).
  intros Hcollected.
  eapply returns_bind.
  { destruct (truthy files_for_summary); [| apply returns_ret].
    eapply returns_bind; [apply returns_update_repo | intros ?].
    eapply returns_bind; [apply returns_commit | intros ?].
    eapply returns_bind.
    { apply (returns_call _ _ (fun _ => True)). intros t.
      destruct (generate_file_summaries_batch_length
                  (map (fun f => {| LLM.fi_path := fs_path f;
                                    LLM.fi_code := fs_code f;
                                    LLM.fi_language := fs_language f |})
                     files_for_summary)) as (summaries & Hok & _).
      exists summaries. auto. }
    intros summaries. apply (returns_assume True). intros _.
    apply (returns_mfor (fun _ => True)); [| apply Forall_forall; auto].
    intros fsum _. apply returns_update_file. }
  intros ?. eapply returns_bind; [| intros ?; apply returns_commit].
  destruct (truthy all_entities); [| apply returns_ret].
  eapply returns_bind; [apply returns_update_repo | intros ?].
  eapply returns_bind; [apply returns_commit | intros ?].
  eapply returns_bind.
  { apply (returns_call _ _ (fun _ => True)). intros t.
    destruct (explain_functions_batch_length settings
                (map (fun e => {| LLM.fn_name := Parser.ce_name (ee_entity_data e);
                                  LLM.fn_code :=
                                    PyStr.take 2000
                                      (Parser.ce_code (ee_entity_data e));
                                  LLM.fn_language := ee_language e |})
                   all_entities) batch_size_positive)
      as (explanations & Hok & _).
    exists explanations. auto. }
  intros explanations. apply (returns_assume True). intros _.
  apply (returns_mfor (fun ie => declared_kind (ee_entity_data (fst ie))));
    [intros ie; apply returns_add_entity |].
  apply (Forall_combine_fst (fun e => declared_kind (ee_entity_data e))).
  exact Hcollected.
Qed.

End ReturnFacts.



(** The example: the service fails on the only group, and the function
    found by the line patterns is stored with the placeholder. *)
Example parse_entities_placeholder :
  map (fun e => (entity_name e, entity_type e, logic_summary e))
    (skipn 4
       (entities
          (Analysis.session
             (snd (@Analysis._parse_entities Fixtures.reads_helper
                     Fixtures.first_task_fails Fixtures.finds_def
                     Fixtures.no_grammar default_settings 1
                     "/tmp/codearch_demo" Fixtures.parsed_session)))))
  = [("helper", FUNCTION, Some LLM.explanation_placeholder)].
Proof. vm_compute. reflexivity. Qed.
